(** * proxy-server: the on-disk response cache of [main.go]

    A shallow embedding of the cache subsystem of the caching proxy
    ([ProxyCache] in [main.go]): key derivation, the gzip/JSON cache files,
    expiry, the eviction sweep and the request handler, together with the
    properties the specification states about them.

    Layout: the Go standard-library pieces the program calls come first
    (SHA-256 and hex are given in full, since keys are compared by value;
    gzip and encoding/json are an interface with their contract), then the
    file system and clock the program runs against, then the program itself,
    function by function, then the theorems. *)

From Stdlib Require Import ZArith NArith List String Ascii Bool Lia.
From Stdlib Require Import Strings.Byte Sorting.Sorted.
From stdpp Require Import gmap strings list fin_maps.

Import ListNotations.
Local Open Scope string_scope.
Local Open Scope list_scope.
Local Open Scope Z_scope.

(* ===================================================================== *)
(** * Bytes and strings *)
(* ===================================================================== *)

(** Go's [[]byte] is a [list byte]; a Go [string] is a [string] (a sequence of
    8-bit characters). *)

Definition byte_to_Z (b : byte) : Z := Z.of_N (Byte.to_N b).

(** [uint8(x)]: the low eight bits of [x]. *)
Definition byte_of_Z (x : Z) : byte :=
  match Byte.of_N (Z.to_N (x mod 256)) with
  | Some b => b
  | None => x00
  end.

Definition bytes_of_string (s : string) : list byte := list_byte_of_string s.

(* ===================================================================== *)
(** * crypto/sha256 *)
(* ===================================================================== *)

Module sha256.

(** [uint32] arithmetic: values are kept in [0, 2^32). *)
Definition u32 (x : Z) : Z := x mod 4294967296.

(** [bits.RotateLeft32(x, -n)], a rotation to the right by [n]. *)
Definition rotr (n x : Z) : Z :=
  Z.lor (Z.shiftr x n) (u32 (Z.shiftl x (32 - n))).

(** [^x] on a [uint32]. *)
Definition not32 (x : Z) : Z := 4294967295 - x.

Definition init : list Z :=
  [ 0x6A09E667; 0xBB67AE85; 0x3C6EF372; 0xA54FF53A;
    0x510E527F; 0x9B05688C; 0x1F83D9AB; 0x5BE0CD19 ].

Definition _K : list Z :=
  [ 0x428A2F98; 0x71374491; 0xB5C0FBCF; 0xE9B5DBA5;
    0x3956C25B; 0x59F111F1; 0x923F82A4; 0xAB1C5ED5;
    0xD807AA98; 0x12835B01; 0x243185BE; 0x550C7DC3;
    0x72BE5D74; 0x80DEB1FE; 0x9BDC06A7; 0xC19BF174;
    0xE49B69C1; 0xEFBE4786; 0x0FC19DC6; 0x240CA1CC;
    0x2DE92C6F; 0x4A7484AA; 0x5CB0A9DC; 0x76F988DA;
    0x983E5152; 0xA831C66D; 0xB00327C8; 0xBF597FC7;
    0xC6E00BF3; 0xD5A79147; 0x06CA6351; 0x14292967;
    0x27B70A85; 0x2E1B2138; 0x4D2C6DFC; 0x53380D13;
    0x650A7354; 0x766A0ABB; 0x81C2C92E; 0x92722C85;
    0xA2BFE8A1; 0xA81A664B; 0xC24B8B70; 0xC76C51A3;
    0xD192E819; 0xD6990624; 0xF40E3585; 0x106AA070;
    0x19A4C116; 0x1E376C08; 0x2748774C; 0x34B0BCB5;
    0x391C0CB3; 0x4ED8AA4A; 0x5B9CCA4F; 0x682E6FF3;
    0x748F82EE; 0x78A5636F; 0x84C87814; 0x8CC70208;
    0x90BEFFFA; 0xA4506CEB; 0xBEF9A3F7; 0xC67178F2 ].

(** The first loop of [blockGeneric]: sixteen big-endian words of a chunk. *)
Fixpoint words (p : list Z) : list Z :=
  match p with
  | b0 :: b1 :: b2 :: b3 :: rest =>
      Z.lor (Z.lor (Z.lor (Z.shiftl b0 24) (Z.shiftl b1 16)) (Z.shiftl b2 8)) b3
      :: words rest
  | _ => []
  end.

(** The second loop: [w[i]] for [i] from 16 to 63.  [rw] holds
    [w[i-1], w[i-2], ...] (latest first). *)
Definition next_w (rw : list Z) : Z :=
  let v1 := nth 1 rw 0 in
  let t1 := Z.lxor (Z.lxor (rotr 17 v1) (rotr 19 v1)) (Z.shiftr v1 10) in
  let v2 := nth 14 rw 0 in
  let t2 := Z.lxor (Z.lxor (rotr 7 v2) (rotr 18 v2)) (Z.shiftr v2 3) in
  u32 (t1 + nth 6 rw 0 + t2 + nth 15 rw 0).

Fixpoint extend (n : nat) (rw : list Z) : list Z :=
  match n with
  | O => rw
  | S n' => extend n' (next_w rw :: rw)
  end.

Definition schedule (chunk : list Z) : list Z :=
  rev (extend 48 (rev (words chunk))).

(** The eight working variables [a .. h]. *)
Record regs := Regs { ra : Z; rb : Z; rc : Z; rd : Z; re : Z; rf : Z; rg : Z; rh : Z }.

(** One iteration of the third loop. *)
Definition round (r : regs) (kw : Z * Z) : regs :=
  let '(Regs a b c d e f g h) := r in
  let t1 := u32 (h + Z.lxor (Z.lxor (rotr 6 e) (rotr 11 e)) (rotr 25 e)
                   + Z.lxor (Z.land e f) (Z.land (not32 e) g)
                   + fst kw + snd kw) in
  let t2 := u32 (Z.lxor (Z.lxor (rotr 2 a) (rotr 13 a)) (rotr 22 a)
                 + Z.lxor (Z.lxor (Z.land a b) (Z.land a c)) (Z.land b c)) in
  Regs (u32 (t1 + t2)) a b c (u32 (d + t1)) e f g.

Definition regs_of (hs : list Z) : regs :=
  Regs (nth 0 hs 0) (nth 1 hs 0) (nth 2 hs 0) (nth 3 hs 0)
       (nth 4 hs 0) (nth 5 hs 0) (nth 6 hs 0) (nth 7 hs 0).

(** The body of the outer loop of [blockGeneric] for one 64-byte chunk. *)
Definition block (hs : list Z) (chunk : list Z) : list Z :=
  let r0 := regs_of hs in
  let '(Regs a b c d e f g h) := fold_left round (combine _K (schedule chunk)) r0 in
  [ u32 (ra r0 + a); u32 (rb r0 + b); u32 (rc r0 + c); u32 (rd r0 + d);
    u32 (re r0 + e); u32 (rf r0 + f); u32 (rg r0 + g); u32 (rh r0 + h) ].

(** [for len(p) >= chunk { ...; p = p[chunk:] }]. *)
Fixpoint blocks (n : nat) (hs : list Z) (p : list Z) : list Z :=
  match n with
  | O => hs
  | S n' => blocks n' (block hs (firstn 64 p)) (skipn 64 p)
  end.

(** [putUint64] / [putUint32]: big-endian bytes of a number. *)
Fixpoint be_bytes (n : nat) (x : Z) : list Z :=
  match n with
  | O => []
  | S n' => Z.shiftr x (8 * Z.of_nat n') mod 256 :: be_bytes n' x
  end.

(** The padding written by [checkSum]: a [0x80] byte, zeros up to 56 modulo
    64, and the bit length as a 64-bit big-endian number. *)
Definition pad (len : Z) : list Z :=
  let r := len mod 64 in
  let zeros := if r <? 56 then 55 - r else 119 - r in
  128 :: repeat 0 (Z.to_nat zeros) ++ be_bytes 8 (len * 8).

(** [sha256.Sum256]: the thirty-two bytes of the digest. *)
Definition sum (msg : list byte) : list byte :=
  let p := map byte_to_Z msg in
  let padded := p ++ pad (Z.of_nat (length p)) in
  let hs := blocks (length padded / 64) init padded in
  map byte_of_Z (flat_map (be_bytes 4) hs).

(** The [hash.Hash] object returned by [sha256.New]: the bytes written so
    far.  [Write] appends, [Sum(nil)] hashes what was written. *)
Definition digest := list byte.
Definition New : digest := [].
Definition WriteString (h : digest) (s : string) : digest := h ++ bytes_of_string s.
Definition Sum (h : digest) (b : list byte) : list byte := b ++ sum h.

End sha256.

(* ===================================================================== *)
(** * encoding/hex *)
(* ===================================================================== *)

Module hex.

Definition hextable : string := "0123456789abcdef".

(** [hextable[i]]. *)
Definition digit (i : Z) : ascii :=
  match String.get (Z.to_nat i) hextable with
  | Some c => c
  | None => "0"%char
  end.

(** [hex.EncodeToString]: two digits per byte, high nibble first. *)
Fixpoint EncodeToString (src : list byte) : string :=
  match src with
  | [] => EmptyString
  | v :: rest =>
      String (digit (Z.shiftr (byte_to_Z v) 4))
        (String (digit (Z.land (byte_to_Z v) 15)) (EncodeToString rest))
  end.

(** The value of a hex digit (what [hex.DecodeString] reads back). *)
Definition fromHexChar (c : ascii) : Z :=
  let n := Z.of_N (N_of_ascii c) in
  if (48 <=? n) && (n <=? 57) then n - 48
  else if (97 <=? n) && (n <=? 102) then n - 97 + 10
  else 0.

Definition decode_byte (hi lo : ascii) : byte :=
  byte_of_Z (16 * fromHexChar hi + fromHexChar lo).

End hex.

(* ===================================================================== *)
(** * time *)
(* ===================================================================== *)

Module time.

(** A [time.Time] read back from a cache file carries no monotonic clock
    reading, so every comparison the cache makes is on wall-clock instants:
    an instant is its number of nanoseconds since the Unix epoch.  A
    [time.Duration] is an [int64] count of nanoseconds. *)
Definition Time := Z.
Definition Duration := Z.

Definition minDuration : Duration := - 9223372036854775808.
Definition maxDuration : Duration := 9223372036854775807.
Definition Second : Duration := 1000000000.

(** [t.Sub(u)]: the difference, clamped to the range of [Duration] ("if the
    result exceeds the maximum (or minimum) value that can be stored in a
    Duration, the maximum (or minimum) duration will be returned"). *)
Definition Sub (t u : Time) : Duration :=
  let d := t - u in
  if d <? minDuration then minDuration
  else if maxDuration <? d then maxDuration
  else d.

End time.

(** [int64] wrap-around. *)
Definition wrap64 (x : Z) : Z :=
  (x + 9223372036854775808) mod 18446744073709551616 - 9223372036854775808.

(* ===================================================================== *)
(** * Errors *)
(* ===================================================================== *)

Inductive errno := ENOENT | EACCES | EPERM | EISDIR | ENOTEMPTY.

(** [path/filepath] on a system whose separator is the slash. *)
Module filepath.

Definition Separator : ascii := "/".

(** The elements of a path: what stands between the separators. *)
Fixpoint elements (path : string) : list string :=
  match path with
  | EmptyString => [EmptyString]
  | String c rest =>
      if Ascii.eqb c Separator then EmptyString :: elements rest
      else match elements rest with
           | e :: es => String c e :: es
           | [] => [String c EmptyString]
           end
  end.

(** One turn of the loop of [Clean], on the element that starts at the
    reading position.  [out] is the elements written so far and [dotdot] the
    number of [..] elements they start with, below which a [..] cannot
    backtrack.  An empty element and [.] are skipped; [..] removes the last
    element written, or is dropped at the root, or is written in its turn;
    any other element is written. *)
Definition clean_step (rooted : bool) (st : list string * nat) (e : string)
    : list string * nat :=
  let '(out, dotdot) := st in
  if String.eqb e EmptyString || String.eqb e "." then st
  else if String.eqb e ".." then
    if (dotdot <? length out)%nat then (removelast out, dotdot)
    else if rooted then st
    else (out ++ [".."], S dotdot)
  else (out ++ [e], dotdot).

(** [filepath.Clean]: "the shortest path name equivalent to path by purely
    lexical processing"; the empty path becomes [.]. *)
Definition Clean (path : string) : string :=
  match path with
  | EmptyString => "."
  | String c _ =>
      let rooted := Ascii.eqb c Separator in
      let out := fst (foldl (clean_step rooted) ([], 0%nat) (elements path)) in
      if rooted then String Separator (String.concat "/" out)
      else match out with
           | [] => "."
           | _ :: _ => String.concat "/" out
           end
  end.

(** [filepath.Join] of two elements: empty elements are ignored, the rest is
    joined with the separator and cleaned. *)
Definition Join (dir name : string) : string :=
  match dir, name with
  | EmptyString, EmptyString => EmptyString
  | EmptyString, _ => Clean name
  | _, _ => Clean (dir +:+ "/" +:+ name)
  end.

End filepath.

(** A path built by [filepath.Join(dir, name)] from the cache directory and
    the name of an entry.  The names are cache keys (hex digests) plus a
    suffix, or names returned by [os.ReadDir], so the path names that entry
    of the directory; the operations below find the entry by the name and
    put the joined and cleaned string in their errors. *)
Record path := Join { p_dir : string; p_name : string }.

(** The path as a string: the result of [filepath.Join]. *)
Definition path_string (p : path) : string := filepath.Join (p_dir p) (p_name p).

(** Go [error] values: an [*fs.PathError] from package os, or an error that is
    only a message (package io, gzip, json, [fmt.Errorf]). *)
Inductive error :=
| PathError (op : string) (p : string) (e : errno)
| errorString (s : string).

Definition errno_string (e : errno) : string :=
  match e with
  | ENOENT => "no such file or directory"
  | EACCES => "permission denied"
  | EPERM => "operation not permitted"
  | EISDIR => "is a directory"
  | ENOTEMPTY => "directory not empty"
  end.

(** [err.Error()]. *)
Definition Error (err : error) : string :=
  match err with
  | PathError op p e => op +:+ " " +:+ p +:+ ": " +:+ errno_string e
  | errorString s => s
  end.

(* ===================================================================== *)
(** * The cache file format: compress/gzip and encoding/json *)
(* ===================================================================== *)

(** [type CacheItem struct]. *)
Record CacheItem := { Data : list byte; Timestamp : time.Time }.

(** What reading a [gzip.Reader] to its end delivers: the decompressed bytes,
    and the error that cuts them short, if any (a bad checksum, a truncated
    stream). *)
Record stream := { s_bytes : list byte; s_err : option string }.

(** What the program uses of the two packages.  [gzip_Write b] is the content
    of the file once [b] has been written to a [gzip.Writer] on it and the
    writer closed; [gzip_NewReader] reads the header of a file's content and
    gives the stream behind it; [json_Encode] is
    [json.NewEncoder(w).Encode(item)] up to the bytes it hands to [w];
    [json_Decode] is [json.NewDecoder(reader).Decode(&item)], which also
    surfaces the error of the stream it reads.  A failure carries the text of
    the error. *)
Class Codec := {
  gzip_Write : list byte -> list byte;
  gzip_NewReader : list byte -> string + stream;
  json_Encode : CacheItem -> string + list byte;
  json_Decode : stream -> string + CacheItem
}.

(** The contract of each package: a gzip reader gives back what the writer
    was given, and the JSON decoder gives back the item the encoder was
    given. *)
Class CodecLaws (C : Codec) : Prop := {
  gzip_read_write : forall b : list byte,
    gzip_NewReader (gzip_Write b) = inr {| s_bytes := b; s_err := None |};
  json_decode_encode : forall (item : CacheItem) (js : list byte),
    json_Encode item = inr js ->
    json_Decode {| s_bytes := js; s_err := None |} = inr item
}.

(* ===================================================================== *)
(** * The cache directory on disk *)
(* ===================================================================== *)

(** A regular file with its content and what the operating system allows on
    it: opening it for reading, opening it for writing, unlinking it. *)
Record file := {
  f_data : list byte;
  f_readable : bool;
  f_writable : bool;
  f_removable : bool
}.

Inductive node :=
| File (f : file)
| SubDir (empty : bool).

(** The cache directory: its entries by name, and whether the process may
    list it and may create or unlink entries in it. *)
Record FS := {
  entries : gmap string node;
  d_listable : bool;
  d_writable : bool
}.

Definition with_entries (fs : FS) (m : gmap string node) : FS :=
  {| entries := m; d_listable := d_listable fs; d_writable := d_writable fs |}.

Module os.

(** [os.IsNotExist]. *)
Definition IsNotExist (err : error) : bool :=
  match err with
  | PathError _ _ ENOENT => true
  | _ => false
  end.

(** [os.Open]: the open file, or the error. *)
Definition Open (fs : FS) (p : path) : error + node :=
  match entries fs !! p_name p with
  | None => inl (PathError "open" (path_string p) ENOENT)
  | Some (File f) =>
      if f_readable f then inr (File f) else inl (PathError "open" (path_string p) EACCES)
  | Some (SubDir e) => inr (SubDir e)
  end.

(** Reading an open file to its end. *)
Definition ReadAll (p : path) (h : node) : error + list byte :=
  match h with
  | File f => inr (f_data f)
  | SubDir _ => inl (PathError "read" (path_string p) EISDIR)
  end.

(** [os.Create]: opens the file for reading and writing, creating it or
    truncating the one that exists. *)
Definition Create (fs : FS) (p : path) : error + FS :=
  match entries fs !! p_name p with
  | None =>
      if d_writable fs
      then inr (with_entries fs (<[p_name p :=
             File {| f_data := []; f_readable := true; f_writable := true;
                     f_removable := true |}]> (entries fs)))
      else inl (PathError "open" (path_string p) EACCES)
  | Some (File f) =>
      if f_readable f && f_writable f
      then inr (with_entries fs (<[p_name p :=
             File {| f_data := []; f_readable := true;
                     f_writable := true; f_removable := f_removable f |}]>
             (entries fs)))
      else inl (PathError "open" (path_string p) EACCES)
  | Some (SubDir _) => inl (PathError "open" (path_string p) EISDIR)
  end.

(** Writing to the file just created: its content becomes [data]. *)
Definition WriteFile (fs : FS) (p : path) (data : list byte) : FS :=
  match entries fs !! p_name p with
  | Some (File f) =>
      with_entries fs (<[p_name p :=
        File {| f_data := data; f_readable := f_readable f;
                f_writable := f_writable f; f_removable := f_removable f |}]>
        (entries fs))
  | _ => fs
  end.

(** [os.Remove]. *)
Definition Remove (fs : FS) (p : path) : option error * FS :=
  match entries fs !! p_name p with
  | None => (Some (PathError "remove" (path_string p) ENOENT), fs)
  | Some (File f) =>
      if d_writable fs && f_removable f
      then (None, with_entries fs (delete (p_name p) (entries fs)))
      else (Some (PathError "remove" (path_string p)
                    (if d_writable fs then EPERM else EACCES)), fs)
  | Some (SubDir e) =>
      if d_writable fs && e
      then (None, with_entries fs (delete (p_name p) (entries fs)))
      else (Some (PathError "remove" (path_string p)
                    (if d_writable fs then ENOTEMPTY else EACCES)), fs)
  end.

(** [fs.DirEntry]. *)
Record DirEntry := { Name : string; IsDir : bool }.

Definition entry_of (kv : string * node) : DirEntry :=
  {| Name := fst kv;
     IsDir := match snd kv with SubDir _ => true | File _ => false end |}.

(** [sort.Slice(dirs, func(i, j int) bool { return dirs[i].Name() <
    dirs[j].Name() })]: strings compare byte by byte, and the names in a
    directory are distinct. *)
Fixpoint insert_by_name (kv : string * node) (l : list (string * node))
    : list (string * node) :=
  match l with
  | [] => [kv]
  | x :: l' =>
      if String.ltb (fst kv) (fst x) then kv :: l else x :: insert_by_name kv l'
  end.

Definition sort_by_name (l : list (string * node)) : list (string * node) :=
  foldr insert_by_name [] l.

(** The entries of the directory in the order [os.ReadDir] returns them:
    "sorted by filename". *)
Definition listing (fs : FS) : list (string * node) :=
  sort_by_name (map_to_list (entries fs)).

(** [os.ReadDir] of the cache directory. *)
Definition ReadDir (fs : FS) (dir : string) : error + list DirEntry :=
  if d_listable fs
  then inr (map entry_of (listing fs))
  else inl (PathError "open" dir EACCES).

End os.

(* ===================================================================== *)
(** * strconv *)
(* ===================================================================== *)

Module strconv.

Definition minInt64 : Z := - 9223372036854775808.
Definition maxInt64 : Z := 9223372036854775807.

(** [ch - '0'] when it is at most 9. *)
Definition digit_val (c : ascii) : option Z :=
  let n := Z.of_N (N_of_ascii c) in
  if (48 <=? n) && (n <=? 57) then Some (n - 48) else None.

(** [n = n*10 + int(ch)] over the digits; a character that is not a digit is
    a syntax error. *)
Fixpoint digits (s : string) (n : Z) : option Z :=
  match s with
  | EmptyString => Some n
  | String c s' =>
      match digit_val c with
      | Some d => digits s' (n * 10 + d)
      | None => None
      end
  end.

(** [strconv.Atoi]: an optional sign and at least one decimal digit; a value
    that does not fit an [int] (64 bits) is a range error.  [None] stands for
    a non-nil error. *)
Definition Atoi (s : string) : option Z :=
  match s with
  | EmptyString => None
  | String c rest =>
      let neg := Ascii.eqb c "-" in
      let body := if neg || Ascii.eqb c "+" then rest else s in
      match body with
      | EmptyString => None
      | String _ _ =>
          match digits body 0 with
          | None => None
          | Some n =>
              let v := if neg then - n else n in
              if (minInt64 <=? v) && (v <=? maxInt64) then Some v else None
          end
      end
  end.

(** [strconv.ParseInt(s, 10, 64)]: [Atoi] is [ParseInt(s, 10, 0)], and an
    [int] has 64 bits. *)
Definition ParseInt (s : string) : option Z := Atoi s.

End strconv.

(* ===================================================================== *)
(** * net/http: headers, the response writer, the upstream call *)
(* ===================================================================== *)

Module http.

(** [http.Header], a [map[string][]string].  Keys are in canonical form
    (the server and the client canonicalise the keys they parse, and
    ["X-Cache"] and ["Content-Type"] are canonical), so [Add] and [Set] use
    the key as it is. *)
Abbreviation Header := (gmap string (list string)).

Definition Add (key value : string) (h : Header) : Header :=
  <[key := default [] (h !! key) ++ [value]]> h.

Definition Set_ (key value : string) (h : Header) : Header :=
  <[key := [value]]> h.

Definition StatusOK : Z := 200.
Definition StatusBadRequest : Z := 400.
Definition StatusInternalServerError : Z := 500.
Definition StatusBadGateway : Z := 502.

(** The inbound request: its method, the [url] query parameter (empty when
    absent, as [r.URL.Query().Get] returns it) and its headers. *)
Record Request := {
  Method : string;
  Query_url : string;
  ReqHeader : Header
}.

(** [h.get(key)]: the first value of the key, or the empty string. *)
Definition Header_get (h : Header) (key : string) : string :=
  match h !! key with
  | Some (v :: _) => v
  | _ => EmptyString
  end.

(** [h.Del(key)]. *)
Definition Del (key : string) (h : Header) : Header := delete key h.

(** The state of the server's [http.ResponseWriter]: the header map of
    [w.Header()], the status once written, the length the response declared
    in its [Content-Length] header when the status was written (-1 when it
    declared none), the number of bytes the handler has asked to write, the
    body written so far, and whether a call on it has panicked (the handler
    is gone from there on, so later calls leave it as it is). *)
Record ResponseWriter := {
  w_header : Header;
  w_status : option Z;
  w_contentLength : Z;
  w_written : Z;
  w_body : list byte;
  w_panic : bool
}.

Definition NewResponseWriter : ResponseWriter :=
  {| w_header := ∅; w_status := None; w_contentLength := -1; w_written := 0;
     w_body := []; w_panic := false |}.

(** [w.Header().Set(key, value)]. *)
Definition SetHeader (key value : string) (w : ResponseWriter) : ResponseWriter :=
  {| w_header := Set_ key value (w_header w); w_status := w_status w;
     w_contentLength := w_contentLength w; w_written := w_written w;
     w_body := w_body w; w_panic := w_panic w |}.

(** [checkWriteHeaderCode]: "invalid WriteHeader code" below 100 and above
    999. *)
Definition checkWriteHeaderCode (code : Z) : bool :=
  (100 <=? code) && (code <=? 999).

(** The informational codes, which [WriteHeader] sends on without settling
    the status of the response: 1xx other than 101. *)
Definition informational (code : Z) : bool :=
  (100 <=? code) && (code <=? 199) && negb (code =? 101).

(** [bodyAllowedForStatus]: no body with 1xx, 204 and 304. *)
Definition bodyAllowedForStatus (status : Z) : bool :=
  if (100 <=? status) && (status <=? 199) then false
  else if status =? 204 then false
  else if status =? 304 then false
  else true.

(** [w.WriteHeader(code)]: ignored once the status is written; panics on a
    code that is not a status code; passes an informational code on.  With
    the status it takes the [Content-Length] of the header map: a
    non-negative number is the declared length of the body, anything else is
    deleted from the map. *)
Definition WriteHeader (code : Z) (w : ResponseWriter) : ResponseWriter :=
  if w_panic w then w
  else
    match w_status w with
    | Some _ => w
    | None =>
        if negb (checkWriteHeaderCode code)
        then {| w_header := w_header w; w_status := None;
                w_contentLength := w_contentLength w; w_written := w_written w;
                w_body := w_body w; w_panic := true |}
        else if informational code then w
        else
          let cl := Header_get (w_header w) "Content-Length" in
          if String.eqb cl EmptyString
          then {| w_header := w_header w; w_status := Some code;
                  w_contentLength := w_contentLength w; w_written := w_written w;
                  w_body := w_body w; w_panic := false |}
          else
            match strconv.ParseInt cl with
            | Some v =>
                if 0 <=? v
                then {| w_header := w_header w; w_status := Some code;
                        w_contentLength := v; w_written := w_written w;
                        w_body := w_body w; w_panic := false |}
                else {| w_header := Del "Content-Length" (w_header w);
                        w_status := Some code;
                        w_contentLength := w_contentLength w;
                        w_written := w_written w;
                        w_body := w_body w; w_panic := false |}
            | None =>
                {| w_header := Del "Content-Length" (w_header w);
                   w_status := Some code;
                   w_contentLength := w_contentLength w;
                   w_written := w_written w;
                   w_body := w_body w; w_panic := false |}
            end
    end.

(** [w.Write(data)]: "if WriteHeader has not yet been called, Write calls
    WriteHeader(http.StatusOK) before writing the data".  Nothing is done
    for no data; data is refused when the status allows no body
    ([ErrBodyNotAllowed]) and when it goes beyond the declared length
    ([ErrContentLength]).  The status is written by the time the body is
    looked at.  The handler does not look at the result of [Write]. *)
Definition Write (data : list byte) (w : ResponseWriter) : ResponseWriter :=
  if w_panic w then w
  else
    let w1 := WriteHeader StatusOK w in
    let lenData := Z.of_nat (length data) in
    if lenData =? 0 then w1
    else
      match w_status w1 with
      | None => w1
      | Some status =>
          if negb (bodyAllowedForStatus status) then w1
          else
            let written := w_written w1 + lenData in
            if negb (w_contentLength w1 =? -1) && (w_contentLength w1 <? written)
            then {| w_header := w_header w1; w_status := w_status w1;
                    w_contentLength := w_contentLength w1; w_written := written;
                    w_body := w_body w1; w_panic := w_panic w1 |}
            else {| w_header := w_header w1; w_status := w_status w1;
                    w_contentLength := w_contentLength w1; w_written := written;
                    w_body := w_body w1 ++ data; w_panic := w_panic w1 |}
      end.

(** [http.Error(w, msg, code)]. *)
Definition Error (msg : string) (code : Z) (w : ResponseWriter) : ResponseWriter :=
  let w1 := SetHeader "Content-Type" "text/plain; charset=utf-8" w in
  let w2 := SetHeader "X-Content-Type-Options" "nosniff" w1 in
  let w3 := WriteHeader code w2 in
  Write (bytes_of_string (msg +:+ String "010" EmptyString)) w3.

(** The upstream response once its body has been read.  The client hands
    on the status code it parsed from three digits; it never hands on an
    informational one other than 101. *)
Record Response := {
  StatusCode : Z;
  RespHeader : Header;
  Body : list byte
}.

(** What forwarding a request can come to: [http.NewRequest] fails,
    [client.Do] fails, reading the body fails, or the response is there. *)
Inductive Fetch :=
| NewRequestFailed (err : error)
| DoFailed (err : error)
| ReadFailed (err : error)
| Fetched (resp : Response).

End http.

(** The remote side: what a request with this method, target and headers is
    answered with. *)
Definition Upstream := string -> string -> http.Header -> http.Fetch.

(* ===================================================================== *)
(** * main.go *)
(* ===================================================================== *)

(** [type ProxyCache struct].  The lock [mu] has no counterpart: each
    operation is modelled as running from start to end on its own, which is
    what holding the lock gives it. *)
Record ProxyCache := { cacheDir : string; ttl : time.Duration }.

(** [getCacheKey]: the hex digest of the method followed by the target.  The
    [headers] argument is received and not used. *)
Definition getCacheKey (pc : ProxyCache) (method url : string)
    (headers : http.Header) : string :=
  let h := sha256.New in
  let h := sha256.WriteString h method in
  let h := sha256.WriteString h url in
  hex.EncodeToString (sha256.Sum h []).

(** [getCachePath]. *)
Definition getCachePath (pc : ProxyCache) (key : string) : path :=
  Join (cacheDir pc) (key +:+ ".gz").

(** The result of [get]: [([]byte, bool, error)]. *)
Record GetResult := { g_data : list byte; g_found : bool; g_err : option error }.

(** The lines written with [log.Printf]. *)
Definition Log := list string.

(** [cacheTTL] in [main]: [time.Duration(ttlSeconds) * time.Second], an
    [int64] product. *)
Definition cacheTTL (ttlSeconds : Z) : time.Duration :=
  wrap64 (wrap64 ttlSeconds * time.Second).

(** [ttlSeconds] in [main]: the value of [CACHE_TTL_SECONDS] when it parses
    to a positive number ([parsed] is what [strconv.Atoi] made of it, if
    anything), else the default. *)
Definition ttlSeconds (parsed : option Z) : Z :=
  match parsed with
  | Some val => if 0 <? val then val else 3600
  | None => 3600
  end.

Section Cache.

Context {C : Codec}.

(** [gzip.NewReader(file)]: reads the header from the open file. *)
Definition gzip_NewReader_file (p : path) (f : node) : error + stream :=
  match os.ReadAll p f with
  | inl err => inl err
  | inr content =>
      match gzip_NewReader content with
      | inl msg => inl (errorString msg)
      | inr reader => inr reader
      end
  end.

(** [readCacheFile]. *)
Definition readCacheFile (fs : FS) (p : path) : error + CacheItem :=
  match os.Open fs p with
  | inl err => inl err
  | inr f =>
      match gzip_NewReader_file p f with
      | inl err => inl err
      | inr reader =>
          match json_Decode reader with
          | inl msg => inl (errorString msg)
          | inr cacheItem => inr cacheItem
          end
      end
  end.

(** What [readCacheFile] makes of a readable regular file. *)
Definition decode_content (content : list byte) : error + CacheItem :=
  match gzip_NewReader content with
  | inl msg => inl (errorString msg)
  | inr reader =>
      match json_Decode reader with
      | inl msg => inl (errorString msg)
      | inr cacheItem => inr cacheItem
      end
  end.

(** [get]; [now] is the clock reading [time.Since] takes.  The error of
    [os.Remove] is dropped, as in the source. *)
Definition get (pc : ProxyCache) (now : time.Time) (fs : FS) (key : string)
    : GetResult * FS :=
  let p := getCachePath pc key in
  match readCacheFile fs p with
  | inl err =>
      if os.IsNotExist err
      then ({| g_data := []; g_found := false; g_err := None |}, fs)
      else ({| g_data := []; g_found := false; g_err := Some err |}, fs)
  | inr cacheItem =>
      if ttl pc <? time.Sub now (Timestamp cacheItem)
      then ({| g_data := []; g_found := false; g_err := None |},
            snd (os.Remove fs p))
      else ({| g_data := Data cacheItem; g_found := true; g_err := None |}, fs)
  end.

(** [set]; [now] is the reading of [time.Now()].  When the encoder fails
    nothing has reached the gzip writer, and the deferred [writer.Close()]
    leaves the compressed empty stream in the file.  The writes to a file
    that [os.Create] has opened are taken to go through; the source does not
    look at the result of the two deferred [Close] calls either. *)
Definition set (pc : ProxyCache) (now : time.Time) (fs : FS) (key : string)
    (data : list byte) : option error * FS :=
  let p := getCachePath pc key in
  match os.Create fs p with
  | inl err => (Some err, fs)
  | inr fs1 =>
      let cacheItem := {| Data := data; Timestamp := now |} in
      match json_Encode cacheItem with
      | inl msg => (Some (errorString msg), os.WriteFile fs1 p (gzip_Write []))
      | inr js => (None, os.WriteFile fs1 p (gzip_Write js))
      end
  end.

(** The body of the loop of [cleanExpiredCache] for one directory entry. *)
Definition sweep_entry (pc : ProxyCache) (now : time.Time) (st : FS * Log)
    (f : os.DirEntry) : FS * Log :=
  let '(fs, lg) := st in
  if os.IsDir f then st
  else
    let p := Join (cacheDir pc) (os.Name f) in
    match readCacheFile fs p with
    | inl err =>
        (fs, lg ++ ["Error reading cache file " +:+ path_string p +:+ ": "
                     +:+ Error err])
    | inr cacheItem =>
        if ttl pc <? time.Sub now (Timestamp cacheItem)
        then
          match os.Remove fs p with
          | (Some err, fs') =>
              (fs', lg ++ ["Error removing expired cache file "
                            +:+ path_string p +:+ ": " +:+ Error err])
          | (None, fs') =>
              (fs', lg ++ ["Removed expired cache file: " +:+ os.Name f])
          end
        else st
    end.

(** [cleanExpiredCache]; [now] is the reading of [time.Now()] taken before
    the loop. *)
Definition cleanExpiredCache (pc : ProxyCache) (now : time.Time) (fs : FS)
    : option error * FS * Log :=
  match os.ReadDir fs (cacheDir pc) with
  | inl err =>
      (Some (errorString ("failed to read cache directory: " +:+ Error err)),
       fs, [])
  | inr files =>
      let '(fs', lg) := foldl (sweep_entry pc now) (fs, []) files in
      (None, fs', lg)
  end.

(** [for key, values := range src { for _, value := range values {
    dst.Add(key, value) } }]. *)
Definition copyHeader (src dst : http.Header) : http.Header :=
  map_fold (fun key values h => foldl (fun h value => http.Add key value h) h values)
    dst src.

(** The same loop with [w.Header()] as the destination. *)
Definition copyResponseHeader (src : http.Header) (w : http.ResponseWriter)
    : http.ResponseWriter :=
  {| http.w_header := copyHeader src (http.w_header w);
     http.w_status := http.w_status w;
     http.w_contentLength := http.w_contentLength w;
     http.w_written := http.w_written w;
     http.w_body := http.w_body w;
     http.w_panic := http.w_panic w |}.

(** What one call of [proxyHandler] leaves behind: the response, the cache
    directory, the lines logged, and the requests sent upstream. *)
Record Handled := {
  h_w : http.ResponseWriter;
  h_fs : FS;
  h_log : Log;
  h_sent : list (string * string * http.Header)
}.

(** [proxyHandler].  [t_get] and [t_set] are the clock readings taken by
    [get] and by [set]. *)
Definition proxyHandler (pc : ProxyCache) (upstream : Upstream)
    (t_get t_set : time.Time) (fs : FS) (r : http.Request) : Handled :=
  let w := http.NewResponseWriter in
  let targetURL := http.Query_url r in
  if String.eqb targetURL EmptyString
  then {| h_w := http.Error "missing url parameter" http.StatusBadRequest w;
          h_fs := fs; h_log := []; h_sent := [] |}
  else
    let cacheKey := getCacheKey pc (http.Method r) targetURL (http.ReqHeader r) in
    let '(res, fs1) := get pc t_get fs cacheKey in
    match g_err res with
    | Some err =>
        {| h_w := http.Error ("cache error: " +:+ Error err)
                    http.StatusInternalServerError w;
           h_fs := fs1; h_log := []; h_sent := [] |}
    | None =>
        if g_found res
        then
          let w := http.SetHeader "X-Cache" "HIT" w in
          let w := http.SetHeader "Content-Type" "application/json" w in
          {| h_w := http.Write (g_data res) w;
             h_fs := fs1; h_log := []; h_sent := [] |}
        else
          let reqHeader := copyHeader (http.ReqHeader r) ∅ in
          let sent := [(http.Method r, targetURL, reqHeader)] in
          match upstream (http.Method r) targetURL reqHeader with
          | http.NewRequestFailed err =>
              {| h_w := http.Error ("error creating request: " +:+ Error err)
                          http.StatusInternalServerError w;
                 h_fs := fs1; h_log := []; h_sent := [] |}
          | http.DoFailed err =>
              {| h_w := http.Error ("proxy request failed: " +:+ Error err)
                          http.StatusBadGateway w;
                 h_fs := fs1; h_log := []; h_sent := sent |}
          | http.ReadFailed err =>
              {| h_w := http.Error ("error reading response: " +:+ Error err)
                          http.StatusInternalServerError w;
                 h_fs := fs1; h_log := []; h_sent := sent |}
          | http.Fetched resp =>
              let body := http.Body resp in
              let '(serr, fs2) := set pc t_set fs1 cacheKey body in
              let lg := match serr with
                        | Some err => ["error caching response: " +:+ Error err]
                        | None => []
                        end in
              let w := copyResponseHeader (http.RespHeader resp) w in
              let w := http.SetHeader "X-Cache" "MISS" w in
              let w := http.WriteHeader (http.StatusCode resp) w in
              {| h_w := http.Write body w;
                 h_fs := fs2; h_log := lg; h_sent := sent |}
          end
    end.

End Cache.

(* ===================================================================== *)
(** * A codec to run the program on concrete files *)
(* ===================================================================== *)

(** Little-endian bytes of a number, and back. *)
Fixpoint to_le (n : nat) (x : Z) : list byte :=
  match n with
  | O => []
  | S n' => byte_of_Z x :: to_le n' (x / 256)
  end.

Fixpoint of_le (l : list byte) : Z :=
  match l with
  | [] => 0
  | b :: l' => byte_to_Z b + 256 * of_le l'
  end.

(** An instance of the interface above that is small enough to compute with.
    The ten-byte member header is the one of RFC 1952 and is checked the way
    [gzip.NewReader] checks it (a short read is [io.EOF] or
    [io.ErrUnexpectedEOF], a wrong magic number or method is
    [gzip.ErrHeader]).  The compressed JSON text is stood for by a
    fixed-width record: twelve bytes of timestamp, then the payload.  Like
    [Time.MarshalJSON], encoding refuses an instant whose year is outside
    0 .. 9999. *)
Module RefCodec.

Definition header : list byte :=
  [x1f; x8b; x08; x00; x00; x00; x00; x00; x00; xff].

Definition Write (js : list byte) : list byte := header ++ js.

Definition NewReader (content : list byte) : string + stream :=
  match content with
  | [] => inl "EOF"
  | id1 :: id2 :: cm :: _ :: _ :: _ :: _ :: _ :: _ :: _ :: rest =>
      if Byte.eqb id1 x1f && Byte.eqb id2 x8b && Byte.eqb cm x08
      then inr {| s_bytes := rest; s_err := None |}
      else inl "gzip: invalid header"
  | _ => inl "unexpected EOF"
  end.

(** 0000-01-01T00:00:00Z and 10000-01-01T00:00:00Z, in nanoseconds since
    the Unix epoch. *)
Definition year0 : Z := - 62167219200 * 1000000000.
Definition year10000 : Z := 253402300800 * 1000000000.

Definition Encode (item : CacheItem) : string + list byte :=
  if (year0 <=? Timestamp item) && (Timestamp item <? year10000)
  then inr (to_le 12 (Timestamp item - year0) ++ Data item)
  else inl "json: error calling MarshalJSON for type time.Time: Time.MarshalJSON: year outside of range [0,9999]".

(** A stream that ends before a whole record was read gives the error of the
    stream, or [io.EOF] when there was nothing at all, or
    [io.ErrUnexpectedEOF]. *)
Definition Decode (r : stream) : string + CacheItem :=
  if (length (s_bytes r) <? 12)%nat
  then inl (match s_err r, s_bytes r with
            | Some e, _ => e
            | None, [] => "EOF"
            | None, _ :: _ => "unexpected EOF"
            end)
  else inr {| Data := skipn 12 (s_bytes r);
              Timestamp := of_le (firstn 12 (s_bytes r)) + year0 |}.

#[export] Instance codec : Codec := {|
  gzip_Write := Write;
  gzip_NewReader := NewReader;
  json_Encode := Encode;
  json_Decode := Decode
|}.

End RefCodec.


(* ===================================================================== *)
(** * Vocabulary of the statements *)
(* ===================================================================== *)

Section Vocabulary.

Context {C : Codec}.

(** A string without a separator in it. *)
Definition no_separator (name : string) : Prop :=
  forall c, In c (list_ascii_of_string name) -> c <> filepath.Separator.

(** A name that an entry of a directory can have: it is not empty, it is
    neither [.] nor [..], and there is no separator in it. *)
Definition file_name (name : string) : Prop :=
  name <> EmptyString /\ name <> "." /\ name <> ".." /\ no_separator name.

(** An element that [filepath.Clean] writes: neither empty nor [.], and
    without a separator. *)
Definition written (x : string) : Prop :=
  x <> EmptyString /\ x <> "." /\ no_separator x.

(** The directory part of the paths that [filepath.Join] builds under
    [dir]: nothing for the current directory, else the cleaned directory and
    a separator. *)
Definition dir_prefix (dir : string) : string :=
  let d := filepath.Clean dir in
  if String.eqb d "." then EmptyString
  else if String.eqb d "/" then "/"
  else d +:+ "/".

(** The length of the body that a header map declares: its [Content-Length]
    when that is a non-negative number. *)
Definition declared_length (h : http.Header) : option Z :=
  match strconv.ParseInt (http.Header_get h "Content-Length") with
  | Some v => if 0 <=? v then Some v else None
  | None => None
  end.

(** Whether a response with this status and these headers takes the body:
    the status allows a body, and the body is not longer than the length
    declared, if one is.  An empty body is always taken: there is nothing to
    write. *)
Definition takes_body (status : Z) (h : http.Header) (body : list byte) : bool :=
  match body with
  | [] => true
  | _ :: _ =>
      http.bodyAllowedForStatus status
      && match declared_length h with
         | Some v => Z.of_nat (length body) <=? v
         | None => true
         end
  end.

(** A [Content-Length] that is there and declares no length. *)
Definition bad_length (h : http.Header) : bool :=
  negb (String.eqb (http.Header_get h "Content-Length") EmptyString)
  && match declared_length h with Some _ => false | None => true end.

(** An entry is expired at [now] when it is a regular file that reads back as
    a cache item whose age exceeds the TTL. *)
Definition expired_entry (pc : ProxyCache) (now : time.Time) (n : node) : bool :=
  match n with
  | File f =>
      f_readable f &&
      match decode_content (f_data f) with
      | inr item => ttl pc <? time.Sub now (Timestamp item)
      | inl _ => false
      end
  | SubDir _ => false
  end.

(** Whether the operating system lets the entry be unlinked. *)
Definition can_unlink (fs : FS) (n : node) : bool :=
  match n with
  | File f => d_writable fs && f_removable f
  | SubDir e => d_writable fs && e
  end.

(** The line one entry contributes to the log of a sweep, if any. *)
Definition sweep_line (pc : ProxyCache) (now : time.Time) (fs : FS)
    (kv : string * node) : option string :=
  let p := Join (cacheDir pc) (fst kv) in
  match snd kv with
  | SubDir _ => None
  | File f =>
      match readCacheFile fs p with
      | inl err =>
          Some ("Error reading cache file " +:+ path_string p +:+ ": " +:+ Error err)
      | inr item =>
          if ttl pc <? time.Sub now (Timestamp item)
          then match fst (os.Remove fs p) with
               | None => Some ("Removed expired cache file: " +:+ fst kv)
               | Some err =>
                   Some ("Error removing expired cache file " +:+ path_string p
                         +:+ ": " +:+ Error err)
               end
          else None
      end
  end.

End Vocabulary.

(* ===================================================================== *)
(** * Sample worlds *)
(* ===================================================================== *)

(** Concrete caches, requests and directories on which the statements below
    are run, with the reference codec. *)
Module Sample.

#[local] Existing Instance RefCodec.codec.

Definition pc : ProxyCache := {| cacheDir := "./cache"; ttl := cacheTTL 60 |}.

(** 2025-11-03T07:00:00Z. *)
Definition t0 : time.Time := 1762153200 * time.Second.

Definition req : http.Request :=
  {| http.Method := "GET";
     http.Query_url := "http://example.test/data";
     http.ReqHeader := {[ "Accept" := ["application/json"] ]} |}.

Definition key : string :=
  getCacheKey pc (http.Method req) (http.Query_url req) (http.ReqHeader req).

Definition payload : list byte := bytes_of_string "[1,2,3]".

Definition resp : http.Response :=
  {| http.StatusCode := 203;
     http.RespHeader := {[ "Content-Type" := ["text/plain"];
                           "Set-Cookie" := ["a=1"; "b=2"] ]};
     http.Body := payload |}.

Definition upstream : Upstream := fun _ _ _ => http.Fetched resp.

(** A well-formed cache file holding [data], written at [ts]. *)
Definition cache_file (data : list byte) (ts : time.Time) (removable : bool) : file :=
  {| f_data := match json_Encode {| Data := data; Timestamp := ts |} with
               | inr js => gzip_Write js
               | inl _ => []
               end;
     f_readable := true; f_writable := true; f_removable := removable |}.

Definition plain_file (content : list byte) : file :=
  {| f_data := content; f_readable := true; f_writable := true;
     f_removable := true |}.

Definition dir (m : gmap string node) : FS :=
  {| entries := m; d_listable := true; d_writable := true |}.

(** An empty cache directory. *)
Definition fs_empty : FS := dir ∅.

(** The file of [key] was created and never written: it is empty. *)
Definition fs_corrupt : FS := dir {[ key +:+ ".gz" := File (plain_file []) ]}.

(** The file of [key] holds [payload], stored at [t0]. *)
Definition fs_stored : FS :=
  dir {[ key +:+ ".gz" := File (cache_file payload t0 true) ]}.

(** A directory that refuses new entries. *)
Definition fs_readonly : FS :=
  {| entries := ∅; d_listable := true; d_writable := false |}.

(** A directory with a fresh entry, two stale ones, a file that is not a
    cache file, and a subdirectory; everything can be unlinked. *)
Definition fs_mixed : FS :=
  dir {[ "fresh.gz" := File (cache_file payload t0 true);
         "old1.gz" := File (cache_file payload (t0 - 3600 * time.Second) true);
         "old2.gz" := File (cache_file [] (t0 - 61 * time.Second) true);
         "junk.gz" := File (plain_file (bytes_of_string "not gzip"));
         "sub" := SubDir false ]}.

(** The same with one stale file that cannot be unlinked. *)
Definition fs_pinned : FS :=
  dir {[ "fresh.gz" := File (cache_file payload t0 true);
         "old1.gz" := File (cache_file payload (t0 - 3600 * time.Second) false);
         "old2.gz" := File (cache_file [] (t0 - 61 * time.Second) true) ]}.

End Sample.
(* ===================================================================== *)
(** * The configuration read by [main] *)
(* ===================================================================== *)

(** The first lines of [main]: [ttlStr] is [os.Getenv("CACHE_TTL_SECONDS")];
    the result is [cacheTTL] and what was logged on the way. *)
Definition main_cacheTTL (ttlStr : string) : time.Duration * Log :=
  if String.eqb ttlStr EmptyString
  then (cacheTTL (ttlSeconds None), [])
  else
    let parsed := strconv.Atoi ttlStr in
    (cacheTTL (ttlSeconds parsed),
     match parsed with
     | Some val =>
         if 0 <? val then []
         else ["Invalid CACHE_TTL_SECONDS value: " +:+ ttlStr
               +:+ ", using default: 3600 seconds"]
     | None => ["Invalid CACHE_TTL_SECONDS value: " +:+ ttlStr
                +:+ ", using default: 3600 seconds"]
     end).

(* ===================================================================== *)
(** * The cleanup routine *)
(* ===================================================================== *)

Section Cleanup.

Context {C : Codec}.

(** The body of the loop of [startCleanupRoutine] for one tick, at which the
    sweep reads the clock as [now]. *)
Definition cleanup_tick (pc : ProxyCache) (st : FS * Log) (now : time.Time)
    : FS * Log :=
  let '(err, fs', lg') := cleanExpiredCache pc now (fst st) in
  (fs', snd st ++ lg'
        ++ match err with
           | Some e => ["Cache cleanup error: " +:+ Error e]
           | None => []
           end).

(** [startCleanupRoutine] up to a number of ticks of its ticker: [ticks] are
    the clock readings of the sweeps, in turn. *)
Definition startCleanupRoutine (pc : ProxyCache) (ticks : list time.Time)
    (fs : FS) : FS * Log :=
  foldl (cleanup_tick pc) (fs, []) ticks.

End Cleanup.

(* ===================================================================== *)
(** * The cache without expiry *)
(* ===================================================================== *)

(** The variant of the cache that stores the compressed body alone, with no
    timestamp and no TTL (the second [package main] among the sources). *)
Module v0.

(** [type ProxyCache struct] of the variant. *)
Record ProxyCache := { cacheDir : string }.

(** [getCachePath]. *)
Definition getCachePath (pc : ProxyCache) (key : string) : path :=
  Join (cacheDir pc) (key +:+ ".gz").

(** [io.ReadAll(reader)] on a gzip stream. *)
Definition ReadAll (r : stream) : error + list byte :=
  match s_err r with
  | Some msg => inl (errorString msg)
  | None => inr (s_bytes r)
  end.

Section Variant.

Context {C : Codec}.

(** [get] of the variant. *)
Definition get (pc : ProxyCache) (fs : FS) (key : string) : GetResult :=
  let p := getCachePath pc key in
  match os.Open fs p with
  | inl err =>
      if os.IsNotExist err
      then {| g_data := []; g_found := false; g_err := None |}
      else {| g_data := []; g_found := false; g_err := Some err |}
  | inr f =>
      match gzip_NewReader_file p f with
      | inl err => {| g_data := []; g_found := false; g_err := Some err |}
      | inr reader =>
          match ReadAll reader with
          | inl err => {| g_data := []; g_found := false; g_err := Some err |}
          | inr data => {| g_data := data; g_found := true; g_err := None |}
          end
      end
  end.

(** [set] of the variant. *)
Definition set (pc : ProxyCache) (fs : FS) (key : string) (data : list byte)
    : option error * FS :=
  let p := getCachePath pc key in
  match os.Create fs p with
  | inl err => (Some err, fs)
  | inr fs1 => (None, os.WriteFile fs1 p (gzip_Write data))
  end.

End Variant.

End v0.

(* ===================================================================== *)
(** * More sample worlds *)
(* ===================================================================== *)

Module Scenes.

#[local] Existing Instance RefCodec.codec.

(** A second target and its key. *)
Definition req2 : http.Request :=
  {| http.Method := "GET";
     http.Query_url := "http://example.test/other";
     http.ReqHeader := ∅ |}.

Definition key2 : string :=
  getCacheKey Sample.pc (http.Method req2) (http.Query_url req2) (http.ReqHeader req2).

(** A request without the [url] parameter. *)
Definition req_nourl : http.Request :=
  {| http.Method := "GET"; http.Query_url := EmptyString;
     http.ReqHeader := {[ "Accept" := ["*/*"] ]} |}.

(** An upstream that cannot be reached. *)
Definition upstream_down : Upstream :=
  fun _ _ _ => http.DoFailed (errorString "dial tcp 192.0.2.1:80: connect: connection refused").

(** An upstream that answers 404 with a body and a header of its own. *)
Definition resp404 : http.Response :=
  {| http.StatusCode := 404;
     http.RespHeader := {[ "Content-Type" := ["text/html"] ]};
     http.Body := bytes_of_string "<h1>not found</h1>" |}.

Definition upstream404 : Upstream := fun _ _ _ => http.Fetched resp404.

(** An upstream whose status line reads [HTTP/1.1 099], which the client
    parses to the status code 99. *)
Definition resp099 : http.Response :=
  {| http.StatusCode := 99;
     http.RespHeader := {[ "Content-Type" := ["text/plain"] ]};
     http.Body := Sample.payload |}.

Definition upstream099 : Upstream := fun _ _ _ => http.Fetched resp099.

(** An upstream that switches protocols and goes on to send bytes, which the
    client reads as the body. *)
Definition resp101 : http.Response :=
  {| http.StatusCode := 101;
     http.RespHeader := {[ "Upgrade" := ["websocket"]; "Connection" := ["Upgrade"] ]};
     http.Body := bytes_of_string "frames" |}.

Definition upstream101 : Upstream := fun _ _ _ => http.Fetched resp101.

(** A response that declares fewer bytes than its body has.  The client does
    not hand on such a response (it cuts the body at the declared length); it
    is here to show what [Write] does with one. *)
Definition resp_short : http.Response :=
  {| http.StatusCode := 200;
     http.RespHeader := {[ "Content-Length" := ["3"] ]};
     http.Body := Sample.payload |}.

(** The file of [Sample.key] holds [Sample.payload], stored an hour before
    [Sample.t0]. *)
Definition old_file : file :=
  Sample.cache_file Sample.payload (Sample.t0 - 3600 * time.Second) true.

Definition fs_stale : FS := Sample.dir {[ Sample.key +:+ ".gz" := File old_file ]}.

(** The directory of [Sample.fs_mixed], which the process may not list. *)
Definition fs_unlistable : FS :=
  {| entries := entries Sample.fs_mixed; d_listable := false; d_writable := true |}.

(** Three ticks of the cleanup routine, ten minutes apart, the first thirty
    seconds after [Sample.t0]. *)
Definition ticks : list time.Time :=
  [ Sample.t0 + 30 * time.Second;
    Sample.t0 + 630 * time.Second;
    Sample.t0 + 1230 * time.Second ].

(** The cache of the variant without expiry, on the same directory. *)
Definition pc0 : v0.ProxyCache := {| v0.cacheDir := cacheDir Sample.pc |}.

(** The directory after [Sample.payload] was stored under [Sample.key] at
    [Sample.t0]. *)
Definition fs_first : FS :=
  snd (set Sample.pc Sample.t0 Sample.fs_empty Sample.key Sample.payload).

(** A second payload and its encoding when stored ten seconds later. *)
Definition payload2 : list byte := bytes_of_string "[4,5,6,7]".

Definition js2 : list byte :=
  match json_Encode {| Data := payload2; Timestamp := Sample.t0 + 10 * time.Second |} with
  | inr js => js
  | inl _ => []
  end.

(** The encoding of the body of [Sample.resp] when stored at [Sample.t0]. *)
Definition js_resp : list byte :=
  match json_Encode {| Data := http.Body Sample.resp; Timestamp := Sample.t0 |} with
  | inr js => js
  | inl _ => []
  end.

(** The directory after the variant stored [Sample.payload] under
    [Sample.key]. *)
Definition fs_variant : FS :=
  snd (v0.set pc0 Sample.fs_empty Sample.key Sample.payload).

End Scenes.
(* ===================================================================== *)
(** * Test vectors *)
(* ===================================================================== *)

Example sha256_abc :
  hex.EncodeToString (sha256.sum (bytes_of_string "abc"))
  = "ba7816bf8f01cfea414140de5dae2223b00361a396177a9cb410ff61f20015ad".
Proof. vm_compute. reflexivity. Qed.

Example sha256_empty :
  hex.EncodeToString (sha256.sum [])
  = "e3b0c44298fc1c149afbf4c8996fb92427ae41e4649b934ca495991b7852b855".
Proof. vm_compute. reflexivity. Qed.

Example sha256_two_blocks :
  hex.EncodeToString (sha256.sum (repeat "a"%byte 120))
  = "2f3d335432c70b580af0e8e1b3674a7c020d683aa5f73aaaedfdc55af904c21c".
Proof. vm_compute. reflexivity. Qed.

Example sha256_pad_boundary :
  hex.EncodeToString (sha256.sum (repeat "a"%byte 56))
  = "b35439a4ac6f0948b6d6f9e3c6af0f5f590ce20f1bde7090ef7970686ec6738a".
Proof. vm_compute. reflexivity. Qed.

(* ===================================================================== *)
(** * Key derivation *)
(* ===================================================================== *)

Lemma byte_to_of_Z (x : Z) : byte_to_Z (byte_of_Z x) = x mod 256.
Proof.
  unfold byte_to_Z, byte_of_Z.
  assert (Hr : 0 <= x mod 256 < 256) by (apply Z.mod_pos_bound; lia).
  destruct (Byte.of_N (Z.to_N (x mod 256))) as [b|] eqn:E.
  - apply Byte.to_of_N in E. rewrite E. lia.
  - apply Byte.of_N_None_iff in E. lia.
Qed.

Lemma byte_of_to_Z (b : byte) : byte_of_Z (byte_to_Z b) = b.
Proof. destruct b; reflexivity. Qed.

Lemma byte_to_Z_range (b : byte) : 0 <= byte_to_Z b < 256.
Proof.
  unfold byte_to_Z. pose proof (Byte.to_N_bounded b). lia.
Qed.

Module hex_facts.

Lemma decode_encode_byte (v : byte) :
  hex.decode_byte (hex.digit (Z.shiftr (byte_to_Z v) 4))
              (hex.digit (Z.land (byte_to_Z v) 15)) = v.
Proof. destruct v; reflexivity. Qed.

Lemma EncodeToString_inj (a b : list byte) :
  hex.EncodeToString a = hex.EncodeToString b -> a = b.
Proof.
  revert b. induction a as [|x a IH]; intros [|y b] Heq; simpl in Heq;
    try discriminate; [reflexivity|].
  injection Heq as H1 H2 H3.
  f_equal.
  - rewrite <- (decode_encode_byte x), <- (decode_encode_byte y).
    now rewrite H1, H2.
  - now apply IH.
Qed.

Lemma EncodeToString_length (a : list byte) :
  String.length (hex.EncodeToString a) = (2 * length a)%nat.
Proof. induction a as [|x a IH]; simpl; [reflexivity | rewrite IH; lia]. Qed.

End hex_facts.

Lemma bytes_of_string_inj (s t : string) :
  bytes_of_string s = bytes_of_string t -> s = t.
Proof.
  unfold bytes_of_string. intros H.
  rewrite <- (string_of_list_byte_of_string s), <- (string_of_list_byte_of_string t).
  now rewrite H.
Qed.

(** The key in closed form: the hex digest of the method's bytes followed by
    the target's. *)
Lemma getCacheKey_eq (pc : ProxyCache) (method url : string) (hd : http.Header) :
  getCacheKey pc method url hd
  = hex.EncodeToString (sha256.sum (bytes_of_string method ++ bytes_of_string url)).
Proof. reflexivity. Qed.

Lemma block_length (hs chunk : list Z) : length (sha256.block hs chunk) = 8%nat.
Proof.
  unfold sha256.block.
  destruct (fold_left sha256.round _ _). reflexivity.
Qed.

Lemma blocks_length (n : nat) (hs p : list Z) :
  length hs = 8%nat -> length (sha256.blocks n hs p) = 8%nat.
Proof.
  revert hs p. induction n as [|n IH]; intros hs p Hlen; [exact Hlen|].
  cbn [sha256.blocks]. apply IH. apply block_length.
Qed.

Lemma be_bytes_length (n : nat) (x : Z) : length (sha256.be_bytes n x) = n.
Proof. induction n as [|n IH]; [reflexivity|]. cbn [sha256.be_bytes length]. now rewrite IH. Qed.

Lemma flat_map_be_bytes_length (hs : list Z) :
  length (flat_map (sha256.be_bytes 4) hs) = (4 * length hs)%nat.
Proof.
  induction hs as [|h hs IH]; [reflexivity|].
  cbn [flat_map]. rewrite length_app, be_bytes_length, IH. cbn [length]. lia.
Qed.

(** A digest has thirty-two bytes, a key sixty-four hex digits. *)
Lemma sum_length (msg : list byte) : length (sha256.sum msg) = 32%nat.
Proof.
  unfold sha256.sum. rewrite length_map, flat_map_be_bytes_length.
  rewrite blocks_length; reflexivity.
Qed.

Lemma getCacheKey_length (pc : ProxyCache) (method url : string) (hd : http.Header) :
  String.length (getCacheKey pc method url hd) = 64%nat.
Proof.
  rewrite getCacheKey_eq, hex_facts.EncodeToString_length, sum_length. reflexivity.
Qed.

(** C9: the key is a function of the method and the target alone: two calls
    with the same method and the same target return the same key, whatever
    cache they are made on and whatever else they are given; the function has
    no state to read or change. *)
Theorem C9_getCacheKey_deterministic
    (pc1 pc2 : ProxyCache) (m1 u1 m2 u2 : string) (hd1 hd2 : http.Header) :
  m1 = m2 -> u1 = u2 ->
  getCacheKey pc1 m1 u1 hd1 = getCacheKey pc2 m2 u2 hd2.
Proof. intros -> ->. rewrite !getCacheKey_eq. reflexivity. Qed.

Lemma C9_getCacheKey_deterministic_witness :
  getCacheKey {| cacheDir := "./cache"; ttl := 3600 * time.Second |}
              "GET" "http://example.test/data" ∅
  = getCacheKey {| cacheDir := "/tmp/c"; ttl := 60 * time.Second |}
              "GET" "http://example.test/data" {["Accept" := ["*/*"]]}.
Proof. apply C9_getCacheKey_deterministic; reflexivity. Defined.

(** The hex encoding loses nothing: two keys are equal exactly when the two
    digests are. *)
Lemma getCacheKey_eq_iff (pc : ProxyCache) (m1 u1 m2 u2 : string) (hd : http.Header) :
  getCacheKey pc m1 u1 hd = getCacheKey pc m2 u2 hd
  <-> sha256.sum (bytes_of_string m1 ++ bytes_of_string u1)
      = sha256.sum (bytes_of_string m2 ++ bytes_of_string u2).
Proof.
  rewrite !getCacheKey_eq. split.
  - apply hex_facts.EncodeToString_inj.
  - now intros ->.
Qed.

(** For one method, different targets are different inputs to the hash: only
    a collision of SHA-256 can give them one key. *)
Lemma same_method_inputs_differ (method u1 u2 : string) :
  u1 <> u2 ->
  bytes_of_string method ++ bytes_of_string u1
  <> bytes_of_string method ++ bytes_of_string u2.
Proof.
  intros Hne Heq. apply Hne. apply bytes_of_string_inj.
  now apply app_inv_head in Heq.
Qed.

(** C4, as stated, fails: the method and the target are written to the hash
    one after the other with nothing between them, so two different pairs
    with the same concatenation get the same key. *)
Lemma C4_distinct_pairs_same_key :
  ~ (forall (pc : ProxyCache) (m1 u1 m2 u2 : string) (hd : http.Header),
        m1 <> EmptyString -> u1 <> EmptyString -> m2 <> EmptyString -> u2 <> EmptyString ->
        (m1, u1) <> (m2, u2) ->
        getCacheKey pc m1 u1 hd <> getCacheKey pc m2 u2 hd).
Proof.
  intros H.
  apply (H {| cacheDir := "./cache"; ttl := 3600 * time.Second |}
           "GET" "Shttp://a" "GETS" "http://a" ∅); try discriminate.
  vm_compute. reflexivity.
Qed.

(** C4, amended: two pairs get different keys whenever SHA-256 tells the
    method-then-target byte strings apart. *)
Theorem C4_keys_differ_when_digests_differ
    (pc : ProxyCache) (m1 u1 m2 u2 : string) (hd : http.Header) :
  sha256.sum (bytes_of_string m1 ++ bytes_of_string u1)
    <> sha256.sum (bytes_of_string m2 ++ bytes_of_string u2) ->
  getCacheKey pc m1 u1 hd <> getCacheKey pc m2 u2 hd.
Proof. intros Hne Heq. apply Hne. now apply getCacheKey_eq_iff in Heq. Qed.

Lemma C4_keys_differ_witness :
  getCacheKey {| cacheDir := "./cache"; ttl := 3600 * time.Second |}
              "GET" "http://a" ∅
  <> getCacheKey {| cacheDir := "./cache"; ttl := 3600 * time.Second |}
              "GET" "http://b" ∅.
Proof.
  apply C4_keys_differ_when_digests_differ.
  vm_compute. discriminate.
Defined.

(* ===================================================================== *)
(** * The reference codec keeps the contract *)
(* ===================================================================== *)

Lemma to_le_length (n : nat) (x : Z) : length (to_le n x) = n.
Proof. revert x. induction n as [|n IH]; intros x; simpl; [reflexivity | now rewrite IH]. Qed.

Lemma of_to_le (n : nat) (x : Z) : of_le (to_le n x) = x mod 256 ^ Z.of_nat n.
Proof.
  revert x. induction n as [|n IH]; intros x.
  - simpl. now rewrite Z.mod_1_r.
  - cbn [to_le of_le]. rewrite IH, byte_to_of_Z.
    rewrite Nat2Z.inj_succ, Z.pow_succ_r by lia.
    rewrite Z.rem_mul_r by lia. reflexivity.
Qed.

Lemma RefCodec_read_write (b : list byte) :
  RefCodec.NewReader (RefCodec.Write b) = inr {| s_bytes := b; s_err := None |}.
Proof. reflexivity. Qed.

Lemma RefCodec_decode_encode (item : CacheItem) (js : list byte) :
  RefCodec.Encode item = inr js ->
  RefCodec.Decode {| s_bytes := js; s_err := None |} = inr item.
Proof.
  unfold RefCodec.Encode.
  remember (to_le 12 (Timestamp item - RefCodec.year0)) as l eqn:Hl.
  destruct ((RefCodec.year0 <=? Timestamp item) && (Timestamp item <? RefCodec.year10000))
    eqn:Hrange; [|discriminate].
  intros Heq. injection Heq as Hjs. rewrite <- Hjs. clear Hjs js.
  apply andb_true_iff in Hrange as [Hlo Hhi].
  apply Z.leb_le in Hlo. apply Z.ltb_lt in Hhi.
  assert (Hlen : length l = 12%nat) by (rewrite Hl; apply to_le_length).
  unfold RefCodec.Decode. cbn [s_bytes s_err].
  assert (Hlong : (length (l ++ Data item) <? 12)%nat = false).
  { apply Nat.ltb_ge. rewrite length_app. lia. }
  rewrite Hlong.
  rewrite <- Hlen, take_app_length, drop_app_length.
  rewrite Hl, of_to_le.
  rewrite Z.mod_small.
  - destruct item as [d t]. cbn [Data Timestamp]. do 2 f_equal. lia.
  - change (256 ^ Z.of_nat 12) with 79228162514264337593543950336.
    unfold RefCodec.year0, RefCodec.year10000 in *. lia.
Qed.

#[export] Instance RefCodec_laws : CodecLaws RefCodec.codec.
Proof.
  constructor.
  - exact RefCodec_read_write.
  - exact RefCodec_decode_encode.
Qed.

(* ===================================================================== *)
(** * Reading and writing cache files *)
(* ===================================================================== *)

Section CacheFacts.

Context {C : Codec}.

Lemma Create_inv (fs fs1 : FS) (p : path) :
  os.Create fs p = inr fs1 ->
  exists f0, entries fs1 !! p_name p = Some (File f0) /\ f_readable f0 = true
             /\ forall name, name <> p_name p -> entries fs1 !! name = entries fs !! name.
Proof.
  unfold os.Create.
  destruct (entries fs !! p_name p) as [[f|e]|] eqn:E.
  - destruct (f_readable f && f_writable f); [|discriminate].
    intros [= <-]. eexists. cbn. rewrite lookup_insert_eq.
    repeat split. intros name Hne. now rewrite lookup_insert_ne.
  - discriminate.
  - destruct (d_writable fs); [|discriminate].
    intros [= <-]. eexists. cbn. rewrite lookup_insert_eq.
    repeat split. intros name Hne. now rewrite lookup_insert_ne.
Qed.

Lemma WriteFile_lookup (fs : FS) (p : path) (f0 : file) (data : list byte) :
  entries fs !! p_name p = Some (File f0) ->
  entries (os.WriteFile fs p data) !! p_name p
  = Some (File {| f_data := data; f_readable := f_readable f0;
                  f_writable := f_writable f0; f_removable := f_removable f0 |}).
Proof.
  intros E. unfold os.WriteFile. rewrite E. cbn. now rewrite lookup_insert_eq.
Qed.

Lemma WriteFile_other (fs : FS) (p : path) (data : list byte) (name : string) :
  name <> p_name p ->
  entries (os.WriteFile fs p data) !! name = entries fs !! name.
Proof.
  intros Hne. unfold os.WriteFile.
  destruct (entries fs !! p_name p) as [[f|e]|]; try reflexivity.
  cbn. now rewrite lookup_insert_ne.
Qed.

Lemma readCacheFile_File (fs : FS) (p : path) (f : file) :
  entries fs !! p_name p = Some (File f) ->
  readCacheFile fs p
  = if f_readable f then decode_content (f_data f)
    else inl (PathError "open" (path_string p) EACCES).
Proof.
  intros E. unfold readCacheFile, os.Open, decode_content. rewrite E.
  destruct (f_readable f); [|reflexivity].
  unfold gzip_NewReader_file. cbn.
  destruct (gzip_NewReader (f_data f)); reflexivity.
Qed.

Lemma readCacheFile_absent (fs : FS) (p : path) :
  entries fs !! p_name p = None ->
  readCacheFile fs p = inl (PathError "open" (path_string p) ENOENT).
Proof. intros E. unfold readCacheFile, os.Open. now rewrite E. Qed.

Lemma readCacheFile_SubDir (fs : FS) (p : path) (e : bool) :
  entries fs !! p_name p = Some (SubDir e) ->
  readCacheFile fs p = inl (PathError "read" (path_string p) EISDIR).
Proof. intros E. unfold readCacheFile, os.Open. now rewrite E. Qed.

(** An error of [readCacheFile] that is "not exist" comes from a missing
    entry, and only from there. *)
Lemma readCacheFile_IsNotExist (fs : FS) (p : path) (err : error) :
  readCacheFile fs p = inl err ->
  (os.IsNotExist err = true <-> entries fs !! p_name p = None).
Proof.
  destruct (entries fs !! p_name p) as [[f|e]|] eqn:E.
  - rewrite (readCacheFile_File _ _ _ E). unfold decode_content.
    destruct (f_readable f).
    + destruct (gzip_NewReader (f_data f)) as [msg|r].
      * intros [= <-]. cbn. split; discriminate.
      * destruct (json_Decode r); [|discriminate].
        intros [= <-]. cbn. split; discriminate.
    + intros [= <-]. cbn. split; discriminate.
  - rewrite (readCacheFile_SubDir _ _ _ E). intros [= <-]. cbn. split; discriminate.
  - rewrite (readCacheFile_absent _ _ E). intros [= <-]. cbn. split; reflexivity.
Qed.

Lemma decode_content_Write {L : CodecLaws C} (item : CacheItem) (js : list byte) :
  json_Encode item = inr js ->
  decode_content (gzip_Write js) = inr item.
Proof.
  intros Henc. unfold decode_content.
  now rewrite gzip_read_write, (json_decode_encode item js Henc).
Qed.

(** After a successful [set], the file of the key holds the payload and the
    clock reading taken by [set]. *)
Lemma set_stores {L : CodecLaws C} (pc : ProxyCache) (t_set : time.Time)
    (fs fs' : FS) (k : string) (P : list byte) :
  set pc t_set fs k P = (None, fs') ->
  readCacheFile fs' (getCachePath pc k) = inr {| Data := P; Timestamp := t_set |}.
Proof.
  unfold set.
  destruct (os.Create fs (getCachePath pc k)) as [err|fs1] eqn:Hc; [discriminate|].
  destruct (json_Encode {| Data := P; Timestamp := t_set |}) as [msg|js] eqn:Henc;
    [discriminate|].
  intros [= <-].
  destruct (Create_inv _ _ _ Hc) as (f0 & Hf0 & Hread & _).
  rewrite (readCacheFile_File _ _ _ (WriteFile_lookup _ _ _ _ Hf0)).
  cbn. rewrite Hread. now apply decode_content_Write.
Qed.

(** C1: what [set] stores, an immediate [get] returns: when [set] succeeds
    and the entry is still within the TTL at the time of [get], [get] finds
    the key and returns exactly the payload, and the file decodes to that
    payload with the clock reading [set] took during the call; the cache
    directory is left as [set] left it. *)
Theorem C1_set_get_roundtrip {L : CodecLaws C} (pc : ProxyCache)
    (t_set t_get : time.Time) (fs fs' : FS) (k : string) (P : list byte) :
  set pc t_set fs k P = (None, fs') ->
  time.Sub t_get t_set <= ttl pc ->
  get pc t_get fs' k = ({| g_data := P; g_found := true; g_err := None |}, fs')
  /\ readCacheFile fs' (getCachePath pc k)
     = inr {| Data := P; Timestamp := t_set |}.
Proof.
  intros Hset Hfresh.
  pose proof (set_stores _ _ _ _ _ _ Hset) as Hread.
  split; [|exact Hread].
  unfold get. rewrite Hread. cbn [Timestamp Data].
  destruct (ttl pc <? time.Sub t_get t_set) eqn:E; [|reflexivity].
  apply Z.ltb_lt in E. lia.
Qed.

(** C7: a key with no file is simply absent: [get] returns no payload, not
    found, no error, and leaves the directory alone.  An error comes back
    only when the entry exists and the fault is not "does not exist". *)
Theorem C7_get_absent_is_not_an_error (pc : ProxyCache) (now : time.Time)
    (fs : FS) (key : string) :
  (entries fs !! (key +:+ ".gz") = None ->
   get pc now fs key = ({| g_data := []; g_found := false; g_err := None |}, fs))
  /\ (forall err, g_err (fst (get pc now fs key)) = Some err ->
        os.IsNotExist err = false /\ is_Some (entries fs !! (key +:+ ".gz"))).
Proof.
  split.
  - intros E. unfold get.
    rewrite (readCacheFile_absent fs (getCachePath pc key) E). reflexivity.
  - intros err. unfold get.
    destruct (readCacheFile fs (getCachePath pc key)) as [e|item] eqn:Hr.
    + pose proof (readCacheFile_IsNotExist _ _ _ Hr) as Hiff.
      destruct (os.IsNotExist e) eqn:He; cbn; [discriminate|].
      intros [= <-]. split; [assumption|].
      cbn in Hiff.
      destruct (entries fs !! (key +:+ ".gz")) eqn:E; [eauto|].
      destruct Hiff as [_ Hiff]. now specialize (Hiff eq_refl).
    + destruct (ttl pc <? time.Sub now (Timestamp item)); cbn; discriminate.
Qed.

End CacheFacts.

(* ===================================================================== *)
(** * The eviction sweep *)
(* ===================================================================== *)

(** [os.ReadDir] lists every entry once, in the order of the names. *)
Lemma insert_by_name_Permutation (kv : string * node) (l : list (string * node)) :
  os.insert_by_name kv l ≡ₚ kv :: l.
Proof.
  induction l as [|x l IH]; cbn [os.insert_by_name]; [reflexivity|].
  destruct (String.ltb (fst kv) (fst x)); [reflexivity|].
  rewrite IH. apply Permutation_swap.
Qed.

Lemma sort_by_name_Permutation (l : list (string * node)) :
  os.sort_by_name l ≡ₚ l.
Proof.
  induction l as [|x l IH]; [reflexivity|].
  unfold os.sort_by_name in *. cbn [foldr].
  rewrite insert_by_name_Permutation. now constructor.
Qed.

Lemma elem_of_listing (fs : FS) (name : string) (n : node) :
  (name, n) ∈ os.listing fs <-> entries fs !! name = Some n.
Proof.
  unfold os.listing. rewrite sort_by_name_Permutation. apply elem_of_map_to_list.
Qed.

Lemma NoDup_fst_listing (fs : FS) : NoDup (os.listing fs).*1.
Proof.
  unfold os.listing. rewrite sort_by_name_Permutation. apply NoDup_fst_map_to_list.
Qed.

Lemma ltb_leb (s1 s2 : string) : String.ltb s1 s2 = true -> String.leb s1 s2 = true.
Proof. unfold String.ltb, String.leb. now destruct (String.compare s1 s2). Qed.

Lemma not_ltb_leb (s1 s2 : string) : String.ltb s1 s2 = false -> String.leb s2 s1 = true.
Proof.
  unfold String.ltb, String.leb. rewrite (String.compare_antisym s2 s1).
  now destruct (String.compare s1 s2).
Qed.

Lemma insert_by_name_Sorted (kv : string * node) (l : list (string * node)) :
  Sorted (fun a b => String.leb (fst a) (fst b) = true) l ->
  Sorted (fun a b => String.leb (fst a) (fst b) = true) (os.insert_by_name kv l).
Proof.
  induction l as [|x l IH]; intros Hs; cbn [os.insert_by_name].
  - repeat constructor.
  - destruct (String.ltb (fst kv) (fst x)) eqn:E.
    + constructor; [exact Hs|]. constructor. now apply ltb_leb.
    + apply Sorted_inv in Hs as [Hs Hhd]. constructor; [now apply IH|].
      destruct l as [|y l]; cbn [os.insert_by_name].
      * constructor. now apply not_ltb_leb.
      * destruct (String.ltb (fst kv) (fst y)).
        -- constructor. now apply not_ltb_leb.
        -- constructor. now apply HdRel_inv in Hhd.
Qed.

Lemma listing_Sorted (fs : FS) :
  Sorted (fun a b => String.leb (fst a) (fst b) = true) (os.listing fs).
Proof.
  unfold os.listing, os.sort_by_name.
  induction (map_to_list (entries fs)) as [|x l IH]; cbn [foldr]; [constructor|].
  now apply insert_by_name_Sorted.
Qed.

Section SweepFacts.

Context {C : Codec}.

Lemma with_entries_id (fs : FS) : with_entries fs (entries fs) = fs.
Proof. now destruct fs. Qed.

Lemma expired_entry_read (pc : ProxyCache) (now : time.Time) (fs : FS)
    (name : string) (f : file) :
  entries fs !! name = Some (File f) ->
  expired_entry pc now (File f)
  = match readCacheFile fs (Join (cacheDir pc) name) with
    | inr item => ttl pc <? time.Sub now (Timestamp item)
    | inl _ => false
    end.
Proof.
  intros E. rewrite (readCacheFile_File fs (Join (cacheDir pc) name) f E).
  cbn. destruct (f_readable f); reflexivity.
Qed.

(** One turn of the loop on an entry that is in the directory. *)
Lemma sweep_entry_spec (pc : ProxyCache) (now : time.Time) (fs : FS) (lg : Log)
    (name : string) (n : node) :
  entries fs !! name = Some n ->
  sweep_entry pc now (fs, lg) (os.entry_of (name, n))
  = (with_entries fs
       (if expired_entry pc now n && can_unlink fs n
        then delete name (entries fs) else entries fs),
     lg ++ option_list (sweep_line pc now fs (name, n))).
Proof.
  intros E. destruct n as [f|e].
  - rewrite (expired_entry_read pc now fs name f E).
    unfold sweep_entry, sweep_line.
    cbn [os.entry_of os.IsDir os.Name fst snd].
    destruct (readCacheFile fs (Join (cacheDir pc) name)) as [err|item] eqn:Hr.
    + cbn. now rewrite with_entries_id.
    + destruct (ttl pc <? time.Sub now (Timestamp item)).
      * unfold os.Remove, can_unlink. cbn [p_name andb]. rewrite E.
        destruct (d_writable fs && f_removable f);
          [reflexivity | now rewrite with_entries_id].
      * cbn. now rewrite with_entries_id, app_nil_r.
  - unfold sweep_entry, sweep_line. cbn.
    now rewrite with_entries_id, app_nil_r.
Qed.

Lemma readCacheFile_ext (fs fs1 : FS) (p : path) :
  entries fs1 !! p_name p = entries fs !! p_name p ->
  readCacheFile fs1 p = readCacheFile fs p.
Proof. intros E. unfold readCacheFile, os.Open. now rewrite E. Qed.

Lemma can_unlink_ext (fs fs1 : FS) (n : node) :
  d_writable fs1 = d_writable fs -> can_unlink fs1 n = can_unlink fs n.
Proof. intros E. unfold can_unlink. now rewrite E. Qed.

Lemma Remove_err_ext (fs fs1 : FS) (p : path) :
  entries fs1 !! p_name p = entries fs !! p_name p ->
  d_writable fs1 = d_writable fs ->
  fst (os.Remove fs1 p) = fst (os.Remove fs p).
Proof.
  intros E Hw. unfold os.Remove. rewrite E, Hw.
  destruct (entries fs !! p_name p) as [[f|e]|]; [| |reflexivity].
  - destruct (d_writable fs && f_removable f); reflexivity.
  - destruct (d_writable fs && e); reflexivity.
Qed.

Lemma sweep_line_ext (pc : ProxyCache) (now : time.Time) (fs fs1 : FS)
    (kv : string * node) :
  entries fs1 !! fst kv = entries fs !! fst kv ->
  d_writable fs1 = d_writable fs ->
  sweep_line pc now fs1 kv = sweep_line pc now fs kv.
Proof.
  intros E Hw. unfold sweep_line. destruct (snd kv) as [f|e]; [|reflexivity].
  rewrite (readCacheFile_ext fs fs1) by exact E.
  now rewrite (Remove_err_ext fs fs1) by assumption.
Qed.

Lemma omap_ext_elem {A B : Type} (f g : A -> option B) (l : list A) :
  (forall x, x ∈ l -> f x = g x) -> omap f l = omap g l.
Proof.
  induction l as [|x l IH]; intros H; [reflexivity|].
  cbn [omap list_omap]. rewrite (H x) by left.
  rewrite IH; [reflexivity|]. intros y Hy. apply H. now right.
Qed.

(** The whole loop, over a duplicate-free listing of entries that are in the
    directory: an entry of the listing is gone exactly when it is expired and
    can be unlinked, every other entry is as it was, and the log gets the
    line of each entry in turn. *)
Lemma sweep_loop_spec (pc : ProxyCache) (now : time.Time)
    (l : list (string * node)) :
  forall (fs : FS) (lg : Log),
    NoDup l.*1 ->
    (forall name n, (name, n) ∈ l -> entries fs !! name = Some n) ->
    exists fs',
      foldl (sweep_entry pc now) (fs, lg) (map os.entry_of l)
      = (fs', lg ++ omap (sweep_line pc now fs) l)
      /\ d_listable fs' = d_listable fs /\ d_writable fs' = d_writable fs
      /\ forall name,
           entries fs' !! name
           = if decide (name ∈ l.*1)
             then n ← entries fs !! name;
                  if expired_entry pc now n && can_unlink fs n then None else Some n
             else entries fs !! name.
Proof.
  induction l as [|[k n] l IH]; intros fs lg Hnd Hin.
  - exists fs. cbn. rewrite app_nil_r. repeat split.
  - rewrite fmap_cons in Hnd. cbn [fst] in Hnd.
    apply NoDup_cons in Hnd as [Hk Hnd].
    assert (Ek : entries fs !! k = Some n) by (apply Hin; left).
    cbn [map foldl]. rewrite (sweep_entry_spec pc now fs lg k n Ek).
    remember (with_entries fs
                (if expired_entry pc now n && can_unlink fs n
                 then delete k (entries fs) else entries fs)) as fs1 eqn:Hfs1.
    assert (Hw1 : d_writable fs1 = d_writable fs) by (now subst fs1).
    assert (Hl1 : d_listable fs1 = d_listable fs) by (now subst fs1).
    assert (Hother : forall name, name <> k -> entries fs1 !! name = entries fs !! name).
    { intros name Hne. subst fs1. cbn [entries with_entries].
      destruct (expired_entry pc now n && can_unlink fs n); [|reflexivity].
      now rewrite lookup_delete_ne. }
    assert (Hnotk : forall name n', (name, n') ∈ l -> name <> k).
    { intros name n' Hel ->. apply Hk. apply list_elem_of_fmap. now exists (k, n'). }
    assert (Hin1 : forall name n', (name, n') ∈ l -> entries fs1 !! name = Some n').
    { intros name n' Hel. rewrite Hother by (eapply Hnotk; eassumption).
      apply Hin. now right. }
    destruct (IH fs1 (lg ++ option_list (sweep_line pc now fs (k, n))) Hnd Hin1)
      as (fs' & Hfold & Hl & Hw & Hlook).
    exists fs'. split; [|split; [|split]].
    + refine (eq_trans Hfold _). rewrite <- app_assoc. do 2 f_equal.
      rewrite (omap_ext_elem (sweep_line pc now fs1) (sweep_line pc now fs) l).
      * cbn [omap list_omap]. destruct (sweep_line pc now fs (k, n)); reflexivity.
      * intros [name n'] Hel. apply sweep_line_ext; [|exact Hw1].
        cbn [fst]. apply Hother. eapply Hnotk; eassumption.
    + congruence.
    + congruence.
    + intros name. rewrite Hlook. rewrite fmap_cons. cbn [fst].
      destruct (decide (name = k)) as [->|Hne].
      * rewrite decide_False by exact Hk.
        rewrite decide_True by left.
        subst fs1. cbn [entries with_entries]. rewrite Ek. cbn.
        destruct (expired_entry pc now n && can_unlink fs n).
        -- now rewrite lookup_delete_eq.
        -- exact Ek.
      * rewrite (Hother name Hne).
        destruct (decide (name ∈ l.*1)) as [Hel|Hnel].
        -- rewrite decide_True by (now right).
           destruct (entries fs !! name) as [n'|]; [|reflexivity]. cbn.
           now rewrite (can_unlink_ext fs fs1) by exact Hw1.
        -- rewrite decide_False; [reflexivity|].
           intros Hel. apply elem_of_cons in Hel as [->|Hel]; contradiction.
Qed.

(** The sweep as a whole, when the directory can be listed. *)
Lemma cleanExpiredCache_spec (pc : ProxyCache) (now : time.Time) (fs : FS) :
  d_listable fs = true ->
  exists fs',
    cleanExpiredCache pc now fs
    = (None, fs', omap (sweep_line pc now fs) (os.listing fs))
    /\ d_listable fs' = d_listable fs /\ d_writable fs' = d_writable fs
    /\ forall name,
         entries fs' !! name
         = n ← entries fs !! name;
           if expired_entry pc now n && can_unlink fs n then None else Some n.
Proof.
  intros Hls. unfold cleanExpiredCache, os.ReadDir. rewrite Hls.
  destruct (sweep_loop_spec pc now (os.listing fs) fs [])
    as (fs' & Hfold & Hl & Hw & Hlook).
  { apply NoDup_fst_listing. }
  { intros name n Hel. now apply elem_of_listing. }
  exists fs'. split; [|split; [|split]]; try congruence.
  - replace (foldl (sweep_entry pc now) (fs, []) (map os.entry_of (os.listing fs)))
      with (fs', omap (sweep_line pc now fs) (os.listing fs))
      by (symmetry; exact Hfold).
    reflexivity.
  - intros name. rewrite Hlook.
    destruct (decide (name ∈ (os.listing fs).*1)) as [Hel|Hnel];
      [reflexivity|].
    destruct (entries fs !! name) as [n|] eqn:E; [|reflexivity].
    exfalso. apply Hnel. apply list_elem_of_fmap. exists (name, n).
    split; [reflexivity|]. now apply elem_of_listing.
Qed.

(** C5: one sweep, on a directory it can list, returns no error and visits
    every entry whatever happened with the others: an entry is gone exactly
    when it is stale and could be unlinked, and every other entry is what it
    was, byte for byte; each file that cannot be read and each stale file
    that cannot be unlinked leaves its line in the log.  When no unlink
    fails, the entries left are exactly the ones that are not stale: of [N]
    entries with [M] stale, [N - M] remain. *)
Theorem C5_sweep_removes_exactly_the_stale (pc : ProxyCache) (now : time.Time)
    (fs : FS) :
  d_listable fs = true ->
  exists fs' lg,
    cleanExpiredCache pc now fs = (None, fs', lg)
    /\ (forall name,
          entries fs' !! name
          = n ← entries fs !! name;
            if expired_entry pc now n && can_unlink fs n then None else Some n)
    /\ (forall name f err,
          entries fs !! name = Some (File f) ->
          readCacheFile fs (Join (cacheDir pc) name) = inl err ->
          ("Error reading cache file " +:+ path_string (Join (cacheDir pc) name)
             +:+ ": " +:+ Error err) ∈ lg)
    /\ (forall name n err,
          entries fs !! name = Some n ->
          expired_entry pc now n = true ->
          fst (os.Remove fs (Join (cacheDir pc) name)) = Some err ->
          ("Error removing expired cache file "
             +:+ path_string (Join (cacheDir pc) name) +:+ ": " +:+ Error err)
          ∈ lg)
    /\ (map_Forall (fun _ n => expired_entry pc now n = true -> can_unlink fs n = true)
          (entries fs) ->
        entries fs' = filter (fun kv => expired_entry pc now (snd kv) <> true) (entries fs)
        /\ size (entries fs')
           = (size (entries fs)
              - size (filter (fun kv => expired_entry pc now (snd kv) = true) (entries fs)))%nat).
Proof.
  intros Hls.
  destruct (cleanExpiredCache_spec pc now fs Hls) as (fs' & Hrun & _ & _ & Hlook).
  exists fs', (omap (sweep_line pc now fs) (os.listing fs)).
  split; [exact Hrun|]. split; [exact Hlook|]. split; [|split].
  - intros name f err E Hr. apply list_elem_of_omap. exists (name, File f).
    split; [now apply elem_of_listing|].
    unfold sweep_line. cbn [fst snd]. now rewrite Hr.
  - intros name n err E Hexp Hrm. apply list_elem_of_omap. exists (name, n).
    split; [now apply elem_of_listing|].
    destruct n as [f|e]; [|discriminate].
    pose proof (expired_entry_read pc now fs name f E) as Hx. rewrite Hexp in Hx.
    unfold sweep_line. cbn [fst snd].
    destruct (readCacheFile fs (Join (cacheDir pc) name)) as [err'|item];
      [discriminate|].
    now rewrite <- Hx, Hrm.
  - intros Hall.
    assert (Hfilter : entries fs'
              = filter (fun kv => expired_entry pc now (snd kv) <> true) (entries fs)).
    { apply map_eq. intros name. rewrite Hlook, map_lookup_filter.
      destruct (entries fs !! name) as [n|] eqn:E; [|reflexivity]. cbn.
      destruct (expired_entry pc now n) eqn:Hexp.
      - rewrite (Hall name n E Hexp). cbn.
        rewrite option_guard_False by (intros H; now apply H). reflexivity.
      - cbn. rewrite option_guard_True by discriminate. reflexivity. }
    split; [exact Hfilter|].
    rewrite Hfilter.
    pose proof (map_filter_union_complement
                  (fun kv : string * node => expired_entry pc now (snd kv) = true)
                  (entries fs)) as Hun.
    pose proof (map_disjoint_filter_complement
                  (fun kv : string * node => expired_entry pc now (snd kv) = true)
                  (entries fs)) as Hdis.
    apply map_size_disj_union in Hdis. rewrite Hun in Hdis.
    rewrite Hdis. lia.
Qed.

End SweepFacts.

(* ===================================================================== *)
(** * Expiry *)
(* ===================================================================== *)

(** The comparison [t.Sub(u) > T] the program makes is the comparison of the
    true difference, for every [T] a [Duration] can hold below its maximum. *)
Lemma Sub_gt_iff (t u : time.Time) (T : time.Duration) :
  time.minDuration <= T < time.maxDuration ->
  ((T <? time.Sub t u) = true <-> t - u > T).
Proof.
  unfold time.Sub, time.minDuration, time.maxDuration. intros HT.
  rewrite Z.ltb_lt.
  destruct (t - u <? -9223372036854775808) eqn:E1.
  - apply Z.ltb_lt in E1. lia.
  - apply Z.ltb_ge in E1.
    destruct (9223372036854775807 <? t - u) eqn:E2.
    + apply Z.ltb_lt in E2. lia.
    + apply Z.ltb_ge in E2. lia.
Qed.

Lemma wrap64_range (x : Z) : time.minDuration <= wrap64 x <= time.maxDuration.
Proof.
  unfold wrap64, time.minDuration, time.maxDuration.
  pose proof (Z.mod_pos_bound (x + 9223372036854775808) 18446744073709551616).
  lia.
Qed.

(** A TTL configured in [main] is a whole number of seconds, and the largest
    [Duration] is not one: it is odd. *)
Lemma cacheTTL_range (secs : Z) :
  time.minDuration <= cacheTTL secs < time.maxDuration.
Proof.
  pose proof (wrap64_range (wrap64 secs * time.Second)) as Hr.
  unfold cacheTTL. split; [lia|].
  destruct Hr as [_ Hr].
  assert (Hne : wrap64 (wrap64 secs * time.Second) <> time.maxDuration); [|lia].
  unfold wrap64 at 1, time.maxDuration, time.Second.
  set (a := wrap64 secs).
  replace (a * 1000000000 + 9223372036854775808)
    with (2 * (a * 500000000 + 4611686018427387904)) by lia.
  change 18446744073709551616 with (2 * 9223372036854775808).
  rewrite Z.mul_mod_distr_l by lia.
  lia.
Qed.

(** Without [CACHE_TTL_SECONDS], or with a value that is not a positive
    number, the TTL is one hour. *)
Example default_ttl :
  cacheTTL (ttlSeconds None) = 3600 * time.Second
  /\ cacheTTL (ttlSeconds (Some 0)) = 3600 * time.Second
  /\ cacheTTL (ttlSeconds (Some 60)) = 60 * time.Second.
Proof. repeat split. Qed.

Section ExpiryFacts.

Context {C : Codec}.

(** [get] on a stored item: found exactly when not expired. *)
Lemma get_stored (pc : ProxyCache) (now : time.Time) (fs : FS) (key : string)
    (item : CacheItem) :
  readCacheFile fs (getCachePath pc key) = inr item ->
  get pc now fs key
  = if ttl pc <? time.Sub now (Timestamp item)
    then ({| g_data := []; g_found := false; g_err := None |},
          snd (os.Remove fs (getCachePath pc key)))
    else ({| g_data := Data item; g_found := true; g_err := None |}, fs).
Proof. intros Hr. unfold get. now rewrite Hr. Qed.

(** C3: with a TTL [T] configured in [main] and an entry stored at [t0], both
    the read path and the sweep call the entry stale exactly when
    [now - t0 > T]: [get] misses and the sweep unlinks it then, and only
    then.  At [now = t0 + T] the entry is still served and kept; at any later
    [now] it is not. *)
Theorem C3_expiry_boundary (dir : string) (secs : Z) (now : time.Time)
    (fs : FS) (key : string) (f : file) (item : CacheItem) :
  let pc := {| cacheDir := dir; ttl := cacheTTL secs |} in
  let t0 := Timestamp item in
  let T := cacheTTL secs in
  entries fs !! (key +:+ ".gz") = Some (File f) ->
  f_readable f = true ->
  decode_content (f_data f) = inr item ->
  d_listable fs = true ->
  can_unlink fs (File f) = true ->
  (g_found (fst (get pc now fs key)) = false <-> now - t0 > T)
  /\ (entries (snd (fst (cleanExpiredCache pc now fs))) !! (key +:+ ".gz") = None
      <-> now - t0 > T)
  /\ (now = t0 + T ->
      fst (get pc now fs key)
      = {| g_data := Data item; g_found := true; g_err := None |}
      /\ entries (snd (fst (cleanExpiredCache pc now fs))) !! (key +:+ ".gz")
         = Some (File f))
  /\ (now > t0 + T ->
      fst (get pc now fs key) = {| g_data := []; g_found := false; g_err := None |}
      /\ entries (snd (fst (cleanExpiredCache pc now fs))) !! (key +:+ ".gz") = None).
Proof.
  intros pc t0 T E Hrd Hdec Hls Hcan.
  assert (Hread : readCacheFile fs (getCachePath pc key) = inr item).
  { rewrite (readCacheFile_File fs (getCachePath pc key) f E). now rewrite Hrd. }
  pose proof (Sub_gt_iff now t0 T (cacheTTL_range secs)) as Hiff.
  assert (Hexp : expired_entry pc now (File f) = (T <? time.Sub now t0)).
  { cbn. now rewrite Hrd, Hdec. }
  destruct (cleanExpiredCache_spec pc now fs Hls) as (fs' & Hrun & _ & _ & Hlook).
  rewrite Hrun. cbn [fst snd].
  assert (Hlook' : entries fs' !! (key +:+ ".gz")
                   = if expired_entry pc now (File f) && can_unlink fs (File f)
                     then None else Some (File f)).
  { rewrite Hlook, E. reflexivity. }
  rewrite Hexp, Hcan, andb_true_r in Hlook'. clear Hlook.
  rewrite (get_stored pc now fs key item Hread).
  change (ttl pc) with T. fold t0.
  destruct (T <? time.Sub now t0) eqn:Hlt; cbn [fst g_found].
  - assert (Hgt : now - t0 > T) by now apply Hiff.
    repeat split; try assumption; try lia; auto.
  - assert (Hle : ~ now - t0 > T) by (intros H; apply Hiff in H; discriminate).
    repeat split; try assumption; try lia; try discriminate; try congruence.
Qed.

End ExpiryFacts.

(* ===================================================================== *)
(** * The request handler *)
(* ===================================================================== *)

Lemma foldl_Add_lookup (key : string) (values : list string) (h : http.Header)
    (k : string) :
  foldl (fun h value => http.Add key value h) h values !! k
  = if decide (k = key)
    then match values with
         | [] => h !! k
         | _ :: _ => Some (default [] (h !! key) ++ values)
         end
    else h !! k.
Proof.
  revert h. induction values as [|v vs IH]; intros h.
  - cbn. now destruct (decide (k = key)).
  - cbn [foldl]. rewrite IH. unfold http.Add.
    destruct (decide (k = key)) as [->|Hne].
    + rewrite lookup_insert_eq. cbn [default].
      destruct vs as [|v' vs]; [reflexivity|].
      unfold id. now rewrite <- app_assoc.
    + now rewrite lookup_insert_ne by congruence.
Qed.

(** The header values a copy loop carries over for a key: the values of the
    key, when there are any. *)
Lemma copyHeader_lookup (src : http.Header) (k : string) :
  copyHeader src ∅ !! k
  = match src !! k with
    | Some (v :: vs) => Some (v :: vs)
    | _ => None
    end.
Proof.
  unfold copyHeader. revert k.
  apply (map_fold_weak_ind (fun (r : http.Header) (m : http.Header) =>
    forall k, r !! k = match m !! k with Some (v :: vs) => Some (v :: vs) | _ => None end)).
  - intros k. now rewrite !lookup_empty.
  - intros i x m r Hi IH k. rewrite foldl_Add_lookup.
    destruct (decide (k = i)) as [->|Hne].
    + rewrite lookup_insert_eq. pose proof (IH i) as Hri. rewrite Hi in Hri.
      destruct x as [|v vs]; [exact Hri|]. now rewrite Hri.
    + rewrite lookup_insert_ne by congruence. apply IH.
Qed.

(** A status code that settles the response: 101, or 200 and up. *)
Lemma final_code_check (code : Z) :
  code = 101 \/ 200 <= code <= 999 ->
  http.checkWriteHeaderCode code = true /\ http.informational code = false.
Proof.
  unfold http.checkWriteHeaderCode, http.informational.
  intros [->|H]; [split; reflexivity|].
  split.
  - apply andb_true_iff. split; apply Z.leb_le; lia.
  - apply andb_false_iff. left. apply andb_false_iff. right. apply Z.leb_gt. lia.
Qed.

(** The status written to a response that has none yet: with it goes the
    declared length, and a [Content-Length] that declares none is dropped. *)
Lemma WriteHeader_fresh (code : Z) (w : http.ResponseWriter) :
  code = 101 \/ 200 <= code <= 999 ->
  http.w_status w = None -> http.w_panic w = false ->
  http.WriteHeader code w
  = {| http.w_header := if bad_length (http.w_header w)
                        then http.Del "Content-Length" (http.w_header w)
                        else http.w_header w;
       http.w_status := Some code;
       http.w_contentLength := match declared_length (http.w_header w) with
                               | Some v => v
                               | None => http.w_contentLength w
                               end;
       http.w_written := http.w_written w;
       http.w_body := http.w_body w;
       http.w_panic := false |}.
Proof.
  intros Hcode Hst Hp. destruct (final_code_check code Hcode) as [Hck Hinf].
  unfold http.WriteHeader, bad_length, declared_length.
  rewrite Hp, Hst, Hck, Hinf. cbn [negb].
  destruct (String.eqb (http.Header_get (http.w_header w) "Content-Length") EmptyString)
    eqn:E.
  - apply String.eqb_eq in E. rewrite E. reflexivity.
  - cbn [negb andb].
    destruct (strconv.ParseInt (http.Header_get (http.w_header w) "Content-Length"))
      as [v|]; [destruct (0 <=? v)|]; reflexivity.
Qed.

(** A code that is no status code makes [WriteHeader] panic. *)
Lemma WriteHeader_panics (code : Z) (w : http.ResponseWriter) :
  code < 100 \/ 999 < code ->
  http.w_status w = None -> http.w_panic w = false ->
  http.WriteHeader code w
  = {| http.w_header := http.w_header w; http.w_status := None;
       http.w_contentLength := http.w_contentLength w;
       http.w_written := http.w_written w;
       http.w_body := http.w_body w; http.w_panic := true |}.
Proof.
  intros Hcode Hst Hp. unfold http.WriteHeader. rewrite Hp, Hst.
  assert (Hck : http.checkWriteHeaderCode code = false).
  { unfold http.checkWriteHeaderCode. apply andb_false_iff.
    destruct Hcode; [left; apply Z.leb_gt|right; apply Z.leb_gt]; lia. }
  now rewrite Hck.
Qed.

(** Status line and body written to a response that has neither yet. *)
Lemma Write_WriteHeader_fresh (code : Z) (body : list byte) (w : http.ResponseWriter) :
  code = 101 \/ 200 <= code <= 999 ->
  http.w_status w = None -> http.w_panic w = false -> http.w_body w = [] ->
  http.w_written w = 0 -> http.w_contentLength w = -1 ->
  http.Write body (http.WriteHeader code w)
  = {| http.w_header := if bad_length (http.w_header w)
                        then http.Del "Content-Length" (http.w_header w)
                        else http.w_header w;
       http.w_status := Some code;
       http.w_contentLength := default (-1) (declared_length (http.w_header w));
       http.w_written := match body with
                         | [] => 0
                         | _ :: _ => if http.bodyAllowedForStatus code
                                     then Z.of_nat (length body) else 0
                         end;
       http.w_body := if takes_body code (http.w_header w) body then body else [];
       http.w_panic := false |}.
Proof.
  intros Hcode Hst Hp Hb Hwr Hcl.
  rewrite (WriteHeader_fresh code w Hcode Hst Hp). rewrite Hb, Hwr, Hcl.
  assert (Hdl : forall v, declared_length (http.w_header w) = Some v -> 0 <= v).
  { unfold declared_length. intros v.
    destruct (strconv.ParseInt _) as [v'|]; [|discriminate].
    destruct (0 <=? v') eqn:E; [|discriminate].
    intros [= <-]. now apply Z.leb_le. }
  unfold http.Write, takes_body.
  cbn [http.w_panic http.WriteHeader http.w_status http.w_contentLength
       http.w_written http.w_body http.w_header].
  destruct body as [|b body]; [reflexivity|].
  change (Z.of_nat (length (b :: body)) =? 0) with false. cbn iota.
  destruct (http.bodyAllowedForStatus code); cbn [negb andb]; [|reflexivity].
  destruct (declared_length (http.w_header w)) as [v|] eqn:E; cbn [default].
  - specialize (Hdl v eq_refl).
    assert (Hv : (v =? -1) = false) by (apply Z.eqb_neq; lia).
    rewrite Hv. cbn [negb andb]. rewrite Z.add_0_l.
    rewrite (Z.leb_antisym v (Z.of_nat (length (b :: body)))).
    now destruct (v <? Z.of_nat (length (b :: body))).
  - cbn. reflexivity.
Qed.

(** What a copy of the upstream headers says under a key, with the marker
    set. *)
Lemma Header_get_copied (src : http.Header) (key value k : string) :
  k <> key ->
  http.Header_get (http.Set_ key value (copyHeader src ∅)) k = http.Header_get src k.
Proof.
  intros Hne. unfold http.Header_get, http.Set_.
  rewrite lookup_insert_ne by congruence. rewrite copyHeader_lookup.
  now destruct (src !! k) as [[|v vs]|].
Qed.

Lemma declared_length_copied (src : http.Header) (value : string) :
  declared_length (http.Set_ "X-Cache" value (copyHeader src ∅)) = declared_length src.
Proof. unfold declared_length. now rewrite Header_get_copied. Qed.

Lemma takes_body_copied (code : Z) (src : http.Header) (value : string)
    (body : list byte) :
  takes_body code (http.Set_ "X-Cache" value (copyHeader src ∅)) body
  = takes_body code src body.
Proof. unfold takes_body. now rewrite declared_length_copied. Qed.

Lemma bad_length_copied (src : http.Header) (value : string) :
  bad_length (http.Set_ "X-Cache" value (copyHeader src ∅)) = bad_length src.
Proof.
  unfold bad_length. now rewrite declared_length_copied, Header_get_copied.
Qed.

Section HandlerFacts.

Context {C : Codec}.

Lemma eqb_empty_false (s : string) : s <> EmptyString -> String.eqb s EmptyString = false.
Proof. intros H. now apply String.eqb_neq. Qed.

(** The three ways out of the cache lookup. *)
Lemma proxyHandler_cache_error (pc : ProxyCache) (upstream : Upstream)
    (t_get t_set : time.Time) (fs : FS) (r : http.Request) (err : error) :
  http.Query_url r <> EmptyString ->
  g_err (fst (get pc t_get fs
     (getCacheKey pc (http.Method r) (http.Query_url r) (http.ReqHeader r)))) = Some err ->
  proxyHandler pc upstream t_get t_set fs r
  = {| h_w := http.Error ("cache error: " +:+ Error err)
                http.StatusInternalServerError http.NewResponseWriter;
       h_fs := snd (get pc t_get fs
         (getCacheKey pc (http.Method r) (http.Query_url r) (http.ReqHeader r)));
       h_log := []; h_sent := [] |}.
Proof.
  intros Hurl Herr. unfold proxyHandler. rewrite (eqb_empty_false _ Hurl).
  destruct (get pc t_get fs _) as [res fs1]. cbn [fst snd] in *.
  now rewrite Herr.
Qed.

Lemma proxyHandler_hit (pc : ProxyCache) (upstream : Upstream)
    (t_get t_set : time.Time) (fs : FS) (r : http.Request) :
  http.Query_url r <> EmptyString ->
  let key := getCacheKey pc (http.Method r) (http.Query_url r) (http.ReqHeader r) in
  g_err (fst (get pc t_get fs key)) = None ->
  g_found (fst (get pc t_get fs key)) = true ->
  proxyHandler pc upstream t_get t_set fs r
  = {| h_w := http.Write (g_data (fst (get pc t_get fs key)))
                (http.SetHeader "Content-Type" "application/json"
                   (http.SetHeader "X-Cache" "HIT" http.NewResponseWriter));
       h_fs := snd (get pc t_get fs key);
       h_log := []; h_sent := [] |}.
Proof.
  intros Hurl key Herr Hfound. unfold proxyHandler. rewrite (eqb_empty_false _ Hurl).
  fold key. destruct (get pc t_get fs key) as [res fs1]. cbn [fst snd] in *.
  now rewrite Herr, Hfound.
Qed.

Lemma proxyHandler_fetched (pc : ProxyCache) (upstream : Upstream)
    (t_get t_set : time.Time) (fs : FS) (r : http.Request) (resp : http.Response) :
  http.Query_url r <> EmptyString ->
  let key := getCacheKey pc (http.Method r) (http.Query_url r) (http.ReqHeader r) in
  let reqHeader := copyHeader (http.ReqHeader r) ∅ in
  g_err (fst (get pc t_get fs key)) = None ->
  g_found (fst (get pc t_get fs key)) = false ->
  upstream (http.Method r) (http.Query_url r) reqHeader = http.Fetched resp ->
  let stored := set pc t_set (snd (get pc t_get fs key)) key (http.Body resp) in
  proxyHandler pc upstream t_get t_set fs r
  = {| h_w := http.Write (http.Body resp)
                (http.WriteHeader (http.StatusCode resp)
                   (http.SetHeader "X-Cache" "MISS"
                      (copyResponseHeader (http.RespHeader resp)
                         http.NewResponseWriter)));
       h_fs := snd stored;
       h_log := match fst stored with
                | Some err => ["error caching response: " +:+ Error err]
                | None => []
                end;
       h_sent := [(http.Method r, http.Query_url r, reqHeader)] |}.
Proof.
  intros Hurl key reqHeader Herr Hfound Hup stored.
  unfold proxyHandler. rewrite (eqb_empty_false _ Hurl).
  fold key. subst stored. destruct (get pc t_get fs key) as [res fs1].
  cbn [fst snd] in *. rewrite Herr, Hfound. fold reqHeader. rewrite Hup.
  destruct (set pc t_set fs1 key (http.Body resp)) as [serr fs2].
  reflexivity.
Qed.

(** The handler forwards a request only after a lookup that neither failed
    nor found the key. *)
Lemma proxyHandler_sent (pc : ProxyCache) (upstream : Upstream)
    (t_get t_set : time.Time) (fs : FS) (r : http.Request) :
  h_sent (proxyHandler pc upstream t_get t_set fs r) <> [] ->
  http.Query_url r <> EmptyString
  /\ g_err (fst (get pc t_get fs
       (getCacheKey pc (http.Method r) (http.Query_url r) (http.ReqHeader r)))) = None
  /\ g_found (fst (get pc t_get fs
       (getCacheKey pc (http.Method r) (http.Query_url r) (http.ReqHeader r)))) = false.
Proof.
  unfold proxyHandler.
  destruct (String.eqb (http.Query_url r) EmptyString) eqn:Hurl; [cbn; congruence|].
  apply String.eqb_neq in Hurl.
  destruct (get pc t_get fs _) as [res fs1]. cbn [fst snd].
  destruct (g_err res); [cbn; congruence|].
  destruct (g_found res); [cbn; congruence|].
  intros _. repeat split. exact Hurl.
Qed.

(** The response written on a hit. *)
Lemma hit_response (data : list byte) :
  http.Write data
    (http.SetHeader "Content-Type" "application/json"
       (http.SetHeader "X-Cache" "HIT" http.NewResponseWriter))
  = {| http.w_header := <["Content-Type" := ["application/json"]]>
                          (<["X-Cache" := ["HIT"]]> ∅);
       http.w_status := Some 200;
       http.w_contentLength := -1;
       http.w_written := Z.of_nat (length data);
       http.w_body := data;
       http.w_panic := false |}.
Proof.
  unfold http.Write.
  assert (Hw : http.WriteHeader http.StatusOK
                 (http.SetHeader "Content-Type" "application/json"
                    (http.SetHeader "X-Cache" "HIT" http.NewResponseWriter))
               = {| http.w_header := <["Content-Type" := ["application/json"]]>
                                       (<["X-Cache" := ["HIT"]]> ∅);
                    http.w_status := Some 200;
                    http.w_contentLength := -1;
                    http.w_written := 0;
                    http.w_body := [];
                    http.w_panic := false |}) by reflexivity.
  rewrite Hw. cbn [http.w_panic http.SetHeader http.NewResponseWriter http.w_status
                   http.w_written http.w_body http.w_header http.w_contentLength].
  destruct data as [|b data]; [reflexivity|].
  change (Z.of_nat (length (b :: data)) =? 0) with false. cbn iota.
  reflexivity.
Qed.

(** The response written for a fetched upstream response whose status code
    settles the status. *)
Lemma passed_on_response (resp : http.Response) :
  http.StatusCode resp = 101 \/ 200 <= http.StatusCode resp <= 999 ->
  http.Write (http.Body resp)
    (http.WriteHeader (http.StatusCode resp)
       (http.SetHeader "X-Cache" "MISS"
          (copyResponseHeader (http.RespHeader resp) http.NewResponseWriter)))
  = {| http.w_header :=
         if bad_length (http.RespHeader resp)
         then http.Del "Content-Length"
                (http.Set_ "X-Cache" "MISS" (copyHeader (http.RespHeader resp) ∅))
         else http.Set_ "X-Cache" "MISS" (copyHeader (http.RespHeader resp) ∅);
       http.w_status := Some (http.StatusCode resp);
       http.w_contentLength := default (-1) (declared_length (http.RespHeader resp));
       http.w_written := match http.Body resp with
                         | [] => 0
                         | _ :: _ => if http.bodyAllowedForStatus (http.StatusCode resp)
                                     then Z.of_nat (length (http.Body resp)) else 0
                         end;
       http.w_body := if takes_body (http.StatusCode resp) (http.RespHeader resp)
                           (http.Body resp)
                      then http.Body resp else [];
       http.w_panic := false |}.
Proof.
  intros Hcode.
  rewrite (Write_WriteHeader_fresh _ _ _ Hcode) by reflexivity.
  cbn [http.w_header http.SetHeader copyResponseHeader http.NewResponseWriter].
  now rewrite bad_length_copied, declared_length_copied, takes_body_copied.
Qed.

(** Its header map, key by key: the marker, and the values the upstream gave
    for the key, except for a [Content-Length] that declares no length. *)
Lemma passed_on_header_lookup (src : http.Header) (k : string) :
  (if bad_length src
   then http.Del "Content-Length" (http.Set_ "X-Cache" "MISS" (copyHeader src ∅))
   else http.Set_ "X-Cache" "MISS" (copyHeader src ∅)) !! k
  = if String.eqb k "X-Cache" then Some ["MISS"]
    else if String.eqb k "Content-Length" && bad_length src then None
    else match src !! k with
         | Some (v :: vs) => Some (v :: vs)
         | _ => None
         end.
Proof.
  unfold http.Del, http.Set_.
  destruct (String.eqb k "X-Cache") eqn:Ex.
  - apply String.eqb_eq in Ex. subst k.
    destruct (bad_length src).
    + rewrite lookup_delete_ne by discriminate. now rewrite lookup_insert_eq.
    + now rewrite lookup_insert_eq.
  - apply String.eqb_neq in Ex.
    destruct (String.eqb k "Content-Length") eqn:Ec.
    + apply String.eqb_eq in Ec. subst k. cbn [andb].
      destruct (bad_length src).
      * now rewrite lookup_delete_eq.
      * rewrite lookup_insert_ne by congruence. apply copyHeader_lookup.
    + apply String.eqb_neq in Ec. cbn [andb].
      destruct (bad_length src).
      * rewrite lookup_delete_ne by congruence.
        rewrite lookup_insert_ne by congruence. apply copyHeader_lookup.
      * rewrite lookup_insert_ne by congruence. apply copyHeader_lookup.
Qed.

(** A file that is there and readable but does not decode. *)
Lemma get_corrupt (pc : ProxyCache) (now : time.Time) (fs : FS) (key : string)
    (f : file) (err : error) :
  entries fs !! (key +:+ ".gz") = Some (File f) ->
  f_readable f = true ->
  decode_content (f_data f) = inl err ->
  get pc now fs key = ({| g_data := []; g_found := false; g_err := Some err |}, fs).
Proof.
  intros E Hrd Hdec. unfold get.
  assert (Hr : readCacheFile fs (getCachePath pc key) = inl err).
  { rewrite (readCacheFile_File fs (getCachePath pc key) f E). now rewrite Hrd. }
  rewrite Hr.
  assert (Hne : os.IsNotExist err = false).
  { destruct (os.IsNotExist err) eqn:He; [|reflexivity].
    apply (readCacheFile_IsNotExist _ _ _ Hr) in He. cbn in He. congruence. }
  now rewrite Hne.
Qed.

(** C2, amended: when the file of the key is there but does not decompress
    or decode, the handler answers 500 with the text of the error; it sends
    nothing upstream, logs nothing and leaves the file where it is. *)
Theorem C2_corrupt_entry_fails_the_request (pc : ProxyCache) (upstream : Upstream)
    (t_get t_set : time.Time) (fs : FS) (r : http.Request) (f : file) (err : error) :
  http.Query_url r <> EmptyString ->
  let key := getCacheKey pc (http.Method r) (http.Query_url r) (http.ReqHeader r) in
  entries fs !! (key +:+ ".gz") = Some (File f) ->
  f_readable f = true ->
  decode_content (f_data f) = inl err ->
  let h := proxyHandler pc upstream t_get t_set fs r in
  h_w h = http.Error ("cache error: " +:+ Error err)
            http.StatusInternalServerError http.NewResponseWriter
  /\ http.w_status (h_w h) = Some 500
  /\ h_sent h = []
  /\ h_log h = []
  /\ h_fs h = fs.
Proof.
  intros Hurl key E Hrd Hdec h.
  pose proof (get_corrupt pc t_get fs key f err E Hrd Hdec) as Hget.
  assert (Hh : h = {| h_w := http.Error ("cache error: " +:+ Error err)
                              http.StatusInternalServerError http.NewResponseWriter;
                      h_fs := fs; h_log := []; h_sent := [] |}).
  { subst h. rewrite (proxyHandler_cache_error pc upstream t_get t_set fs r err Hurl).
    - fold key. now rewrite Hget.
    - fold key. now rewrite Hget. }
  rewrite Hh. repeat split.
Qed.

(** C6, amended: when the request reaches the store step and [set] fails,
    the failure is logged and the handler goes on to answer.  With an upstream
    status code that [WriteHeader] takes as the status of the response (101,
    or 200 and up), the response has the headers of the upstream (without a
    [Content-Length] that declares no length), the marker ["X-Cache: MISS"]
    and that status code, and it has the body that was fetched when it takes
    one: the status allows a body and the body is within the declared length.
    With a code that is no status code (below 100, which the client accepts,
    or above 999), [WriteHeader] panics after the line was logged: no status
    and no body is written. *)
Theorem C6_store_failure_is_logged_not_fatal (pc : ProxyCache) (upstream : Upstream)
    (t_get t_set : time.Time) (fs : FS) (r : http.Request) (resp : http.Response)
    (err : error) :
  http.Query_url r <> EmptyString ->
  let key := getCacheKey pc (http.Method r) (http.Query_url r) (http.ReqHeader r) in
  g_err (fst (get pc t_get fs key)) = None ->
  g_found (fst (get pc t_get fs key)) = false ->
  upstream (http.Method r) (http.Query_url r) (copyHeader (http.ReqHeader r) ∅)
    = http.Fetched resp ->
  fst (set pc t_set (snd (get pc t_get fs key)) key (http.Body resp)) = Some err ->
  let h := proxyHandler pc upstream t_get t_set fs r in
  h_log h = ["error caching response: " +:+ Error err]
  /\ (http.StatusCode resp = 101 \/ 200 <= http.StatusCode resp <= 999 ->
      http.w_panic (h_w h) = false
      /\ (forall k, k <> "X-Cache" ->
            http.w_header (h_w h) !! k
            = if String.eqb k "Content-Length" && bad_length (http.RespHeader resp)
              then None
              else match http.RespHeader resp !! k with
                   | Some (v :: vs) => Some (v :: vs)
                   | _ => None
                   end)
      /\ http.w_header (h_w h) !! "X-Cache" = Some ["MISS"]
      /\ http.w_status (h_w h) = Some (http.StatusCode resp)
      /\ http.w_body (h_w h)
         = if takes_body (http.StatusCode resp) (http.RespHeader resp) (http.Body resp)
           then http.Body resp else [])
  /\ (http.StatusCode resp < 100 \/ 999 < http.StatusCode resp ->
      http.w_panic (h_w h) = true
      /\ http.w_status (h_w h) = None
      /\ http.w_body (h_w h) = []).
Proof.
  intros Hurl key Herr Hfound Hup Hset h. subst h.
  rewrite (proxyHandler_fetched pc upstream t_get t_set fs r resp Hurl Herr Hfound Hup).
  fold key. rewrite Hset. cbn [h_log h_w].
  split; [reflexivity|]. split.
  - intros Hcode. rewrite (passed_on_response resp Hcode).
    cbn [http.w_panic http.w_header http.w_status http.w_body].
    split; [reflexivity|]. split; [|split; [|split]]; try reflexivity.
    + intros k Hk. rewrite passed_on_header_lookup.
      apply String.eqb_neq in Hk. now rewrite Hk.
    + now rewrite passed_on_header_lookup.
  - intros Hcode. rewrite (WriteHeader_panics _ _ Hcode) by reflexivity.
    repeat split.
Qed.

(** C8: a request served from a fresh cache entry is answered with
    ["X-Cache: HIT"], ["Content-Type: application/json"], status 200 and the
    stored payload as the body, and nothing is sent upstream; a request
    served by a fetch from the upstream is answered with ["X-Cache: MISS"],
    the status code of the upstream (101, or 200 and up) and its body, when
    the response takes one (the status allows a body and the body is within
    the declared length). *)
Theorem C8_cache_status_marker (pc : ProxyCache) (upstream : Upstream)
    (t_get t_set : time.Time) (fs : FS) (r : http.Request) :
  http.Query_url r <> EmptyString ->
  let key := getCacheKey pc (http.Method r) (http.Query_url r) (http.ReqHeader r) in
  let h := proxyHandler pc upstream t_get t_set fs r in
  (forall item,
      readCacheFile fs (getCachePath pc key) = inr item ->
      time.Sub t_get (Timestamp item) <= ttl pc ->
      http.w_header (h_w h) !! "X-Cache" = Some ["HIT"]
      /\ http.w_header (h_w h) !! "Content-Type" = Some ["application/json"]
      /\ http.w_status (h_w h) = Some http.StatusOK
      /\ http.w_body (h_w h) = Data item
      /\ h_sent h = [])
  /\ (forall resp,
        h_sent h <> [] ->
        upstream (http.Method r) (http.Query_url r) (copyHeader (http.ReqHeader r) ∅)
          = http.Fetched resp ->
        http.StatusCode resp = 101 \/ 200 <= http.StatusCode resp <= 999 ->
        http.w_header (h_w h) !! "X-Cache" = Some ["MISS"]
        /\ http.w_status (h_w h) = Some (http.StatusCode resp)
        /\ http.w_body (h_w h)
           = if takes_body (http.StatusCode resp) (http.RespHeader resp)
                  (http.Body resp)
             then http.Body resp else []).
Proof.
  intros Hurl key h. split.
  - intros item Hread Hfresh.
    assert (Hget : get pc t_get fs key
                   = ({| g_data := Data item; g_found := true; g_err := None |}, fs)).
    { rewrite (get_stored pc t_get fs key item Hread).
      destruct (ttl pc <? time.Sub t_get (Timestamp item)) eqn:E; [|reflexivity].
      apply Z.ltb_lt in E. lia. }
    subst h. rewrite (proxyHandler_hit pc upstream t_get t_set fs r Hurl);
      fold key; rewrite Hget; try reflexivity.
    cbn [fst snd g_data h_w h_sent]. rewrite hit_response. repeat split.
  - intros resp Hsent Hup Hcode.
    destruct (proxyHandler_sent pc upstream t_get t_set fs r Hsent) as (_ & Herr & Hfound).
    subst h.
    rewrite (proxyHandler_fetched pc upstream t_get t_set fs r resp Hurl Herr Hfound Hup).
    cbn [h_w]. rewrite (passed_on_response resp Hcode).
    cbn [http.w_header http.w_status http.w_body].
    split; [|split]; try reflexivity.
    now rewrite passed_on_header_lookup.
Qed.

(** C10: the headers of the request do not enter the key: the same method
    and target give the same key and the same cache file for any two header
    maps.  So two requests that differ only in their headers share one
    entry: once the first has been fetched and stored, the second, within the
    TTL, is answered from the cache with the body fetched for the first, and
    nothing is sent upstream. *)
Theorem C10_headers_ignored {L : CodecLaws C}
    (pc : ProxyCache) (method url : string) (H1 H2 : http.Header) :
  getCacheKey pc method url H1 = getCacheKey pc method url H2
  /\ getCachePath pc (getCacheKey pc method url H1)
     = getCachePath pc (getCacheKey pc method url H2)
  /\ forall (upstream1 upstream2 : Upstream) (t_get1 t_set1 t_get2 t_set2 : time.Time)
            (fs : FS) (resp : http.Response),
       url <> EmptyString ->
       let r1 := {| http.Method := method; http.Query_url := url; http.ReqHeader := H1 |} in
       let r2 := {| http.Method := method; http.Query_url := url; http.ReqHeader := H2 |} in
       let h1 := proxyHandler pc upstream1 t_get1 t_set1 fs r1 in
       h_sent h1 <> [] ->
       upstream1 method url (copyHeader H1 ∅) = http.Fetched resp ->
       h_log h1 = [] ->
       time.Sub t_get2 t_set1 <= ttl pc ->
       let h2 := proxyHandler pc upstream2 t_get2 t_set2 (h_fs h1) r2 in
       http.w_header (h_w h2) !! "X-Cache" = Some ["HIT"]
       /\ http.w_body (h_w h2) = http.Body resp
       /\ h_sent h2 = [].
Proof.
  split; [reflexivity|]. split; [reflexivity|].
  intros upstream1 upstream2 t_get1 t_set1 t_get2 t_set2 fs resp Hurl r1 r2 h1
    Hsent Hup Hlog Hfresh h2.
  destruct (proxyHandler_sent pc upstream1 t_get1 t_set1 fs r1 Hsent)
    as (_ & Herr & Hfound).
  set (key := getCacheKey pc method url H1) in *.
  set (fs1 := snd (get pc t_get1 fs key)) in *.
  assert (Hh1 : h_fs h1 = snd (set pc t_set1 fs1 key (http.Body resp))
                /\ fst (set pc t_set1 fs1 key (http.Body resp)) = None).
  { subst h1.
    rewrite (proxyHandler_fetched pc upstream1 t_get1 t_set1 fs r1 resp Hurl
               Herr Hfound Hup) in Hlog |- *.
    cbn [h_fs h_log] in *. split; [reflexivity|].
    change (getCacheKey pc (http.Method r1) (http.Query_url r1) (http.ReqHeader r1))
      with key in Hlog.
    fold fs1 in Hlog.
    destruct (fst (set pc t_set1 fs1 key (http.Body resp))); [discriminate|reflexivity]. }
  destruct Hh1 as [Hfs Hok].
  assert (Hset : set pc t_set1 fs1 key (http.Body resp) = (None, h_fs h1)).
  { rewrite Hfs, <- Hok. apply surjective_pairing. }
  pose proof (set_stores pc t_set1 fs1 (h_fs h1) key (http.Body resp) Hset) as Hread.
  assert (Hget : get pc t_get2 (h_fs h1) key
                 = ({| g_data := http.Body resp; g_found := true; g_err := None |},
                    h_fs h1)).
  { rewrite (get_stored pc t_get2 (h_fs h1) key _ Hread). cbn [Timestamp Data].
    destruct (ttl pc <? time.Sub t_get2 t_set1) eqn:E; [|reflexivity].
    apply Z.ltb_lt in E. lia. }
  subst h2.
  rewrite (proxyHandler_hit pc upstream2 t_get2 t_set2 (h_fs h1) r2 Hurl);
    change (getCacheKey pc (http.Method r2) (http.Query_url r2) (http.ReqHeader r2))
      with key; rewrite Hget; try reflexivity.
  cbn [fst snd g_data h_w h_sent]. rewrite hit_response. repeat split.
Qed.

End HandlerFacts.

(* ===================================================================== *)
(** * The statements on the sample worlds *)
(* ===================================================================== *)

#[local] Existing Instance RefCodec.codec.

Lemma C1_set_get_roundtrip_witness :
  get Sample.pc (Sample.t0 + time.Second)
      (snd (set Sample.pc Sample.t0 Sample.fs_empty Sample.key Sample.payload))
      Sample.key
  = ({| g_data := Sample.payload; g_found := true; g_err := None |},
     snd (set Sample.pc Sample.t0 Sample.fs_empty Sample.key Sample.payload))
  /\ readCacheFile
       (snd (set Sample.pc Sample.t0 Sample.fs_empty Sample.key Sample.payload))
       (getCachePath Sample.pc Sample.key)
     = inr {| Data := Sample.payload; Timestamp := Sample.t0 |}.
Proof.
  apply (@C1_set_get_roundtrip RefCodec.codec RefCodec_laws Sample.pc Sample.t0
           (Sample.t0 + time.Second) Sample.fs_empty).
  - vm_compute. reflexivity.
  - vm_compute. discriminate.
Defined.

Lemma C10_headers_ignored_witness :
  http.w_header
    (h_w (proxyHandler Sample.pc Sample.upstream
            (Sample.t0 + 30 * time.Second) (Sample.t0 + 30 * time.Second)
            (h_fs (proxyHandler Sample.pc Sample.upstream Sample.t0 Sample.t0
                     Sample.fs_empty Sample.req))
            {| http.Method := "GET"; http.Query_url := "http://example.test/data";
               http.ReqHeader := {[ "Authorization" := ["Bearer other"] ]} |}))
    !! "X-Cache" = Some ["HIT"]
  /\ http.w_body
       (h_w (proxyHandler Sample.pc Sample.upstream
               (Sample.t0 + 30 * time.Second) (Sample.t0 + 30 * time.Second)
               (h_fs (proxyHandler Sample.pc Sample.upstream Sample.t0 Sample.t0
                        Sample.fs_empty Sample.req))
               {| http.Method := "GET"; http.Query_url := "http://example.test/data";
                  http.ReqHeader := {[ "Authorization" := ["Bearer other"] ]} |}))
     = http.Body Sample.resp
  /\ h_sent
       (proxyHandler Sample.pc Sample.upstream
          (Sample.t0 + 30 * time.Second) (Sample.t0 + 30 * time.Second)
          (h_fs (proxyHandler Sample.pc Sample.upstream Sample.t0 Sample.t0
                   Sample.fs_empty Sample.req))
          {| http.Method := "GET"; http.Query_url := "http://example.test/data";
             http.ReqHeader := {[ "Authorization" := ["Bearer other"] ]} |})
     = [].
Proof.
  refine (proj2 (proj2 (@C10_headers_ignored RefCodec.codec RefCodec_laws Sample.pc
            "GET" "http://example.test/data"
            {[ "Accept" := ["application/json"] ]}
            {[ "Authorization" := ["Bearer other"] ]}))
          Sample.upstream Sample.upstream Sample.t0 Sample.t0
          (Sample.t0 + 30 * time.Second) (Sample.t0 + 30 * time.Second)
          Sample.fs_empty Sample.resp _ _ _ _ _).
  - discriminate.
  - vm_compute. discriminate.
  - reflexivity.
  - vm_compute. reflexivity.
  - vm_compute. discriminate.
Defined.

Lemma C2_corrupt_entry_fails_the_request_witness :
  http.w_status (h_w (proxyHandler Sample.pc Sample.upstream Sample.t0 Sample.t0
                        Sample.fs_corrupt Sample.req)) = Some 500
  /\ h_sent (proxyHandler Sample.pc Sample.upstream Sample.t0 Sample.t0
               Sample.fs_corrupt Sample.req) = []
  /\ h_log (proxyHandler Sample.pc Sample.upstream Sample.t0 Sample.t0
              Sample.fs_corrupt Sample.req) = []
  /\ h_fs (proxyHandler Sample.pc Sample.upstream Sample.t0 Sample.t0
             Sample.fs_corrupt Sample.req) = Sample.fs_corrupt.
Proof.
  refine (proj2 (@C2_corrupt_entry_fails_the_request RefCodec.codec Sample.pc
            Sample.upstream Sample.t0 Sample.t0 Sample.fs_corrupt Sample.req
            (Sample.plain_file []) (errorString "EOF") _ _ _ _)).
  - discriminate.
  - vm_compute. reflexivity.
  - reflexivity.
  - reflexivity.
Defined.

(** C2, as stated, fails: with an empty file in the place of the entry the
    lookup fails on decompression, and the handler neither logs nor goes to
    the upstream. *)
Lemma C2_corrupt_entry_is_not_a_miss :
  ~ (forall (C : Codec) (pc : ProxyCache) (upstream : Upstream)
       (t_get t_set : time.Time) (fs : FS) (r : http.Request) (f : file)
       (err : error),
        http.Query_url r <> EmptyString ->
        entries fs !! (getCacheKey pc (http.Method r) (http.Query_url r)
                         (http.ReqHeader r) +:+ ".gz") = Some (File f) ->
        f_readable f = true ->
        @decode_content C (f_data f) = inl err ->
        h_log (@proxyHandler C pc upstream t_get t_set fs r) <> []
        /\ h_sent (@proxyHandler C pc upstream t_get t_set fs r) <> []).
Proof.
  intros H.
  destruct (H RefCodec.codec Sample.pc Sample.upstream Sample.t0 Sample.t0
              Sample.fs_corrupt Sample.req (Sample.plain_file [])
              (errorString "EOF")) as [Hlog _].
  - discriminate.
  - vm_compute. reflexivity.
  - reflexivity.
  - reflexivity.
  - apply Hlog. vm_compute. reflexivity.
Qed.

Lemma C3_expiry_boundary_witness :
  fst (get Sample.pc (Sample.t0 + cacheTTL 60) Sample.fs_stored Sample.key)
  = {| g_data := Sample.payload; g_found := true; g_err := None |}
  /\ entries (snd (fst (cleanExpiredCache Sample.pc (Sample.t0 + cacheTTL 60)
                          Sample.fs_stored))) !! (Sample.key +:+ ".gz")
     = Some (File (Sample.cache_file Sample.payload Sample.t0 true)).
Proof.
  refine (proj1 (proj2 (proj2
            (@C3_expiry_boundary RefCodec.codec "./cache" 60
               (Sample.t0 + cacheTTL 60) Sample.fs_stored Sample.key
               (Sample.cache_file Sample.payload Sample.t0 true)
               {| Data := Sample.payload; Timestamp := Sample.t0 |} _ _ _ _ _))) _).
  - vm_compute. reflexivity.
  - reflexivity.
  - vm_compute. reflexivity.
  - reflexivity.
  - reflexivity.
  - reflexivity.
Defined.

Lemma C5_sweep_removes_exactly_the_stale_witness :
  exists fs' lg,
    cleanExpiredCache Sample.pc Sample.t0 Sample.fs_mixed = (None, fs', lg)
    /\ entries fs'
       = filter (fun kv => expired_entry Sample.pc Sample.t0 (snd kv) <> true)
           (entries Sample.fs_mixed)
    /\ size (entries fs') = (5 - 2)%nat
    /\ "Error reading cache file cache/junk.gz: unexpected EOF" ∈ lg.
Proof.
  destruct (@C5_sweep_removes_exactly_the_stale RefCodec.codec Sample.pc Sample.t0
              Sample.fs_mixed eq_refl)
    as (fs' & lg & Hrun & _ & Hread & _ & Hall).
  destruct Hall as [Hfilter Hsize].
  { apply (bool_decide_unpack _). vm_compute. reflexivity. }
  exists fs', lg. split; [exact Hrun|]. split; [exact Hfilter|]. split.
  - rewrite Hsize. vm_compute. reflexivity.
  - apply (Hread "junk.gz" (Sample.plain_file (bytes_of_string "not gzip"))
             (errorString "unexpected EOF")).
    + vm_compute. reflexivity.
    + vm_compute. reflexivity.
Defined.

Lemma C6_store_failure_is_logged_not_fatal_witness :
  h_log (proxyHandler Sample.pc Sample.upstream Sample.t0 Sample.t0
           Sample.fs_readonly Sample.req)
  = ["error caching response: "
       +:+ Error (PathError "open" (path_string (getCachePath Sample.pc Sample.key)) EACCES)]
  /\ http.w_header (h_w (proxyHandler Sample.pc Sample.upstream Sample.t0 Sample.t0
                           Sample.fs_readonly Sample.req)) !! "X-Cache"
     = Some ["MISS"]
  /\ http.w_status (h_w (proxyHandler Sample.pc Sample.upstream Sample.t0 Sample.t0
                           Sample.fs_readonly Sample.req)) = Some 203
  /\ http.w_body (h_w (proxyHandler Sample.pc Sample.upstream Sample.t0 Sample.t0
                         Sample.fs_readonly Sample.req)) = Sample.payload.
Proof.
  destruct (@C6_store_failure_is_logged_not_fatal RefCodec.codec Sample.pc
              Sample.upstream Sample.t0 Sample.t0 Sample.fs_readonly Sample.req
              Sample.resp
              (PathError "open" (path_string (getCachePath Sample.pc Sample.key)) EACCES))
    as (Hlog & Hok & _).
  - discriminate.
  - vm_compute. reflexivity.
  - vm_compute. reflexivity.
  - reflexivity.
  - vm_compute. reflexivity.
  - destruct Hok as (_ & _ & Hx & Hst & Hbody).
    { right. vm_compute. split; discriminate. }
    split; [exact Hlog|]. split; [exact Hx|]. split; [exact Hst|exact Hbody].
Defined.

(** C6, as stated, fails: the client hands on a status code below 100, and
    with such a code [WriteHeader] panics.  The failure of [set] is logged,
    and neither the status code nor the body reaches the caller. *)
Lemma C6_no_answer_below_100 :
  ~ (forall (C : Codec) (pc : ProxyCache) (upstream : Upstream)
       (t_get t_set : time.Time) (fs : FS) (r : http.Request)
       (resp : http.Response) (err : error),
        http.Query_url r <> EmptyString ->
        g_err (fst (@get C pc t_get fs
                 (getCacheKey pc (http.Method r) (http.Query_url r) (http.ReqHeader r))))
          = None ->
        g_found (fst (@get C pc t_get fs
                   (getCacheKey pc (http.Method r) (http.Query_url r) (http.ReqHeader r))))
          = false ->
        upstream (http.Method r) (http.Query_url r) (copyHeader (http.ReqHeader r) ∅)
          = http.Fetched resp ->
        fst (@set C pc t_set
               (snd (@get C pc t_get fs
                  (getCacheKey pc (http.Method r) (http.Query_url r) (http.ReqHeader r))))
               (getCacheKey pc (http.Method r) (http.Query_url r) (http.ReqHeader r))
               (http.Body resp)) = Some err ->
        h_log (@proxyHandler C pc upstream t_get t_set fs r)
          = ["error caching response: " +:+ Error err]
        /\ http.w_header (h_w (@proxyHandler C pc upstream t_get t_set fs r)) !! "X-Cache"
           = Some ["MISS"]
        /\ http.w_status (h_w (@proxyHandler C pc upstream t_get t_set fs r))
           = Some (http.StatusCode resp)
        /\ http.w_body (h_w (@proxyHandler C pc upstream t_get t_set fs r))
           = http.Body resp).
Proof.
  intros H.
  destruct (H RefCodec.codec Sample.pc Scenes.upstream099 Sample.t0 Sample.t0
              Sample.fs_readonly Sample.req Scenes.resp099
              (PathError "open" (path_string (getCachePath Sample.pc Sample.key)) EACCES))
    as (_ & _ & Hst & _).
  - discriminate.
  - vm_compute. reflexivity.
  - vm_compute. reflexivity.
  - reflexivity.
  - vm_compute. reflexivity.
  - vm_compute in Hst. discriminate.
Qed.

Lemma C7_get_absent_is_not_an_error_witness :
  get Sample.pc Sample.t0 Sample.fs_mixed Sample.key
  = ({| g_data := []; g_found := false; g_err := None |}, Sample.fs_mixed)
  /\ os.IsNotExist (errorString "EOF") = false
  /\ is_Some (entries Sample.fs_corrupt !! (Sample.key +:+ ".gz")).
Proof.
  split.
  - apply (proj1 (@C7_get_absent_is_not_an_error RefCodec.codec Sample.pc Sample.t0
                    Sample.fs_mixed Sample.key)).
    vm_compute. reflexivity.
  - apply (proj2 (@C7_get_absent_is_not_an_error RefCodec.codec Sample.pc Sample.t0
                    Sample.fs_corrupt Sample.key)).
    vm_compute. reflexivity.
Defined.

Lemma C8_cache_status_marker_witness :
  (http.w_header (h_w (proxyHandler Sample.pc Sample.upstream
                         (Sample.t0 + time.Second) (Sample.t0 + time.Second)
                         Sample.fs_stored Sample.req)) !! "X-Cache" = Some ["HIT"]
   /\ http.w_header (h_w (proxyHandler Sample.pc Sample.upstream
                         (Sample.t0 + time.Second) (Sample.t0 + time.Second)
                         Sample.fs_stored Sample.req)) !! "Content-Type"
      = Some ["application/json"]
   /\ http.w_status (h_w (proxyHandler Sample.pc Sample.upstream
                         (Sample.t0 + time.Second) (Sample.t0 + time.Second)
                         Sample.fs_stored Sample.req)) = Some http.StatusOK
   /\ http.w_body (h_w (proxyHandler Sample.pc Sample.upstream
                         (Sample.t0 + time.Second) (Sample.t0 + time.Second)
                         Sample.fs_stored Sample.req)) = Sample.payload
   /\ h_sent (proxyHandler Sample.pc Sample.upstream
                (Sample.t0 + time.Second) (Sample.t0 + time.Second)
                Sample.fs_stored Sample.req) = [])
  /\ http.w_header (h_w (proxyHandler Sample.pc Sample.upstream Sample.t0 Sample.t0
                           Sample.fs_empty Sample.req)) !! "X-Cache" = Some ["MISS"].
Proof.
  split.
  - refine (proj1 (@C8_cache_status_marker RefCodec.codec Sample.pc Sample.upstream
                     (Sample.t0 + time.Second) (Sample.t0 + time.Second)
                     Sample.fs_stored Sample.req _)
              {| Data := Sample.payload; Timestamp := Sample.t0 |} _ _).
    + discriminate.
    + vm_compute. reflexivity.
    + vm_compute. discriminate.
  - refine (proj1 (proj2 (@C8_cache_status_marker RefCodec.codec Sample.pc
                     Sample.upstream Sample.t0 Sample.t0 Sample.fs_empty Sample.req _)
              Sample.resp _ _ _)).
    + discriminate.
    + vm_compute. discriminate.
    + reflexivity.
    + right. vm_compute. split; discriminate.
Defined.

(** A stale file that cannot be unlinked stays, with its line in the log, and
    the sweep goes on to unlink the next one. *)
Example sweep_with_unlink_failure :
  let '(err, fs', lg) := cleanExpiredCache Sample.pc Sample.t0 Sample.fs_pinned in
  err = None
  /\ map fst (os.listing fs') = ["fresh.gz"; "old1.gz"]
  /\ lg = ["Error removing expired cache file cache/old1.gz: remove cache/old1.gz: operation not permitted";
           "Removed expired cache file: old2.gz"].
Proof. vm_compute. repeat split. Qed.

(** A reader that finds its entry stale unlinks it on the way. *)
Example get_unlinks_stale_entry :
  get Sample.pc (Sample.t0 + 61 * time.Second) Sample.fs_stored Sample.key
  = ({| g_data := []; g_found := false; g_err := None |}, Sample.fs_empty).
Proof. vm_compute. reflexivity. Qed.


(* ===================================================================== *)
(** * More on [get] and [set] *)
(* ===================================================================== *)

#[local] Remove Hints RefCodec.codec : typeclass_instances.

Lemma append_length (s t : string) :
  String.length (s +:+ t) = (String.length s + String.length t)%nat.
Proof.
  induction s as [|c s IH]; [reflexivity|].
  change (String c s +:+ t) with (String c (s +:+ t)).
  cbn [String.length]. now rewrite IH.
Qed.

Lemma append_inv_tail (s1 s2 t : string) : s1 +:+ t = s2 +:+ t -> s1 = s2.
Proof.
  revert s2. induction s1 as [|c s1 IH]; intros [|d s2] H.
  - reflexivity.
  - apply (f_equal String.length) in H.
    rewrite (append_length (String d s2) t), (append_length EmptyString t) in H.
    cbn in H. lia.
  - apply (f_equal String.length) in H.
    rewrite (append_length (String c s1) t), (append_length EmptyString t) in H.
    cbn in H. lia.
  - change (String c (s1 +:+ t) = String d (s2 +:+ t)) in H.
    injection H as -> H. f_equal. now apply IH.
Qed.

(* ===================================================================== *)
(** * Paths *)
(* ===================================================================== *)

(** [filepath.Clean] on the cases of Go's own test table. *)
Example Clean_samples :
  map filepath.Clean
    ["abc"; "abc/def"; "."; ".."; "../../abc"; "/abc"; "/"; EmptyString;
     "abc/"; "./"; "../../"; "abc//def//ghi"; "//abc//"; "abc/./def";
     "/./abc/def"; "abc/def/ghi/../jkl"; "abc/def/../..";
     "/abc/def/../.."; "abc/def/../../.."; "/abc/def/../../..";
     "abc/def/../../../ghi/jkl/../../../mno"; "/../abc"; "abc//./../def";
     "abc/../../././../def"]
  = ["abc"; "abc/def"; "."; ".."; "../../abc"; "/abc"; "/"; ".";
     "abc"; "."; "../.."; "abc/def/ghi"; "/abc"; "abc/def";
     "/abc/def"; "abc/def/jkl"; ".";
     "/"; ".."; "/";
     "../../mno"; "/abc"; "def";
     "../../def"].
Proof. reflexivity. Qed.

Example Join_samples :
  filepath.Join "./cache" "ab.gz" = "cache/ab.gz"
  /\ filepath.Join "cache/" "ab.gz" = "cache/ab.gz"
  /\ filepath.Join "/var/cache" "ab.gz" = "/var/cache/ab.gz"
  /\ filepath.Join "." "ab.gz" = "ab.gz"
  /\ filepath.Join EmptyString "ab.gz" = "ab.gz"
  /\ filepath.Join "/" "ab.gz" = "/ab.gz"
  /\ filepath.Join "a" EmptyString = "a"
  /\ filepath.Join EmptyString EmptyString = EmptyString.
Proof. repeat split. Qed.

Lemma elements_nonempty (p : string) : filepath.elements p <> [].
Proof.
  destruct p as [|c p]; cbn [filepath.elements]; [discriminate|].
  destruct (Ascii.eqb c filepath.Separator); [discriminate|].
  destruct (filepath.elements p); discriminate.
Qed.

Lemma elements_no_separator (name : string) :
  no_separator name -> filepath.elements name = [name].
Proof.
  induction name as [|c name IH]; intros H; [reflexivity|].
  cbn [filepath.elements].
  assert (Hc : Ascii.eqb c filepath.Separator = false).
  { apply Ascii.eqb_neq. apply H. now left. }
  rewrite Hc, IH; [reflexivity|].
  intros c' Hin. apply H. now right.
Qed.

Lemma elements_app_name (dir name : string) :
  no_separator name ->
  filepath.elements (dir +:+ "/" +:+ name) = filepath.elements dir ++ [name].
Proof.
  intros H. induction dir as [|c dir IH].
  - change (EmptyString +:+ "/" +:+ name) with (String "/" name).
    cbn [filepath.elements]. change (Ascii.eqb "/" filepath.Separator) with true.
    cbn iota. now rewrite elements_no_separator.
  - change (String c dir +:+ "/" +:+ name) with (String c (dir +:+ "/" +:+ name)).
    cbn [filepath.elements]. rewrite IH.
    destruct (Ascii.eqb c filepath.Separator); [reflexivity|].
    pose proof (elements_nonempty dir) as Hne.
    destruct (filepath.elements dir) as [|e es]; [contradiction|reflexivity].
Qed.

Lemma append_assoc (s t u : string) : (s +:+ t) +:+ u = s +:+ (t +:+ u).
Proof.
  induction s as [|c s IH]; [reflexivity|].
  change (String c ((s +:+ t) +:+ u) = String c (s +:+ (t +:+ u))). now rewrite IH.
Qed.

Lemma concat_snoc (sep : string) (out : list string) (n : string) :
  String.concat sep (out ++ [n])
  = match out with
    | [] => n
    | _ :: _ => String.concat sep out +:+ sep +:+ n
    end.
Proof.
  induction out as [|a out IH]; [reflexivity|].
  destruct out as [|b out]; [reflexivity|].
  change (String.concat sep ((a :: b :: out) ++ [n]))
    with (a +:+ sep +:+ String.concat sep ((b :: out) ++ [n])).
  rewrite IH.
  change (String.concat sep (a :: b :: out))
    with (a +:+ sep +:+ String.concat sep (b :: out)).
  now rewrite !append_assoc.
Qed.

Lemma clean_step_file_name (rooted : bool) (out : list string) (dotdot : nat)
    (name : string) :
  file_name name ->
  filepath.clean_step rooted (out, dotdot) name = (out ++ [name], dotdot).
Proof.
  intros (H0 & H1 & H2 & _). unfold filepath.clean_step.
  apply String.eqb_neq in H0, H1, H2. now rewrite H0, H1, H2.
Qed.

Lemma elements_no_separator_all (p : string) :
  Forall no_separator (filepath.elements p).
Proof.
  induction p as [|c p IH]; cbn [filepath.elements].
  - repeat constructor. intros c [].
  - destruct (Ascii.eqb c filepath.Separator) eqn:Hc.
    + constructor; [intros c' []|exact IH].
    + apply Ascii.eqb_neq in Hc.
      destruct (filepath.elements p) as [|e es].
      * repeat constructor. intros c' [<-|[]]. exact Hc.
      * apply Forall_cons in IH as [He Hes]. constructor; [|exact Hes].
        intros c' [<-|Hin]; [exact Hc|now apply He].
Qed.

Lemma clean_step_written (rooted : bool) (st : list string * nat) (e : string) :
  no_separator e ->
  Forall written (fst st) ->
  Forall written (fst (filepath.clean_step rooted st e)).
Proof.
  destruct st as [out dotdot]. cbn [fst]. intros He H. unfold filepath.clean_step.
  destruct (String.eqb e EmptyString) eqn:E0; [exact H|].
  destruct (String.eqb e ".") eqn:E1; [exact H|]. cbn [orb].
  apply String.eqb_neq in E0, E1.
  destruct (String.eqb e "..") eqn:E2.
  - destruct (dotdot <? length out)%nat; cbn [fst].
    + destruct out as [|x out _] using rev_ind; [exact H|].
      rewrite removelast_last. apply Forall_app in H. tauto.
    + destruct rooted; cbn [fst]; [exact H|].
      apply Forall_app. split; [exact H|].
      apply String.eqb_eq in E2. subst e. now repeat constructor.
  - cbn [fst]. apply Forall_app. split; [exact H|]. now repeat constructor.
Qed.

Lemma clean_fold_written (rooted : bool) (els : list string) (st : list string * nat) :
  Forall no_separator els ->
  Forall written (fst st) ->
  Forall written (fst (foldl (filepath.clean_step rooted) st els)).
Proof.
  revert st. induction els as [|e els IH]; intros st Hels H; [exact H|].
  apply Forall_cons in Hels as [He Hels].
  cbn [foldl]. apply IH; [exact Hels|]. now apply clean_step_written.
Qed.

(** Joined with separators, they give neither [.] nor [/] nor nothing. *)
Lemma concat_written (out : list string) :
  out <> [] -> Forall written out ->
  String.concat "/" out <> "." /\ String.concat "/" out <> "/"
  /\ String.concat "/" out <> EmptyString.
Proof.
  intros Hne H. destruct out as [|a out]; [contradiction|].
  apply Forall_cons in H as [(Ha0 & Ha1 & Has) _].
  destruct a as [|c a]; [contradiction|].
  assert (Hc : c <> "/"%char) by (apply Has; now left).
  destruct out as [|b out].
  - cbn [String.concat]. repeat split; [exact Ha1| |discriminate].
    intros Heq. injection Heq as Heq _. contradiction.
  - change (String.concat "/" (String c a :: b :: out))
      with (String c (a +:+ "/" +:+ String.concat "/" (b :: out))).
    repeat split; [| |discriminate].
    + intros Heq. injection Heq as _ Heq. destruct a; discriminate.
    + intros Heq. injection Heq as Heq _. contradiction.
Qed.

(** [filepath.Join] of a directory and a file name: the cleaned directory,
    a separator, the name. *)
Lemma Join_file_name (dir name : string) :
  file_name name -> filepath.Join dir name = dir_prefix dir +:+ name.
Proof.
  intros Hn. pose proof Hn as (H0 & H1 & H2 & Hsep).
  destruct dir as [|c dir].
  - destruct name as [|c name]; [contradiction|].
    unfold filepath.Join, filepath.Clean.
    assert (Hc : Ascii.eqb c filepath.Separator = false).
    { apply Ascii.eqb_neq. apply Hsep. now left. }
    rewrite Hc, (elements_no_separator _ Hsep). cbn [foldl].
    rewrite (clean_step_file_name _ _ _ _ Hn). reflexivity.
  - unfold filepath.Join, dir_prefix, filepath.Clean.
    change (String c dir +:+ "/" +:+ name) with (String c (dir +:+ "/" +:+ name)).
    cbn iota.
    change (String c (dir +:+ "/" +:+ name)) with (String c dir +:+ "/" +:+ name).
    rewrite (elements_app_name _ _ Hsep), foldl_app. cbn [foldl].
    pose proof (clean_fold_written (Ascii.eqb c filepath.Separator)
                  (filepath.elements (String c dir)) ([], 0%nat)
                  (elements_no_separator_all _) (Forall_nil_2 _)) as Hall.
    destruct (foldl (filepath.clean_step (Ascii.eqb c filepath.Separator)) ([], 0%nat)
                (filepath.elements (String c dir))) as [out dotdot].
    cbn [fst] in Hall. rewrite (clean_step_file_name _ _ _ _ Hn). cbn [fst].
    rewrite concat_snoc.
    destruct (Ascii.eqb c filepath.Separator).
    + destruct out as [|a out]; [reflexivity|].
      destruct (concat_written (a :: out)) as (_ & _ & Hne); [discriminate|exact Hall|].
      assert (E1 : String.eqb (String filepath.Separator (String.concat "/" (a :: out))) "."
                   = false) by (apply String.eqb_neq; discriminate).
      assert (E2 : String.eqb (String filepath.Separator (String.concat "/" (a :: out))) "/"
                   = false).
      { apply String.eqb_neq. intros Heq. injection Heq as Heq. contradiction. }
      rewrite E1, E2.
      change (String filepath.Separator (String.concat "/" (a :: out)) +:+ "/")
        with (String filepath.Separator (String.concat "/" (a :: out) +:+ "/")).
      change (String filepath.Separator (String.concat "/" (a :: out) +:+ "/") +:+ name)
        with (String filepath.Separator ((String.concat "/" (a :: out) +:+ "/") +:+ name)).
      now rewrite append_assoc.
    + destruct out as [|a out]; [reflexivity|].
      destruct (concat_written (a :: out)) as (Hd & Hs & _); [discriminate|exact Hall|].
      apply String.eqb_neq in Hd, Hs. rewrite Hd, Hs. now rewrite append_assoc.
Qed.

(** Different keys have different cache files. *)
Lemma key_file_ne (k1 k2 : string) : k1 <> k2 -> k1 +:+ ".gz" <> k2 +:+ ".gz".
Proof. intros Hne H. apply Hne. now apply append_inv_tail in H. Qed.

Section MoreCacheFacts.

Context {C : Codec}.

Lemma Remove_cases (fs : FS) (p : path) :
  (fst (os.Remove fs p) = None
   /\ snd (os.Remove fs p) = with_entries fs (delete (p_name p) (entries fs)))
  \/ (fst (os.Remove fs p) <> None /\ snd (os.Remove fs p) = fs).
Proof.
  unfold os.Remove.
  destruct (entries fs !! p_name p) as [[f|e]|].
  - destruct (d_writable fs && f_removable f); [left|right]; split; cbn; congruence.
  - destruct (d_writable fs && e); [left|right]; split; cbn; congruence.
  - right. split; cbn; congruence.
Qed.

Lemma Create_flags (fs fs1 : FS) (p : path) :
  os.Create fs p = inr fs1 ->
  d_listable fs1 = d_listable fs /\ d_writable fs1 = d_writable fs.
Proof.
  unfold os.Create.
  destruct (entries fs !! p_name p) as [[f|e]|].
  - destruct (f_readable f && f_writable f); [|discriminate].
    intros [= <-]. split; reflexivity.
  - discriminate.
  - destruct (d_writable fs) eqn:Hw; [|discriminate].
    intros [= <-]. split; [reflexivity | now cbn].
Qed.

Lemma WriteFile_flags (fs : FS) (p : path) (data : list byte) :
  d_listable (os.WriteFile fs p data) = d_listable fs
  /\ d_writable (os.WriteFile fs p data) = d_writable fs.
Proof.
  unfold os.WriteFile.
  destruct (entries fs !! p_name p) as [[f|e]|]; split; reflexivity.
Qed.

(** The directory after [get]: as it was, or without the file of the key. *)
Lemma get_fs_cases (pc : ProxyCache) (now : time.Time) (fs : FS) (key : string) :
  snd (get pc now fs key) = fs
  \/ snd (get pc now fs key) = with_entries fs (delete (key +:+ ".gz") (entries fs)).
Proof.
  unfold get.
  destruct (readCacheFile fs (getCachePath pc key)) as [err|item].
  - destruct (os.IsNotExist err); now left.
  - destruct (ttl pc <? time.Sub now (Timestamp item)); [|now left].
    cbn [snd].
    destruct (Remove_cases fs (getCachePath pc key)) as [[_ H]|[_ H]];
      rewrite H; [now right | now left].
Qed.

Lemma get_frame (pc : ProxyCache) (now : time.Time) (fs : FS) (key name : string) :
  name <> key +:+ ".gz" ->
  entries (snd (get pc now fs key)) !! name = entries fs !! name.
Proof.
  intros Hne. destruct (get_fs_cases pc now fs key) as [-> | ->]; [reflexivity|].
  cbn. now rewrite lookup_delete_ne by congruence.
Qed.

Lemma get_flags (pc : ProxyCache) (now : time.Time) (fs : FS) (key : string) :
  d_listable (snd (get pc now fs key)) = d_listable fs
  /\ d_writable (snd (get pc now fs key)) = d_writable fs.
Proof. destruct (get_fs_cases pc now fs key) as [-> | ->]; split; reflexivity. Qed.

Lemma set_frame (pc : ProxyCache) (now : time.Time) (fs : FS) (key : string)
    (data : list byte) (name : string) :
  name <> key +:+ ".gz" ->
  entries (snd (set pc now fs key data)) !! name = entries fs !! name.
Proof.
  intros Hne. unfold set.
  destruct (os.Create fs (getCachePath pc key)) as [err|fs1] eqn:Hc; [reflexivity|].
  destruct (Create_inv _ _ _ Hc) as (_ & _ & _ & Hother).
  destruct (json_Encode _); cbn [snd];
    rewrite WriteFile_other by exact Hne; now apply Hother.
Qed.

Lemma set_flags (pc : ProxyCache) (now : time.Time) (fs : FS) (key : string)
    (data : list byte) :
  d_listable (snd (set pc now fs key data)) = d_listable fs
  /\ d_writable (snd (set pc now fs key data)) = d_writable fs.
Proof.
  unfold set.
  destruct (os.Create fs (getCachePath pc key)) as [err|fs1] eqn:Hc;
    [split; reflexivity|].
  destruct (Create_flags _ _ _ Hc) as [Hl Hw].
  destruct (json_Encode _) as [msg|js]; cbn [snd].
  - destruct (WriteFile_flags fs1 (getCachePath pc key) (gzip_Write [])) as [Hl' Hw'].
    split; congruence.
  - destruct (WriteFile_flags fs1 (getCachePath pc key) (gzip_Write js)) as [Hl' Hw'].
    split; congruence.
Qed.

Lemma readCacheFile_inr (fs : FS) (p : path) (item : CacheItem) :
  readCacheFile fs p = inr item ->
  exists f, entries fs !! p_name p = Some (File f) /\ f_readable f = true
            /\ decode_content (f_data f) = inr item.
Proof.
  destruct (entries fs !! p_name p) as [[f|e]|] eqn:E.
  - rewrite (readCacheFile_File fs p f E).
    destruct (f_readable f) eqn:Hr; [|discriminate].
    intros Hd. now exists f.
  - rewrite (readCacheFile_SubDir fs p e E). discriminate.
  - rewrite (readCacheFile_absent fs p E). discriminate.
Qed.

(** The entries after [set]: as they were when the file could not be opened,
    else with the file of the key written anew. *)
Lemma set_entries_cases (pc : ProxyCache) (now : time.Time) (fs : FS)
    (key : string) (data : list byte) :
  (exists err, os.Create fs (getCachePath pc key) = inl err
               /\ set pc now fs key data = (Some err, fs))
  \/ (exists f, entries (snd (set pc now fs key data))
                = <[key +:+ ".gz" := File f]> (entries fs)
                /\ f_readable f = true /\ f_writable f = true).
Proof.
  unfold set.
  destruct (os.Create fs (getCachePath pc key)) as [err|fs1] eqn:Hc.
  { left. now exists err. }
  right. unfold os.Create in Hc. cbn [getCachePath p_name] in Hc.
  assert (Hw : forall f0 d,
             fs1 = with_entries fs (<[key +:+ ".gz" := File f0]> (entries fs)) ->
             f_readable f0 = true -> f_writable f0 = true ->
             exists f, entries (os.WriteFile fs1 (getCachePath pc key) d)
                       = <[key +:+ ".gz" := File f]> (entries fs)
                       /\ f_readable f = true /\ f_writable f = true).
  { intros f0 d -> Hr Hwr. unfold os.WriteFile. cbn [getCachePath p_name entries with_entries].
    rewrite lookup_insert_eq. cbn [entries with_entries].
    rewrite insert_insert_eq. eexists. split; [reflexivity|]. now split. }
  destruct (entries fs !! (key +:+ ".gz")) as [[f|e]|] eqn:E.
  - destruct (f_readable f && f_writable f); [|discriminate].
    injection Hc as Hc. symmetry in Hc.
    destruct (json_Encode _); cbn [snd]; eapply Hw; eauto.
  - discriminate.
  - destruct (d_writable fs); [|discriminate].
    injection Hc as Hc. symmetry in Hc.
    destruct (json_Encode _); cbn [snd]; eapply Hw; eauto.
Qed.

(** X1: a hit is always backed by a fresh file: when [get] reports the key
    found, the file of the key is there, readable, and decodes to an item no
    older than the TTL whose data is what [get] returns; there is no error
    and the directory is left as it was. *)
Theorem get_hit_is_fresh (pc : ProxyCache) (now : time.Time) (fs fs' : FS)
    (key : string) (res : GetResult) :
  get pc now fs key = (res, fs') ->
  g_found res = true ->
  exists f item,
    entries fs !! (key +:+ ".gz") = Some (File f)
    /\ f_readable f = true
    /\ decode_content (f_data f) = inr item
    /\ g_data res = Data item
    /\ g_err res = None
    /\ time.Sub now (Timestamp item) <= ttl pc
    /\ fs' = fs.
Proof.
  unfold get.
  destruct (readCacheFile fs (getCachePath pc key)) as [err|item] eqn:Hr.
  - destruct (os.IsNotExist err); intros [= <- <-]; discriminate.
  - destruct (readCacheFile_inr _ _ _ Hr) as (f & E & Hrd & Hdec).
    destruct (ttl pc <? time.Sub now (Timestamp item)) eqn:Hlt;
      intros [= <- <-]; [discriminate|].
    intros _. exists f, item. apply Z.ltb_ge in Hlt. repeat split; assumption.
Qed.

(** X2: the only change [get] ever makes to the directory is to unlink the
    file of its own key, and only when that file decodes to an item older
    than the TTL; the call then reports a miss without error.  Every other
    entry is left as it is. *)
Theorem get_changes_only_a_stale_entry (pc : ProxyCache) (now : time.Time)
    (fs : FS) (key : string) :
  (forall name, name <> key +:+ ".gz" ->
     entries (snd (get pc now fs key)) !! name = entries fs !! name)
  /\ (snd (get pc now fs key) <> fs ->
      exists f item,
        entries fs !! (key +:+ ".gz") = Some (File f)
        /\ decode_content (f_data f) = inr item
        /\ ttl pc < time.Sub now (Timestamp item)
        /\ entries (snd (get pc now fs key)) !! (key +:+ ".gz") = None
        /\ fst (get pc now fs key)
           = {| g_data := []; g_found := false; g_err := None |}).
Proof.
  split; [intros name Hne; now apply get_frame|].
  unfold get.
  destruct (readCacheFile fs (getCachePath pc key)) as [err|item] eqn:Hr.
  - destruct (os.IsNotExist err); cbn [snd]; congruence.
  - destruct (readCacheFile_inr _ _ _ Hr) as (f & E & Hrd & Hdec).
    destruct (ttl pc <? time.Sub now (Timestamp item)) eqn:Hlt; cbn [snd fst];
      [|congruence].
    intros Hchg. exists f, item. apply Z.ltb_lt in Hlt.
    destruct (Remove_cases fs (getCachePath pc key)) as [[_ H]|[_ H]];
      [|congruence].
    rewrite H. cbn [entries with_entries getCachePath p_name].
    rewrite lookup_delete_eq. repeat split; assumption.
Qed.

(** X3: [set] touches the file of its key and nothing else: every other
    entry is as before; when the file cannot be opened the error comes back
    and the directory is unchanged; otherwise the directory has that one file
    written anew, so the number of entries grows by one for a new key and
    stays for a key that had a file. *)
Theorem set_changes_only_its_entry (pc : ProxyCache) (now : time.Time) (fs : FS)
    (key : string) (data : list byte) :
  (forall name, name <> key +:+ ".gz" ->
     entries (snd (set pc now fs key data)) !! name = entries fs !! name)
  /\ (forall err, os.Create fs (getCachePath pc key) = inl err ->
        set pc now fs key data = (Some err, fs))
  /\ (forall fs1, os.Create fs (getCachePath pc key) = inr fs1 ->
        is_Some (entries (snd (set pc now fs key data)) !! (key +:+ ".gz"))
        /\ size (entries (snd (set pc now fs key data)))
           = match entries fs !! (key +:+ ".gz") with
             | Some _ => size (entries fs)
             | None => S (size (entries fs))
             end).
Proof.
  split; [intros name Hne; now apply set_frame|]. split.
  - intros err Hc. unfold set. now rewrite Hc.
  - intros fs1 Hc.
    destruct (set_entries_cases pc now fs key data) as [(err & Hc' & _)|(f & He & _)];
      [congruence|].
    rewrite He. split; [rewrite lookup_insert_eq; eauto|].
    destruct (entries fs !! (key +:+ ".gz")) as [n|] eqn:E.
    + rewrite map_size_insert, E. reflexivity.
    + rewrite map_size_insert, E. reflexivity.
Qed.

(** X4: a second [set] on a key replaces the first: after a successful
    [set], a [set] of the same key whose item encodes succeeds too, the
    number of entries stays, and a [get] within the TTL of the second returns
    the second payload. *)
Theorem set_overwrites {L : CodecLaws C} (pc : ProxyCache)
    (t1 t2 t_get : time.Time) (fs fs1 : FS) (k : string) (P1 P2 js : list byte) :
  set pc t1 fs k P1 = (None, fs1) ->
  json_Encode {| Data := P2; Timestamp := t2 |} = inr js ->
  time.Sub t_get t2 <= ttl pc ->
  exists fs2,
    set pc t2 fs1 k P2 = (None, fs2)
    /\ size (entries fs2) = size (entries fs1)
    /\ get pc t_get fs2 k = ({| g_data := P2; g_found := true; g_err := None |}, fs2).
Proof.
  intros Hset1 Henc Hfresh.
  destruct (set_entries_cases pc t1 fs k P1) as [(err & _ & H)|(f & He & Hr & Hw)];
    [congruence|].
  rewrite Hset1 in He. cbn [snd] in He.
  assert (E1 : entries fs1 !! (k +:+ ".gz") = Some (File f)).
  { rewrite He. apply lookup_insert_eq. }
  assert (Hc : exists fs', os.Create fs1 (getCachePath pc k) = inr fs').
  { unfold os.Create. cbn [getCachePath p_name]. rewrite E1, Hr, Hw. cbn. eauto. }
  destruct Hc as (fs' & Hc).
  assert (Hset2 : set pc t2 fs1 k P2
                  = (None, os.WriteFile fs' (getCachePath pc k) (gzip_Write js))).
  { unfold set. now rewrite Hc, Henc. }
  exists (os.WriteFile fs' (getCachePath pc k) (gzip_Write js)).
  split; [exact Hset2|]. split.
  - destruct (set_entries_cases pc t2 fs1 k P2) as [(err & Hc' & _)|(f2 & He2 & _)];
      [congruence|].
    rewrite Hset2 in He2. cbn [snd] in He2. rewrite He2.
    rewrite map_size_insert, E1. reflexivity.
  - rewrite (get_stored pc t_get _ k _ (set_stores pc t2 fs1 _ k P2 Hset2)).
    cbn [Timestamp Data].
    destruct (ttl pc <? time.Sub t_get t2) eqn:E; [|reflexivity].
    apply Z.ltb_lt in E. lia.
Qed.

(** X5: storing under one key does not disturb another: what was stored
    under [k1] is still returned after any [set] on a different key [k2],
    whether that one succeeds or not. *)
Theorem set_keeps_other_keys {L : CodecLaws C} (pc : ProxyCache)
    (t1 t2 t_get : time.Time) (fs fs1 : FS) (k1 k2 : string) (P Q : list byte) :
  k1 <> k2 ->
  set pc t1 fs k1 P = (None, fs1) ->
  time.Sub t_get t1 <= ttl pc ->
  fst (get pc t_get (snd (set pc t2 fs1 k2 Q)) k1)
  = {| g_data := P; g_found := true; g_err := None |}.
Proof.
  intros Hne Hset Hfresh.
  pose proof (set_stores pc t1 fs fs1 k1 P Hset) as Hread.
  assert (Hread2 : readCacheFile (snd (set pc t2 fs1 k2 Q)) (getCachePath pc k1)
                   = inr {| Data := P; Timestamp := t1 |}).
  { rewrite <- Hread. apply readCacheFile_ext. cbn [getCachePath p_name].
    apply set_frame. now apply key_file_ne. }
  rewrite (get_stored pc t_get _ k1 _ Hread2). cbn [Timestamp Data].
  destruct (ttl pc <? time.Sub t_get t1) eqn:E; [|reflexivity].
  apply Z.ltb_lt in E. lia.
Qed.

End MoreCacheFacts.

(* ===================================================================== *)
(** * More on the request handler *)
(* ===================================================================== *)

Section MoreHandlerFacts.

Context {C : Codec}.

(** The handler after a lookup that neither failed nor found the key. *)
Lemma proxyHandler_miss (pc : ProxyCache) (upstream : Upstream)
    (t_get t_set : time.Time) (fs : FS) (r : http.Request) :
  http.Query_url r <> EmptyString ->
  let key := getCacheKey pc (http.Method r) (http.Query_url r) (http.ReqHeader r) in
  let reqHeader := copyHeader (http.ReqHeader r) ∅ in
  let fs1 := snd (get pc t_get fs key) in
  let sent := [(http.Method r, http.Query_url r, reqHeader)] in
  g_err (fst (get pc t_get fs key)) = None ->
  g_found (fst (get pc t_get fs key)) = false ->
  proxyHandler pc upstream t_get t_set fs r
  = match upstream (http.Method r) (http.Query_url r) reqHeader with
    | http.NewRequestFailed err =>
        {| h_w := http.Error ("error creating request: " +:+ Error err)
                    http.StatusInternalServerError http.NewResponseWriter;
           h_fs := fs1; h_log := []; h_sent := [] |}
    | http.DoFailed err =>
        {| h_w := http.Error ("proxy request failed: " +:+ Error err)
                    http.StatusBadGateway http.NewResponseWriter;
           h_fs := fs1; h_log := []; h_sent := sent |}
    | http.ReadFailed err =>
        {| h_w := http.Error ("error reading response: " +:+ Error err)
                    http.StatusInternalServerError http.NewResponseWriter;
           h_fs := fs1; h_log := []; h_sent := sent |}
    | http.Fetched resp =>
        {| h_w := http.Write (http.Body resp)
                    (http.WriteHeader (http.StatusCode resp)
                       (http.SetHeader "X-Cache" "MISS"
                          (copyResponseHeader (http.RespHeader resp)
                             http.NewResponseWriter)));
           h_fs := snd (set pc t_set fs1 key (http.Body resp));
           h_log := match fst (set pc t_set fs1 key (http.Body resp)) with
                    | Some err => ["error caching response: " +:+ Error err]
                    | None => []
                    end;
           h_sent := sent |}
    end.
Proof.
  intros Hurl key reqHeader fs1 sent Herr Hfound.
  unfold proxyHandler. rewrite (eqb_empty_false _ Hurl).
  fold key. subst fs1. destruct (get pc t_get fs key) as [res fs1].
  cbn [fst snd] in *. rewrite Herr, Hfound. fold reqHeader.
  destruct (upstream (http.Method r) (http.Query_url r) reqHeader); try reflexivity.
  destruct (set pc t_set fs1 key (http.Body resp)) as [serr fs2]. reflexivity.
Qed.

(** The error response written by [http.Error] on a fresh writer. *)
Lemma Error_fresh (msg : string) (code : Z) :
  http.checkWriteHeaderCode code = true -> http.informational code = false ->
  http.bodyAllowedForStatus code = true ->
  http.Error msg code http.NewResponseWriter
  = {| http.w_header := <["X-Content-Type-Options" := ["nosniff"]]>
                          (<["Content-Type" := ["text/plain; charset=utf-8"]]> ∅);
       http.w_status := Some code;
       http.w_contentLength := -1;
       http.w_written :=
         Z.of_nat (length (bytes_of_string (msg +:+ String "010" EmptyString)));
       http.w_body := bytes_of_string (msg +:+ String "010" EmptyString);
       http.w_panic := false |}.
Proof.
  intros Hck Hinf Hbody. unfold http.Error.
  assert (Hw : http.WriteHeader code
                 (http.SetHeader "X-Content-Type-Options" "nosniff"
                    (http.SetHeader "Content-Type" "text/plain; charset=utf-8"
                       http.NewResponseWriter))
               = {| http.w_header := <["X-Content-Type-Options" := ["nosniff"]]>
                          (<["Content-Type" := ["text/plain; charset=utf-8"]]> ∅);
                    http.w_status := Some code;
                    http.w_contentLength := -1;
                    http.w_written := 0;
                    http.w_body := [];
                    http.w_panic := false |}).
  { unfold http.WriteHeader.
    cbn [http.w_panic http.w_status http.SetHeader http.NewResponseWriter].
    now rewrite Hck, Hinf. }
  rewrite Hw. unfold http.Write.
  cbn [http.w_panic http.WriteHeader http.w_status http.w_written http.w_body
       http.w_header http.w_contentLength].
  destruct (bytes_of_string (msg +:+ String "010" EmptyString)) as [|b data];
    [reflexivity|].
  change (Z.of_nat (length (b :: data)) =? 0) with false. cbn iota.
  rewrite Hbody. reflexivity.
Qed.

(** The directory the handler leaves is the one it got, the one [get] left,
    or the one [set] left after [get]. *)
Lemma proxyHandler_fs_cases (pc : ProxyCache) (upstream : Upstream)
    (t_get t_set : time.Time) (fs : FS) (r : http.Request) :
  let key := getCacheKey pc (http.Method r) (http.Query_url r) (http.ReqHeader r) in
  let h := proxyHandler pc upstream t_get t_set fs r in
  h_fs h = fs
  \/ h_fs h = snd (get pc t_get fs key)
  \/ exists body, h_fs h = snd (set pc t_set (snd (get pc t_get fs key)) key body).
Proof.
  intros key h. subst h. unfold proxyHandler.
  destruct (String.eqb (http.Query_url r) EmptyString); [now left|].
  fold key. destruct (get pc t_get fs key) as [res fs1]. cbn [snd].
  destruct (g_err res); [now right; left|].
  destruct (g_found res); [now right; left|].
  destruct (upstream _ _ _) as [e|e|e|resp]; try (now right; left).
  right. right. exists (http.Body resp).
  destruct (set pc t_set fs1 key (http.Body resp)). reflexivity.
Qed.

(** X6: a request without the [url] parameter is answered 400 with the text
    "missing url parameter" before the cache is looked at: the directory is
    untouched whatever state it is in, nothing is sent upstream, nothing is
    logged. *)
Theorem missing_url_is_bad_request (pc : ProxyCache) (upstream : Upstream)
    (t_get t_set : time.Time) (fs : FS) (r : http.Request) :
  http.Query_url r = EmptyString ->
  proxyHandler pc upstream t_get t_set fs r
  = {| h_w := {| http.w_header :=
                   <["X-Content-Type-Options" := ["nosniff"]]>
                     (<["Content-Type" := ["text/plain; charset=utf-8"]]> ∅);
                 http.w_status := Some 400;
                 http.w_contentLength := -1;
                 http.w_written := 22;
                 http.w_body := bytes_of_string
                                  ("missing url parameter" +:+ String "010" EmptyString);
                 http.w_panic := false |};
       h_fs := fs; h_log := []; h_sent := [] |}.
Proof.
  intros Hurl. unfold proxyHandler. rewrite Hurl. reflexivity.
Qed.

(** X7: a fetch that fails is not cached.  After a miss, when the request
    cannot be built, the upstream cannot be reached or its body cannot be
    read, the answer is 500, 502 or 500 with the text of the error, nothing
    is logged, and the directory is the one the lookup left: [set] is not
    called. *)
Theorem failed_fetch_is_not_cached (pc : ProxyCache) (upstream : Upstream)
    (t_get t_set : time.Time) (fs : FS) (r : http.Request) :
  http.Query_url r <> EmptyString ->
  let key := getCacheKey pc (http.Method r) (http.Query_url r) (http.ReqHeader r) in
  let h := proxyHandler pc upstream t_get t_set fs r in
  g_err (fst (get pc t_get fs key)) = None ->
  g_found (fst (get pc t_get fs key)) = false ->
  (forall resp, upstream (http.Method r) (http.Query_url r)
                  (copyHeader (http.ReqHeader r) ∅) <> http.Fetched resp) ->
  h_fs h = snd (get pc t_get fs key)
  /\ h_log h = []
  /\ exists code prefix err,
       http.w_status (h_w h) = Some code
       /\ http.w_body (h_w h)
          = bytes_of_string ((prefix +:+ Error err) +:+ String "010" EmptyString)
       /\ match upstream (http.Method r) (http.Query_url r)
                  (copyHeader (http.ReqHeader r) ∅) with
          | http.NewRequestFailed e =>
              code = 500 /\ prefix = "error creating request: " /\ err = e
              /\ h_sent h = []
          | http.DoFailed e =>
              code = 502 /\ prefix = "proxy request failed: " /\ err = e
              /\ h_sent h <> []
          | http.ReadFailed e =>
              code = 500 /\ prefix = "error reading response: " /\ err = e
              /\ h_sent h <> []
          | http.Fetched _ => False
          end.
Proof.
  intros Hurl key h Herr Hfound Hfail. subst h.
  rewrite (proxyHandler_miss pc upstream t_get t_set fs r Hurl Herr Hfound).
  fold key.
  destruct (upstream (http.Method r) (http.Query_url r)
              (copyHeader (http.ReqHeader r) ∅)) as [e|e|e|resp] eqn:Hup.
  - cbn [h_fs h_log h_w h_sent]. split; [reflexivity|]. split; [reflexivity|].
    exists 500, "error creating request: ", e.
    rewrite Error_fresh by reflexivity. cbn. repeat split.
  - cbn [h_fs h_log h_w h_sent]. split; [reflexivity|]. split; [reflexivity|].
    exists 502, "proxy request failed: ", e.
    rewrite Error_fresh by reflexivity. cbn. repeat split. discriminate.
  - cbn [h_fs h_log h_w h_sent]. split; [reflexivity|]. split; [reflexivity|].
    exists 500, "error reading response: ", e.
    rewrite Error_fresh by reflexivity. cbn. repeat split. discriminate.
  - exfalso. now apply (Hfail resp).
Qed.

(** [get] on an entry older than the TTL that can be unlinked. *)
Lemma get_stale_unlinks (pc : ProxyCache) (now : time.Time) (fs : FS)
    (key : string) (f : file) (item : CacheItem) :
  entries fs !! (key +:+ ".gz") = Some (File f) ->
  f_readable f = true ->
  decode_content (f_data f) = inr item ->
  ttl pc < time.Sub now (Timestamp item) ->
  can_unlink fs (File f) = true ->
  get pc now fs key
  = ({| g_data := []; g_found := false; g_err := None |},
     with_entries fs (delete (key +:+ ".gz") (entries fs))).
Proof.
  intros E Hrd Hdec Hstale Hcan.
  assert (Hread : readCacheFile fs (getCachePath pc key) = inr item).
  { rewrite (readCacheFile_File fs (getCachePath pc key) f E). now rewrite Hrd. }
  rewrite (get_stored pc now fs key item Hread).
  apply Z.ltb_lt in Hstale. rewrite Hstale.
  unfold os.Remove. cbn [getCachePath p_name]. rewrite E.
  cbn in Hcan. now rewrite Hcan.
Qed.

(** X8: there is no serving of a stale copy when the upstream is down: an
    entry older than the TTL is unlinked by the lookup before the fetch, so
    when the fetch then fails the answer is 502 and the old copy is gone
    from the directory. *)
Theorem stale_entry_is_lost_when_upstream_fails (pc : ProxyCache)
    (upstream : Upstream) (t_get t_set : time.Time) (fs : FS) (r : http.Request)
    (f : file) (item : CacheItem) (err : error) :
  http.Query_url r <> EmptyString ->
  let key := getCacheKey pc (http.Method r) (http.Query_url r) (http.ReqHeader r) in
  let h := proxyHandler pc upstream t_get t_set fs r in
  entries fs !! (key +:+ ".gz") = Some (File f) ->
  f_readable f = true ->
  decode_content (f_data f) = inr item ->
  ttl pc < time.Sub t_get (Timestamp item) ->
  can_unlink fs (File f) = true ->
  upstream (http.Method r) (http.Query_url r) (copyHeader (http.ReqHeader r) ∅)
    = http.DoFailed err ->
  http.w_status (h_w h) = Some 502
  /\ entries (h_fs h) !! (key +:+ ".gz") = None
  /\ forall name, name <> key +:+ ".gz" -> entries (h_fs h) !! name = entries fs !! name.
Proof.
  intros Hurl key h E Hrd Hdec Hstale Hcan Hup. subst h.
  pose proof (get_stale_unlinks pc t_get fs key f item E Hrd Hdec Hstale Hcan) as Hget.
  rewrite (proxyHandler_miss pc upstream t_get t_set fs r Hurl);
    fold key; rewrite Hget; try reflexivity.
  rewrite Hup. cbn [h_w h_fs snd].
  rewrite Error_fresh by reflexivity. cbn [http.w_status entries with_entries].
  split; [reflexivity|]. split.
  - apply lookup_delete_eq.
  - intros name Hne. now rewrite lookup_delete_ne by congruence.
Qed.

(** A header map none of whose keys has an empty list of values is copied
    as it is. *)
Lemma copyHeader_all (src : http.Header) :
  map_Forall (fun _ vs => vs <> []) src -> copyHeader src ∅ = src.
Proof.
  intros Hall. apply map_eq. intros k. rewrite copyHeader_lookup.
  destruct (src !! k) as [[|v vs]|] eqn:E; try reflexivity.
  exfalso. now apply (Hall k [] E).
Qed.

(** X9: the handler goes upstream at most once per request, and what it
    sends is the request as it came: the same method, the target named by
    the [url] parameter, and for every header the same values in the same
    order (a header with no value at all is not sent).  When every header has
    a value, the header map sent is the header map received. *)
Theorem request_is_forwarded_as_it_came (pc : ProxyCache) (upstream : Upstream)
    (t_get t_set : time.Time) (fs : FS) (r : http.Request) :
  let h := proxyHandler pc upstream t_get t_set fs r in
  h_sent h = []
  \/ exists hdr,
       h_sent h = [(http.Method r, http.Query_url r, hdr)]
       /\ (forall k, hdr !! k = match http.ReqHeader r !! k with
                                | Some (v :: vs) => Some (v :: vs)
                                | _ => None
                                end)
       /\ (map_Forall (fun _ vs => vs <> []) (http.ReqHeader r) ->
           hdr = http.ReqHeader r).
Proof.
  intros h. subst h. unfold proxyHandler.
  destruct (String.eqb (http.Query_url r) EmptyString); [now left|].
  destruct (get pc t_get fs _) as [res fs1].
  destruct (g_err res); [now left|].
  destruct (g_found res); [now left|].
  assert (Hex : exists hdr,
             [(http.Method r, http.Query_url r, copyHeader (http.ReqHeader r) ∅)]
             = [(http.Method r, http.Query_url r, hdr)]
             /\ (forall k, hdr !! k = match http.ReqHeader r !! k with
                                      | Some (v :: vs) => Some (v :: vs)
                                      | _ => None
                                      end)
             /\ (map_Forall (fun _ vs => vs <> []) (http.ReqHeader r) ->
                 hdr = http.ReqHeader r)).
  { exists (copyHeader (http.ReqHeader r) ∅). split; [reflexivity|]. split.
    - apply copyHeader_lookup.
    - apply copyHeader_all. }
  destruct (upstream _ _ _) as [e|e|e|resp]; cbn [h_sent].
  - now left.
  - now right.
  - now right.
  - destruct (set pc t_set fs1 _ (http.Body resp)). cbn [h_sent]. now right.
Qed.


(** X11: a request touches no cache file but its own: every entry other
    than the file of the request's key is the same after the handler as
    before, whatever the outcome, and so is what the process may do in the
    directory. *)
Theorem handler_touches_only_its_entry (pc : ProxyCache) (upstream : Upstream)
    (t_get t_set : time.Time) (fs : FS) (r : http.Request) :
  let key := getCacheKey pc (http.Method r) (http.Query_url r) (http.ReqHeader r) in
  let h := proxyHandler pc upstream t_get t_set fs r in
  (forall name, name <> key +:+ ".gz" ->
     entries (h_fs h) !! name = entries fs !! name)
  /\ d_listable (h_fs h) = d_listable fs
  /\ d_writable (h_fs h) = d_writable fs.
Proof.
  intros key h.
  destruct (proxyHandler_fs_cases pc upstream t_get t_set fs r)
    as [H | [H | (body & H)]]; fold key in H; fold h in H; rewrite H.
  - repeat split.
  - split; [intros name Hne; now apply get_frame|]. apply get_flags.
  - split.
    + intros name Hne. rewrite set_frame by exact Hne. now apply get_frame.
    + destruct (set_flags pc t_set (snd (get pc t_get fs key)) key body) as [Hl Hw].
      destruct (get_flags pc t_get fs key) as [Hl' Hw']. split; congruence.
Qed.

(** After a request that went upstream, got a response and logged nothing,
    the file of the key holds the body of the response, stored at the clock
    reading of [set]. *)
Lemma fetched_is_stored {L : CodecLaws C} (pc : ProxyCache) (upstream : Upstream)
    (t_get t_set : time.Time) (fs : FS) (r : http.Request) (resp : http.Response) :
  http.Query_url r <> EmptyString ->
  let key := getCacheKey pc (http.Method r) (http.Query_url r) (http.ReqHeader r) in
  let h := proxyHandler pc upstream t_get t_set fs r in
  h_sent h <> [] ->
  upstream (http.Method r) (http.Query_url r) (copyHeader (http.ReqHeader r) ∅)
    = http.Fetched resp ->
  h_log h = [] ->
  readCacheFile (h_fs h) (getCachePath pc key)
  = inr {| Data := http.Body resp; Timestamp := t_set |}.
Proof.
  intros Hurl key h Hsent Hup Hlog.
  destruct (proxyHandler_sent pc upstream t_get t_set fs r Hsent)
    as (_ & Herr & Hfound).
  subst h.
  rewrite (proxyHandler_miss pc upstream t_get t_set fs r Hurl Herr Hfound)
    in Hlog |- *.
  rewrite Hup in Hlog |- *. cbn [h_fs h_log] in *. fold key in Hlog |- *.
  apply (set_stores pc t_set (snd (get pc t_get fs key)) _ key (http.Body resp)).
  destruct (set pc t_set (snd (get pc t_get fs key)) key (http.Body resp))
    as [[e|] fs2]; [discriminate|reflexivity].
Qed.

(** X12: a hit replays the body and nothing else of the upstream response.
    After a request was fetched and stored, the same request within the TTL
    is answered with status 200 whatever the status of the upstream was, with
    the stored body, and with a header map of exactly two entries,
    ["X-Cache: HIT"] and ["Content-Type: application/json"]: the headers of
    the upstream are not kept.  Nothing is sent upstream and the directory
    stays as it is. *)
Theorem hit_replays_the_body_only {L : CodecLaws C} (pc : ProxyCache)
    (upstream1 upstream2 : Upstream) (t_get1 t_set1 t_get2 t_set2 : time.Time)
    (fs : FS) (r : http.Request) (resp : http.Response) :
  http.Query_url r <> EmptyString ->
  let h1 := proxyHandler pc upstream1 t_get1 t_set1 fs r in
  h_sent h1 <> [] ->
  upstream1 (http.Method r) (http.Query_url r) (copyHeader (http.ReqHeader r) ∅)
    = http.Fetched resp ->
  h_log h1 = [] ->
  time.Sub t_get2 t_set1 <= ttl pc ->
  proxyHandler pc upstream2 t_get2 t_set2 (h_fs h1) r
  = {| h_w := {| http.w_header :=
                   <["Content-Type" := ["application/json"]]>
                     (<["X-Cache" := ["HIT"]]> ∅);
                 http.w_status := Some 200;
                 http.w_contentLength := -1;
                 http.w_written := Z.of_nat (length (http.Body resp));
                 http.w_body := http.Body resp;
                 http.w_panic := false |};
       h_fs := h_fs h1; h_log := []; h_sent := [] |}.
Proof.
  intros Hurl h1 Hsent Hup Hlog Hfresh.
  pose proof (fetched_is_stored pc upstream1 t_get1 t_set1 fs r resp Hurl Hsent
                Hup Hlog) as Hread.
  fold h1 in Hread.
  set (key := getCacheKey pc (http.Method r) (http.Query_url r) (http.ReqHeader r)) in *.
  assert (Hget : get pc t_get2 (h_fs h1) key
                 = ({| g_data := http.Body resp; g_found := true; g_err := None |},
                    h_fs h1)).
  { rewrite (get_stored pc t_get2 (h_fs h1) key _ Hread). cbn [Timestamp Data].
    destruct (ttl pc <? time.Sub t_get2 t_set1) eqn:E; [|reflexivity].
    apply Z.ltb_lt in E. lia. }
  rewrite (proxyHandler_hit pc upstream2 t_get2 t_set2 (h_fs h1) r Hurl);
    fold key; rewrite Hget; try reflexivity.
  cbn [fst snd g_data]. now rewrite hit_response.
Qed.

(** X13: past the TTL the entry is fetched again and replaced.  When the
    file of the key holds an item older than the TTL and can be unlinked, the
    fetch succeeds and the new item encodes, then nothing is logged and the
    file holds the new body with the clock reading of this [set], whatever
    the status code of the upstream is.  When that code settles the status
    of the response (101, or 200 and up), the answer has ["X-Cache: MISS"]
    and the code, and it has the new body when it takes one: the status
    allows a body and the body is within the declared length. *)
Theorem expired_entry_is_refreshed {L : CodecLaws C} (pc : ProxyCache)
    (upstream : Upstream) (t_get t_set : time.Time) (fs : FS) (r : http.Request)
    (f : file) (item : CacheItem) (resp : http.Response) (js : list byte) :
  http.Query_url r <> EmptyString ->
  let key := getCacheKey pc (http.Method r) (http.Query_url r) (http.ReqHeader r) in
  let h := proxyHandler pc upstream t_get t_set fs r in
  entries fs !! (key +:+ ".gz") = Some (File f) ->
  f_readable f = true ->
  decode_content (f_data f) = inr item ->
  ttl pc < time.Sub t_get (Timestamp item) ->
  can_unlink fs (File f) = true ->
  upstream (http.Method r) (http.Query_url r) (copyHeader (http.ReqHeader r) ∅)
    = http.Fetched resp ->
  json_Encode {| Data := http.Body resp; Timestamp := t_set |} = inr js ->
  h_log h = []
  /\ readCacheFile (h_fs h) (getCachePath pc key)
     = inr {| Data := http.Body resp; Timestamp := t_set |}
  /\ (http.StatusCode resp = 101 \/ 200 <= http.StatusCode resp <= 999 ->
      http.w_header (h_w h) !! "X-Cache" = Some ["MISS"]
      /\ http.w_status (h_w h) = Some (http.StatusCode resp)
      /\ http.w_body (h_w h)
         = if takes_body (http.StatusCode resp) (http.RespHeader resp) (http.Body resp)
           then http.Body resp else []).
Proof.
  intros Hurl key h E Hrd Hdec Hstale Hcan Hup Henc. subst h.
  pose proof (get_stale_unlinks pc t_get fs key f item E Hrd Hdec Hstale Hcan) as Hget.
  rewrite (proxyHandler_miss pc upstream t_get t_set fs r Hurl);
    fold key; rewrite Hget; try reflexivity.
  rewrite Hup. cbn [snd].
  set (fs1 := with_entries fs (delete (key +:+ ".gz") (entries fs))).
  assert (Hw : d_writable fs = true).
  { cbn in Hcan. now apply andb_true_iff in Hcan as [Hw _]. }
  assert (Hset : exists fs2, set pc t_set fs1 key (http.Body resp) = (None, fs2)).
  { unfold set, os.Create. cbn [getCachePath p_name].
    subst fs1. cbn [entries with_entries d_writable].
    rewrite lookup_delete_eq, Hw, Henc. eauto. }
  destruct Hset as (fs2 & Hset). rewrite Hset. cbn [fst snd h_w h_log h_fs].
  split; [reflexivity|]. split.
  - exact (set_stores pc t_set fs1 fs2 key (http.Body resp) Hset).
  - intros Hcode. rewrite (passed_on_response resp Hcode).
    cbn [http.w_header http.w_status http.w_body].
    split; [now rewrite passed_on_header_lookup|]. now split.
Qed.

End MoreHandlerFacts.

(* ===================================================================== *)
(** * More on the sweep and the cleanup routine *)
(* ===================================================================== *)

Lemma FS_eq (fs1 fs2 : FS) :
  entries fs1 = entries fs2 -> d_listable fs1 = d_listable fs2 ->
  d_writable fs1 = d_writable fs2 -> fs1 = fs2.
Proof. destruct fs1, fs2. cbn. now intros -> -> ->. Qed.

Section MoreSweepFacts.

Context {C : Codec}.

Lemma cleanExpiredCache_unlistable (pc : ProxyCache) (now : time.Time) (fs : FS) :
  d_listable fs = false ->
  cleanExpiredCache pc now fs
  = (Some (errorString ("failed to read cache directory: "
                          +:+ Error (PathError "open" (cacheDir pc) EACCES))),
     fs, []).
Proof. intros H. unfold cleanExpiredCache, os.ReadDir. now rewrite H. Qed.

(** X14: sweeping twice is sweeping once: a second sweep at the same clock
    reading, right after the first, leaves the directory exactly as the
    first left it. *)
Theorem sweep_is_idempotent (pc : ProxyCache) (now : time.Time) (fs : FS) :
  d_listable fs = true ->
  snd (fst (cleanExpiredCache pc now (snd (fst (cleanExpiredCache pc now fs)))))
  = snd (fst (cleanExpiredCache pc now fs)).
Proof.
  intros Hls.
  destruct (cleanExpiredCache_spec pc now fs Hls) as (fs1 & Hrun1 & Hl1 & Hw1 & Hlook1).
  rewrite Hrun1. cbn [fst snd].
  assert (Hls1 : d_listable fs1 = true) by congruence.
  destruct (cleanExpiredCache_spec pc now fs1 Hls1)
    as (fs2 & Hrun2 & Hl2 & Hw2 & Hlook2).
  rewrite Hrun2. cbn [fst snd].
  apply FS_eq; try congruence.
  apply map_eq. intros name. rewrite Hlook2.
  destruct (entries fs1 !! name) as [n|] eqn:E1; [|reflexivity]. cbn.
  rewrite (can_unlink_ext fs fs1 n Hw1).
  rewrite Hlook1 in E1.
  destruct (entries fs !! name) as [n0|]; [|discriminate]. cbn in E1.
  destruct (expired_entry pc now n0 && can_unlink fs n0) eqn:Hx; [discriminate|].
  injection E1 as <-. now rewrite Hx.
Qed.

(** X15: a file that does not decode is never got rid of.  Neither a sweep,
    at any time, nor a request, for any target and with any outcome of the
    fetch, removes or rewrites a readable cache file that fails to
    decompress or decode; and every request for its key is answered 500
    without going upstream. *)
Theorem corrupt_entry_is_permanent (pc : ProxyCache) (fs : FS) (key : string)
    (f : file) (err : error) :
  entries fs !! (key +:+ ".gz") = Some (File f) ->
  f_readable f = true ->
  decode_content (f_data f) = inl err ->
  (forall now,
      entries (snd (fst (cleanExpiredCache pc now fs))) !! (key +:+ ".gz")
      = Some (File f))
  /\ (forall upstream t_get t_set r,
        entries (h_fs (proxyHandler pc upstream t_get t_set fs r)) !! (key +:+ ".gz")
        = Some (File f))
  /\ (forall upstream t_get t_set r,
        http.Query_url r <> EmptyString ->
        getCacheKey pc (http.Method r) (http.Query_url r) (http.ReqHeader r) = key ->
        http.w_status (h_w (proxyHandler pc upstream t_get t_set fs r)) = Some 500
        /\ h_sent (proxyHandler pc upstream t_get t_set fs r) = []).
Proof.
  intros E Hrd Hdec. split; [|split].
  - intros now. destruct (d_listable fs) eqn:Hls.
    + destruct (cleanExpiredCache_spec pc now fs Hls) as (fs1 & Hrun & _ & _ & Hlook).
      rewrite Hrun. cbn [fst snd]. rewrite Hlook, E. cbn.
      now rewrite Hrd, Hdec.
    + now rewrite (cleanExpiredCache_unlistable pc now fs Hls).
  - intros upstream t_get t_set r.
    set (key' := getCacheKey pc (http.Method r) (http.Query_url r) (http.ReqHeader r)).
    destruct (decide (key' = key)) as [Hk|Hk].
    + destruct (String.eqb (http.Query_url r) EmptyString) eqn:Hurl.
      * unfold proxyHandler. rewrite Hurl. exact E.
      * apply String.eqb_neq in Hurl.
        pose proof (get_corrupt pc t_get fs key f err E Hrd Hdec) as Hget.
        rewrite (proxyHandler_cache_error pc upstream t_get t_set fs r err Hurl)
          by (fold key'; rewrite Hk, Hget; reflexivity).
        cbn [h_fs]. fold key'. rewrite Hk, Hget. exact E.
    + assert (Hne : key +:+ ".gz" <> key' +:+ ".gz") by (apply key_file_ne; congruence).
      destruct (proxyHandler_fs_cases pc upstream t_get t_set fs r)
        as [H | [H | (body & H)]]; fold key' in H; rewrite H.
      * exact E.
      * rewrite get_frame by exact Hne. exact E.
      * rewrite set_frame by exact Hne. rewrite get_frame by exact Hne. exact E.
  - intros upstream t_get t_set r Hurl Hk.
    pose proof (get_corrupt pc t_get fs key f err E Hrd Hdec) as Hget.
    rewrite (proxyHandler_cache_error pc upstream t_get t_set fs r err Hurl)
      by (rewrite Hk, Hget; reflexivity).
    cbn [h_w h_sent]. rewrite Error_fresh by reflexivity. now split.
Qed.

Lemma cleanup_tick_spec (pc : ProxyCache) (now : time.Time) (fs : FS) (lg : Log) :
  d_listable fs = true ->
  exists fs1 lg1,
    cleanup_tick pc (fs, lg) now = (fs1, lg1)
    /\ d_listable fs1 = true /\ d_writable fs1 = d_writable fs
    /\ forall name,
         entries fs1 !! name
         = n ← entries fs !! name;
           if expired_entry pc now n && can_unlink fs n then None else Some n.
Proof.
  intros Hls.
  destruct (cleanExpiredCache_spec pc now fs Hls) as (fs1 & Hrun & Hl1 & Hw1 & Hlook1).
  unfold cleanup_tick. cbn [fst snd]. rewrite Hrun.
  eexists _, _. split; [reflexivity|]. split; [congruence|]. split; assumption.
Qed.

Lemma cleanup_ticks_spec (pc : ProxyCache) (ticks : list time.Time) :
  forall (fs : FS) (lg : Log),
    d_listable fs = true ->
    d_listable (fst (foldl (cleanup_tick pc) (fs, lg) ticks)) = true
    /\ d_writable (fst (foldl (cleanup_tick pc) (fs, lg) ticks)) = d_writable fs
    /\ forall name,
         entries (fst (foldl (cleanup_tick pc) (fs, lg) ticks)) !! name
         = n ← entries fs !! name;
           if existsb (fun now => expired_entry pc now n) ticks && can_unlink fs n
           then None else Some n.
Proof.
  induction ticks as [|now ticks IH]; intros fs lg Hls.
  - cbn. repeat split; try assumption.
    intros name. now destruct (entries fs !! name).
  - cbn [foldl].
    destruct (cleanup_tick_spec pc now fs lg Hls)
      as (fs1 & lg1 & Htick & Hls1 & Hw1 & Hlook1).
    rewrite Htick.
    destruct (IH fs1 lg1 Hls1) as (Hl & Hw & Hlook).
    split; [exact Hl|]. split; [congruence|].
    intros name. rewrite Hlook, Hlook1.
    destruct (entries fs !! name) as [n|]; [|reflexivity]. cbn.
    destruct (expired_entry pc now n) eqn:Hx; destruct (can_unlink fs n) eqn:Hc;
      cbn; try rewrite (can_unlink_ext fs fs1 n Hw1), Hc; try reflexivity.
    + now rewrite !andb_false_r.
Qed.

(** X16: what the cleanup routine has removed after any number of ticks: an
    entry is gone exactly when it was stale at one of the ticks and can be
    unlinked; every other entry is as it was at the start.  In particular an
    entry outlives every tick at which its age is within the TTL. *)
Theorem cleanup_routine_removes_what_expired (pc : ProxyCache)
    (ticks : list time.Time) (fs : FS) :
  d_listable fs = true ->
  forall name,
    entries (fst (startCleanupRoutine pc ticks fs)) !! name
    = n ← entries fs !! name;
      if existsb (fun now => expired_entry pc now n) ticks && can_unlink fs n
      then None else Some n.
Proof.
  intros Hls. unfold startCleanupRoutine.
  apply (cleanup_ticks_spec pc ticks fs [] Hls).
Qed.

(** X17: when the directory cannot be listed the sweep gives up before
    looking at any file: it returns the error "failed to read cache
    directory", and the cleanup routine logs it once per tick and goes on
    ticking; the directory is not changed. *)
Theorem cleanup_routine_logs_listing_failure (pc : ProxyCache)
    (ticks : list time.Time) (fs : FS) :
  d_listable fs = false ->
  startCleanupRoutine pc ticks fs
  = (fs, map (fun _ => "Cache cleanup error: failed to read cache directory: open "
                        +:+ cacheDir pc +:+ ": permission denied") ticks).
Proof.
  intros Hls. unfold startCleanupRoutine.
  assert (H : forall lg,
             foldl (cleanup_tick pc) (fs, lg) ticks
             = (fs, lg ++ map (fun _ => "Cache cleanup error: failed to read cache directory: open "
                                     +:+ cacheDir pc +:+ ": permission denied") ticks)).
  { induction ticks as [|now ticks IH]; intros lg.
    - cbn. now rewrite app_nil_r.
    - cbn [foldl map].
      assert (Htick : cleanup_tick pc (fs, lg) now
                      = (fs, lg ++ ["Cache cleanup error: failed to read cache directory: open "
                                    +:+ cacheDir pc +:+ ": permission denied"])).
      { unfold cleanup_tick. cbn [fst snd].
        now rewrite (cleanExpiredCache_unlistable pc now fs Hls). }
      rewrite Htick, IH. now rewrite <- app_assoc. }
  apply (H []).
Qed.

Lemma leb_ne_ltb (s1 s2 : string) :
  String.leb s1 s2 = true -> s1 <> s2 -> String.ltb s1 s2 = true.
Proof.
  unfold String.leb, String.ltb. intros Hle Hne.
  destruct (String.compare s1 s2) eqn:E; [|reflexivity|discriminate].
  apply String.compare_eq_iff in E. contradiction.
Qed.

(** The listing of a directory goes up in the names, strictly. *)
Lemma listing_increasing (l : list (string * node)) :
  Sorted (fun a b => String.leb (fst a) (fst b) = true) l ->
  NoDup l.*1 ->
  Sorted (fun a b => String.ltb (fst a) (fst b) = true) l.
Proof.
  induction l as [|a l IH]; intros Hs Hnd; [constructor|].
  apply Sorted_inv in Hs as [Hs Hhd]. rewrite fmap_cons in Hnd.
  apply NoDup_cons in Hnd as [Ha Hnd].
  constructor; [now apply IH|].
  destruct l as [|b l]; constructor.
  apply HdRel_inv in Hhd. apply leb_ne_ltb; [exact Hhd|].
  intros Heq. apply Ha. rewrite fmap_cons, Heq. left.
Qed.

(** X23: the sweep takes the entries in the order of their names, the order
    in which [os.ReadDir] returns them.  The log of a sweep is made of the
    lines of the entries, each entry of the directory taken once, in
    strictly increasing order of the names compared byte by byte. *)
Theorem sweep_logs_in_name_order (pc : ProxyCache) (now : time.Time) (fs : FS) :
  d_listable fs = true ->
  exists l : list (string * node),
    (forall name n, (name, n) ∈ l <-> entries fs !! name = Some n)
    /\ Sorted (fun a b => String.ltb (fst a) (fst b) = true) l
    /\ snd (cleanExpiredCache pc now fs) = omap (sweep_line pc now fs) l.
Proof.
  intros Hls. exists (os.listing fs). split; [|split].
  - intros name n. apply elem_of_listing.
  - apply listing_increasing; [apply listing_Sorted | apply NoDup_fst_listing].
  - destruct (cleanExpiredCache_spec pc now fs Hls) as (fs' & Hrun & _).
    now rewrite Hrun.
Qed.

End MoreSweepFacts.

(* ===================================================================== *)
(** * The shape of a key, and the configured TTL *)
(* ===================================================================== *)

Lemma digit_in_hextable (v : byte) :
  existsb (Ascii.eqb (hex.digit (Z.shiftr (byte_to_Z v) 4)))
          (list_ascii_of_string hex.hextable) = true
  /\ existsb (Ascii.eqb (hex.digit (Z.land (byte_to_Z v) 15)))
             (list_ascii_of_string hex.hextable) = true.
Proof. destruct v; split; reflexivity. Qed.

Lemma existsb_eqb_In (c : ascii) (l : list ascii) :
  existsb (Ascii.eqb c) l = true -> In c l.
Proof.
  intros H. apply existsb_exists in H as (x & Hx & Heq).
  apply Ascii.eqb_eq in Heq. now subst.
Qed.

Lemma EncodeToString_hex (src : list byte) :
  Forall (fun c => In c (list_ascii_of_string hex.hextable))
         (list_ascii_of_string (hex.EncodeToString src)).
Proof.
  induction src as [|v src IH]; [constructor|].
  destruct (digit_in_hextable v) as [Hhi Hlo].
  cbn [hex.EncodeToString list_ascii_of_string].
  constructor; [now apply existsb_eqb_In|].
  constructor; [now apply existsb_eqb_In | exact IH].
Qed.

(** X18: a key is sixty-four characters, each one of [0123456789abcdef],
    whatever the method and the target are.  So no character of a target
    reaches the name of the cache file: the name holds no path separator and
    no dot before the [.gz] the cache appends. *)
Theorem key_is_64_hex_digits (pc : ProxyCache) (method url : string)
    (hd : http.Header) :
  String.length (getCacheKey pc method url hd) = 64%nat
  /\ Forall (fun c => In c (list_ascii_of_string "0123456789abcdef"))
            (list_ascii_of_string (getCacheKey pc method url hd))
  /\ ~ In "/"%char (list_ascii_of_string (getCacheKey pc method url hd))
  /\ ~ In "."%char (list_ascii_of_string (getCacheKey pc method url hd)).
Proof.
  pose proof (EncodeToString_hex
                (sha256.sum (bytes_of_string method ++ bytes_of_string url))) as Hhex.
  rewrite <- getCacheKey_eq with (pc := pc) (hd := hd) in Hhex.
  split; [apply getCacheKey_length|]. split; [exact Hhex|].
  rewrite List.Forall_forall in Hhex.
  split; intros Hin; apply Hhex in Hin; cbn in Hin;
    repeat (destruct Hin as [Hin|Hin]; [discriminate|]); exact Hin.
Qed.

Lemma list_ascii_app (s t : string) :
  list_ascii_of_string (s +:+ t) = list_ascii_of_string s ++ list_ascii_of_string t.
Proof.
  induction s as [|c s IH]; [reflexivity|].
  change (String c s +:+ t) with (String c (s +:+ t)).
  cbn [list_ascii_of_string]. now rewrite IH.
Qed.

(** The name of a cache file is a name a directory entry can have. *)
Lemma key_file_name (pc : ProxyCache) (method url : string) (hd : http.Header) :
  file_name (getCacheKey pc method url hd +:+ ".gz").
Proof.
  pose proof (EncodeToString_hex
                (sha256.sum (bytes_of_string method ++ bytes_of_string url))) as Hhex.
  rewrite <- getCacheKey_eq with (pc := pc) (hd := hd) in Hhex.
  pose proof (getCacheKey_length pc method url hd) as Hlen.
  assert (Hl : String.length (getCacheKey pc method url hd +:+ ".gz") = 67%nat).
  { rewrite append_length, Hlen. reflexivity. }
  split; [|split; [|split]].
  - intros H. rewrite H in Hl. discriminate.
  - intros H. rewrite H in Hl. discriminate.
  - intros H. rewrite H in Hl. discriminate.
  - intros c Hin. rewrite list_ascii_app in Hin.
    apply in_app_or in Hin as [Hin|Hin].
    + rewrite List.Forall_forall in Hhex. apply Hhex in Hin. cbn in Hin.
      intros ->.
      repeat (destruct Hin as [Hin|Hin]; [discriminate|]). exact Hin.
    + cbn in Hin. intros ->.
      repeat (destruct Hin as [Hin|Hin]; [discriminate|]). exact Hin.
Qed.

(** X22: the path of a cache file is the cleaned cache directory, a
    separator, the key and [.gz], whatever the request is: nothing of the
    target reaches the directory part.  So two requests have the same cache
    file path only when they have the same key; and under the directory
    that [main] passes, [./cache], the file of a key is [cache/<key>.gz]. *)
Theorem cache_path_is_directory_and_key (pc : ProxyCache) (method url : string)
    (hd : http.Header) :
  let key := getCacheKey pc method url hd in
  path_string (getCachePath pc key) = dir_prefix (cacheDir pc) +:+ key +:+ ".gz"
  /\ (forall method' url' hd',
        path_string (getCachePath pc (getCacheKey pc method' url' hd'))
        = path_string (getCachePath pc key) ->
        getCacheKey pc method' url' hd' = key)
  /\ (cacheDir pc = "./cache" ->
      path_string (getCachePath pc key) = "cache/" +:+ key +:+ ".gz").
Proof.
  intros key.
  assert (Hpath : forall m u h,
            path_string (getCachePath pc (getCacheKey pc m u h))
            = dir_prefix (cacheDir pc) +:+ getCacheKey pc m u h +:+ ".gz").
  { intros m u h. unfold path_string, getCachePath. cbn [p_dir p_name].
    apply Join_file_name, key_file_name. }
  split; [apply Hpath|]. split.
  - intros method' url' hd' Heq. unfold key in *. rewrite !Hpath in Heq.
    apply String.app_inj in Heq. now apply append_inv_tail in Heq.
  - intros Hdir. unfold key. rewrite Hpath, Hdir. reflexivity.
Qed.

Lemma Atoi_range (s : string) (v : Z) :
  strconv.Atoi s = Some v -> strconv.minInt64 <= v <= strconv.maxInt64.
Proof.
  unfold strconv.Atoi. destruct s as [|c rest]; [discriminate|].
  destruct (if Ascii.eqb c "-" || Ascii.eqb c "+" then rest else String c rest);
    [discriminate|].
  destruct (strconv.digits _ 0) as [n|]; [|discriminate].
  destruct ((strconv.minInt64 <=? (if Ascii.eqb c "-" then - n else n))
            && ((if Ascii.eqb c "-" then - n else n) <=? strconv.maxInt64)) eqn:E;
    [|discriminate].
  intros [= <-]. apply andb_true_iff in E as [H1 H2].
  apply Z.leb_le in H1. apply Z.leb_le in H2. lia.
Qed.

Example Atoi_samples :
  strconv.Atoi "60" = Some 60
  /\ strconv.Atoi "+5" = Some 5
  /\ strconv.Atoi "-3" = Some (-3)
  /\ strconv.Atoi "0060" = Some 60
  /\ strconv.Atoi "9223372036854775807" = Some 9223372036854775807
  /\ strconv.Atoi "9223372036854775808" = None
  /\ strconv.Atoi "-9223372036854775808" = Some (-9223372036854775808)
  /\ strconv.Atoi "1_000" = None
  /\ strconv.Atoi " 60" = None
  /\ strconv.Atoi "60s" = None
  /\ strconv.Atoi "-" = None
  /\ strconv.Atoi "1.5" = None.
Proof. repeat split. Qed.

Lemma wrap64_small (x : Z) :
  strconv.minInt64 <= x <= strconv.maxInt64 -> wrap64 x = x.
Proof.
  unfold wrap64, strconv.minInt64, strconv.maxInt64. intros H.
  rewrite Z.mod_small by lia. lia.
Qed.

(** X19: the TTL that [main] configures.  The number of seconds is the value
    of [CACHE_TTL_SECONDS] when that is a positive decimal number that fits
    an [int], else 3600, so it is always at least one; a warning is logged
    exactly when the variable is set and is not such a number.  Up to
    9223372036 seconds the TTL is that many seconds; above, the product
    overflows and the TTL is not the configured time but something
    smaller. *)
Theorem configured_ttl (ttlStr : string) :
  let parsed := if String.eqb ttlStr EmptyString then None else strconv.Atoi ttlStr in
  let secs := ttlSeconds parsed in
  fst (main_cacheTTL ttlStr) = cacheTTL secs
  /\ 1 <= secs <= strconv.maxInt64
  /\ (secs <> 3600 -> strconv.Atoi ttlStr = Some secs)
  /\ (snd (main_cacheTTL ttlStr) = [] <->
      ttlStr = EmptyString \/ exists val, strconv.Atoi ttlStr = Some val /\ 0 < val)
  /\ (secs <= 9223372036 ->
      cacheTTL secs = secs * time.Second /\ 0 < cacheTTL secs)
  /\ (9223372036 < secs -> cacheTTL secs < secs * time.Second).
Proof.
  intros parsed secs.
  assert (Hmain : fst (main_cacheTTL ttlStr) = cacheTTL secs).
  { unfold main_cacheTTL, secs, parsed.
    destruct (String.eqb ttlStr EmptyString); reflexivity. }
  assert (Hsecs : 1 <= secs <= strconv.maxInt64
                  /\ (secs <> 3600 -> strconv.Atoi ttlStr = Some secs)).
  { unfold secs, parsed, ttlSeconds.
    destruct (String.eqb ttlStr EmptyString);
      [unfold strconv.maxInt64; split; [lia|congruence]|].
    destruct (strconv.Atoi ttlStr) as [val|] eqn:Ha;
      [|unfold strconv.maxInt64; split; [lia|congruence]].
    pose proof (Atoi_range _ _ Ha) as Hr.
    destruct (0 <? val) eqn:Hpos.
    - apply Z.ltb_lt in Hpos. split; [lia|reflexivity].
    - unfold strconv.maxInt64. split; [lia|congruence]. }
  destruct Hsecs as [Hrange Hval].
  split; [exact Hmain|]. split; [exact Hrange|]. split; [exact Hval|].
  split; [|split].
  - unfold main_cacheTTL.
    destruct (String.eqb ttlStr EmptyString) eqn:He.
    + apply String.eqb_eq in He. cbn [snd]. split; [now left|reflexivity].
    + apply String.eqb_neq in He. cbn [snd].
      destruct (strconv.Atoi ttlStr) as [val|].
      * destruct (0 <? val) eqn:Hpos.
        -- apply Z.ltb_lt in Hpos. split; [right; eauto|reflexivity].
        -- apply Z.ltb_ge in Hpos. split; [discriminate|].
           intros [H|(v & [= <-] & Hv)]; [contradiction|lia].
      * split; [discriminate|]. intros [H|(v & H & _)]; [contradiction|discriminate].
  - intros Hsmall. unfold cacheTTL.
    rewrite (wrap64_small secs) by (unfold strconv.minInt64; lia).
    rewrite wrap64_small;
      unfold time.Second, strconv.minInt64, strconv.maxInt64 in *; lia.
  - intros Hbig. unfold cacheTTL.
    rewrite (wrap64_small secs) by (unfold strconv.minInt64; lia).
    pose proof (wrap64_range (secs * time.Second)) as Hw.
    unfold time.maxDuration, time.Second in *. lia.
Qed.

(* ===================================================================== *)
(** * The cache without expiry, and its files under the cache with expiry *)
(* ===================================================================== *)

Section VariantFacts.

Context {C : Codec}.

(** X20: in the variant without expiry, what [set] stores [get] returns, at
    any later time: after a successful [set] the key is found with exactly
    the payload, and no other entry was touched. *)
Theorem variant_set_get_roundtrip {L : CodecLaws C} (pc : v0.ProxyCache)
    (fs fs' : FS) (k : string) (P : list byte) :
  v0.set pc fs k P = (None, fs') ->
  v0.get pc fs' k = {| g_data := P; g_found := true; g_err := None |}
  /\ forall name, name <> k +:+ ".gz" -> entries fs' !! name = entries fs !! name.
Proof.
  unfold v0.set.
  destruct (os.Create fs (v0.getCachePath pc k)) as [err|fs1] eqn:Hc; [discriminate|].
  intros [= <-].
  destruct (Create_inv _ _ _ Hc) as (f0 & Hf0 & Hread & Hother).
  split.
  - unfold v0.get, os.Open.
    rewrite (WriteFile_lookup fs1 (v0.getCachePath pc k) f0 (gzip_Write P) Hf0).
    cbn [f_readable]. rewrite Hread.
    unfold gzip_NewReader_file. cbn [os.ReadAll f_data].
    rewrite gzip_read_write. reflexivity.
  - intros name Hne. rewrite WriteFile_other by exact Hne. now apply Hother.
Qed.

(** X21: a file written by the variant without expiry is not a file of the
    cache with expiry.  The two use the same key and the same file name, and
    the cache with expiry decodes the body that the variant compressed as if
    it were the JSON record of an item: when the body is not one, every
    request for the key is answered 500 with the decoder's error, nothing is
    fetched, and the file stays. *)
Theorem variant_entry_under_current_cache {L : CodecLaws C} (pc : ProxyCache)
    (fs fs' : FS) (k : string) (body : list byte) :
  v0.set {| v0.cacheDir := cacheDir pc |} fs k body = (None, fs') ->
  readCacheFile fs' (getCachePath pc k)
  = match json_Decode {| s_bytes := body; s_err := None |} with
    | inl msg => inl (errorString msg)
    | inr item => inr item
    end
  /\ forall msg upstream t_get t_set r,
       json_Decode {| s_bytes := body; s_err := None |} = inl msg ->
       http.Query_url r <> EmptyString ->
       getCacheKey pc (http.Method r) (http.Query_url r) (http.ReqHeader r) = k ->
       proxyHandler pc upstream t_get t_set fs' r
       = {| h_w := http.Error ("cache error: " +:+ msg)
                     http.StatusInternalServerError http.NewResponseWriter;
            h_fs := fs'; h_log := []; h_sent := [] |}.
Proof.
  unfold v0.set.
  destruct (os.Create fs _) as [err|fs1] eqn:Hc; [discriminate|].
  intros [= <-].
  destruct (Create_inv _ _ _ Hc) as (f0 & Hf0 & Hread & _).
  change (v0.getCachePath {| v0.cacheDir := cacheDir pc |} k)
    with (getCachePath pc k) in *.
  pose proof (WriteFile_lookup fs1 (getCachePath pc k) f0 (gzip_Write body) Hf0) as E.
  assert (Hr : readCacheFile (os.WriteFile fs1 (getCachePath pc k) (gzip_Write body))
                 (getCachePath pc k)
               = match json_Decode {| s_bytes := body; s_err := None |} with
                 | inl msg => inl (errorString msg)
                 | inr item => inr item
                 end).
  { rewrite (readCacheFile_File _ _ _ E). cbn [f_readable f_data]. rewrite Hread.
    unfold decode_content. now rewrite gzip_read_write. }
  split; [exact Hr|].
  intros msg upstream t_get t_set r Hdec Hurl Hk.
  rewrite Hdec in Hr.
  assert (Hget : get pc t_get (os.WriteFile fs1 (getCachePath pc k) (gzip_Write body)) k
                 = ({| g_data := []; g_found := false;
                       g_err := Some (errorString msg) |},
                    os.WriteFile fs1 (getCachePath pc k) (gzip_Write body))).
  { unfold get. rewrite Hr. reflexivity. }
  rewrite (proxyHandler_cache_error pc upstream t_get t_set _ r (errorString msg) Hurl)
    by (rewrite Hk, Hget; reflexivity).
  rewrite Hk, Hget. reflexivity.
Qed.

End VariantFacts.

(* ===================================================================== *)
(** * These statements on the sample worlds *)
(* ===================================================================== *)

#[local] Existing Instance RefCodec.codec.

Lemma get_hit_is_fresh_witness :
  exists f item,
    entries Sample.fs_stored !! (Sample.key +:+ ".gz") = Some (File f)
    /\ f_readable f = true
    /\ decode_content (f_data f) = inr item
    /\ g_data {| g_data := Sample.payload; g_found := true; g_err := None |} = Data item
    /\ g_err {| g_data := Sample.payload; g_found := true; g_err := None |} = None
    /\ time.Sub (Sample.t0 + time.Second) (Timestamp item) <= ttl Sample.pc
    /\ Sample.fs_stored = Sample.fs_stored.
Proof.
  apply (@get_hit_is_fresh RefCodec.codec Sample.pc (Sample.t0 + time.Second)
           Sample.fs_stored Sample.fs_stored Sample.key
           {| g_data := Sample.payload; g_found := true; g_err := None |}).
  - vm_compute. reflexivity.
  - reflexivity.
Defined.

Lemma set_overwrites_witness :
  exists fs2,
    set Sample.pc (Sample.t0 + 10 * time.Second) Scenes.fs_first Sample.key
        Scenes.payload2 = (None, fs2)
    /\ size (entries fs2) = size (entries Scenes.fs_first)
    /\ get Sample.pc (Sample.t0 + 20 * time.Second) fs2 Sample.key
       = ({| g_data := Scenes.payload2; g_found := true; g_err := None |}, fs2).
Proof.
  apply (@set_overwrites RefCodec.codec RefCodec_laws Sample.pc Sample.t0
           (Sample.t0 + 10 * time.Second) (Sample.t0 + 20 * time.Second)
           Sample.fs_empty Scenes.fs_first Sample.key Sample.payload
           Scenes.payload2 Scenes.js2).
  - vm_compute. reflexivity.
  - vm_compute. reflexivity.
  - vm_compute. discriminate.
Defined.

Lemma set_keeps_other_keys_witness :
  fst (get Sample.pc (Sample.t0 + 20 * time.Second)
         (snd (set Sample.pc (Sample.t0 + 10 * time.Second) Scenes.fs_first
                 Scenes.key2 Scenes.payload2))
         Sample.key)
  = {| g_data := Sample.payload; g_found := true; g_err := None |}.
Proof.
  apply (@set_keeps_other_keys RefCodec.codec RefCodec_laws Sample.pc Sample.t0
           (Sample.t0 + 10 * time.Second) (Sample.t0 + 20 * time.Second)
           Sample.fs_empty Scenes.fs_first Sample.key Scenes.key2).
  - vm_compute. discriminate.
  - vm_compute. reflexivity.
  - vm_compute. discriminate.
Defined.

Lemma missing_url_is_bad_request_witness :
  proxyHandler Sample.pc Sample.upstream Sample.t0 Sample.t0 Sample.fs_corrupt
    Scenes.req_nourl
  = {| h_w := {| http.w_header :=
                   <["X-Content-Type-Options" := ["nosniff"]]>
                     (<["Content-Type" := ["text/plain; charset=utf-8"]]> ∅);
                 http.w_status := Some 400;
                 http.w_contentLength := -1;
                 http.w_written := 22;
                 http.w_body := bytes_of_string
                                  ("missing url parameter" +:+ String "010" EmptyString);
                 http.w_panic := false |};
       h_fs := Sample.fs_corrupt; h_log := []; h_sent := [] |}.
Proof.
  apply (@missing_url_is_bad_request RefCodec.codec). reflexivity.
Defined.

Lemma failed_fetch_is_not_cached_witness :
  h_fs (proxyHandler Sample.pc Scenes.upstream_down Sample.t0 Sample.t0
          Sample.fs_empty Sample.req) = Sample.fs_empty
  /\ h_log (proxyHandler Sample.pc Scenes.upstream_down Sample.t0 Sample.t0
              Sample.fs_empty Sample.req) = [].
Proof.
  destruct (@failed_fetch_is_not_cached RefCodec.codec Sample.pc Scenes.upstream_down
              Sample.t0 Sample.t0 Sample.fs_empty Sample.req)
    as (Hfs & Hlog & _).
  - discriminate.
  - vm_compute. reflexivity.
  - vm_compute. reflexivity.
  - intros resp. discriminate.
  - split; [|exact Hlog]. rewrite Hfs. vm_compute. reflexivity.
Defined.

Lemma stale_entry_is_lost_when_upstream_fails_witness :
  http.w_status (h_w (proxyHandler Sample.pc Scenes.upstream_down Sample.t0
                        Sample.t0 Scenes.fs_stale Sample.req)) = Some 502
  /\ entries (h_fs (proxyHandler Sample.pc Scenes.upstream_down Sample.t0
                      Sample.t0 Scenes.fs_stale Sample.req))
       !! (Sample.key +:+ ".gz") = None.
Proof.
  destruct (@stale_entry_is_lost_when_upstream_fails RefCodec.codec Sample.pc
              Scenes.upstream_down Sample.t0 Sample.t0 Scenes.fs_stale Sample.req
              Scenes.old_file
              {| Data := Sample.payload;
                 Timestamp := Sample.t0 - 3600 * time.Second |}
              (errorString "dial tcp 192.0.2.1:80: connect: connection refused"))
    as (Hst & Hgone & _).
  - discriminate.
  - vm_compute. reflexivity.
  - reflexivity.
  - vm_compute. reflexivity.
  - vm_compute. reflexivity.
  - reflexivity.
  - reflexivity.
  - split; [exact Hst | exact Hgone].
Defined.


Lemma hit_replays_the_body_only_witness :
  proxyHandler Sample.pc Scenes.upstream_down (Sample.t0 + 30 * time.Second)
    (Sample.t0 + 30 * time.Second)
    (h_fs (proxyHandler Sample.pc Scenes.upstream404 Sample.t0 Sample.t0
             Sample.fs_empty Sample.req))
    Sample.req
  = {| h_w := {| http.w_header :=
                   <["Content-Type" := ["application/json"]]>
                     (<["X-Cache" := ["HIT"]]> ∅);
                 http.w_status := Some 200;
                 http.w_contentLength := -1;
                 http.w_written := Z.of_nat (length (http.Body Scenes.resp404));
                 http.w_body := http.Body Scenes.resp404;
                 http.w_panic := false |};
       h_fs := h_fs (proxyHandler Sample.pc Scenes.upstream404 Sample.t0 Sample.t0
                       Sample.fs_empty Sample.req);
       h_log := []; h_sent := [] |}.
Proof.
  apply (@hit_replays_the_body_only RefCodec.codec RefCodec_laws Sample.pc
           Scenes.upstream404 Scenes.upstream_down Sample.t0 Sample.t0
           (Sample.t0 + 30 * time.Second) (Sample.t0 + 30 * time.Second)
           Sample.fs_empty Sample.req Scenes.resp404).
  - discriminate.
  - vm_compute. discriminate.
  - reflexivity.
  - vm_compute. reflexivity.
  - vm_compute. discriminate.
Defined.

Lemma expired_entry_is_refreshed_witness :
  h_log (proxyHandler Sample.pc Sample.upstream Sample.t0 Sample.t0
           Scenes.fs_stale Sample.req) = []
  /\ readCacheFile
       (h_fs (proxyHandler Sample.pc Sample.upstream Sample.t0 Sample.t0
                Scenes.fs_stale Sample.req))
       (getCachePath Sample.pc
          (getCacheKey Sample.pc (http.Method Sample.req)
             (http.Query_url Sample.req) (http.ReqHeader Sample.req)))
     = inr {| Data := http.Body Sample.resp; Timestamp := Sample.t0 |}
  /\ http.w_header (h_w (proxyHandler Sample.pc Sample.upstream Sample.t0 Sample.t0
                           Scenes.fs_stale Sample.req)) !! "X-Cache" = Some ["MISS"]
  /\ http.w_status (h_w (proxyHandler Sample.pc Sample.upstream Sample.t0 Sample.t0
                           Scenes.fs_stale Sample.req)) = Some 203.
Proof.
  destruct (@expired_entry_is_refreshed RefCodec.codec RefCodec_laws Sample.pc
              Sample.upstream Sample.t0 Sample.t0 Scenes.fs_stale Sample.req
              Scenes.old_file
              {| Data := Sample.payload;
                 Timestamp := Sample.t0 - 3600 * time.Second |}
              Sample.resp Scenes.js_resp)
    as (Hlog & Hread & Hok).
  - discriminate.
  - vm_compute. reflexivity.
  - reflexivity.
  - vm_compute. reflexivity.
  - vm_compute. reflexivity.
  - reflexivity.
  - reflexivity.
  - vm_compute. reflexivity.
  - destruct Hok as (Hx & Hst & _).
    { right. vm_compute. split; discriminate. }
    split; [exact Hlog|]. split; [exact Hread|]. split; [exact Hx | exact Hst].
Defined.

Lemma sweep_logs_in_name_order_witness :
  exists l : list (string * node),
    (forall name n, (name, n) ∈ l <-> entries Sample.fs_mixed !! name = Some n)
    /\ Sorted (fun a b => String.ltb (fst a) (fst b) = true) l
    /\ snd (cleanExpiredCache Sample.pc (Sample.t0 + 30 * time.Second) Sample.fs_mixed)
       = omap (sweep_line Sample.pc (Sample.t0 + 30 * time.Second) Sample.fs_mixed) l.
Proof.
  apply (@sweep_logs_in_name_order RefCodec.codec Sample.pc
           (Sample.t0 + 30 * time.Second) Sample.fs_mixed).
  reflexivity.
Defined.

(** The lines of that sweep: the file that is not a cache file, then the two
    stale ones. *)
Example sweep_log_sample :
  snd (cleanExpiredCache Sample.pc (Sample.t0 + 30 * time.Second) Sample.fs_mixed)
  = ["Error reading cache file cache/junk.gz: unexpected EOF";
     "Removed expired cache file: old1.gz";
     "Removed expired cache file: old2.gz"].
Proof. vm_compute. reflexivity. Qed.

(** A response that switches protocols: the bytes read after it are cached,
    and the status allows no body, so none is written. *)
Example switching_protocols_sample :
  let h := proxyHandler Sample.pc Scenes.upstream101 Sample.t0 Sample.t0
             Sample.fs_empty Sample.req in
  http.w_status (h_w h) = Some 101
  /\ http.w_body (h_w h) = []
  /\ http.w_panic (h_w h) = false
  /\ h_log h = []
  /\ fst (get Sample.pc (Sample.t0 + time.Second) (h_fs h) Sample.key)
     = {| g_data := bytes_of_string "frames"; g_found := true; g_err := None |}.
Proof. vm_compute. repeat split. Qed.

(** A status code below 100: [WriteHeader] panics after the body was
    cached. *)
Example status_99_sample :
  let h := proxyHandler Sample.pc Scenes.upstream099 Sample.t0 Sample.t0
             Sample.fs_empty Sample.req in
  http.w_status (h_w h) = None
  /\ http.w_body (h_w h) = []
  /\ http.w_panic (h_w h) = true
  /\ fst (get Sample.pc (Sample.t0 + time.Second) (h_fs h) Sample.key)
     = {| g_data := Sample.payload; g_found := true; g_err := None |}.
Proof. vm_compute. repeat split. Qed.

(** What [Write] takes: a body within the declared length, no body beyond
    it, no body with a status that allows none, and an empty body always. *)
Example takes_body_samples :
  takes_body 200 (http.RespHeader Scenes.resp_short) (http.Body Scenes.resp_short) = false
  /\ takes_body 200 {[ "Content-Length" := ["7"] ]} Sample.payload = true
  /\ takes_body 200 {[ "Content-Length" := ["seven"] ]} Sample.payload = true
  /\ bad_length {[ "Content-Length" := ["seven"] ]} = true
  /\ bad_length {[ "Content-Length" := ["-1"] ]} = true
  /\ bad_length {[ "Content-Length" := ["7"] ]} = false
  /\ bad_length ∅ = false
  /\ takes_body 204 ∅ Sample.payload = false
  /\ takes_body 304 ∅ Sample.payload = false
  /\ takes_body 101 ∅ Sample.payload = false
  /\ takes_body 204 ∅ [] = true
  /\ takes_body 404 ∅ Sample.payload = true.
Proof. vm_compute. repeat split. Qed.

Lemma sweep_is_idempotent_witness :
  snd (fst (cleanExpiredCache Sample.pc Sample.t0
              (snd (fst (cleanExpiredCache Sample.pc Sample.t0 Sample.fs_mixed)))))
  = snd (fst (cleanExpiredCache Sample.pc Sample.t0 Sample.fs_mixed)).
Proof.
  apply (@sweep_is_idempotent RefCodec.codec). reflexivity.
Defined.

Lemma corrupt_entry_is_permanent_witness :
  entries (snd (fst (cleanExpiredCache Sample.pc (Sample.t0 + 86400 * time.Second)
                       Sample.fs_corrupt))) !! (Sample.key +:+ ".gz")
  = Some (File (Sample.plain_file []))
  /\ entries (h_fs (proxyHandler Sample.pc Sample.upstream Sample.t0 Sample.t0
                      Sample.fs_corrupt Scenes.req2)) !! (Sample.key +:+ ".gz")
     = Some (File (Sample.plain_file []))
  /\ http.w_status (h_w (proxyHandler Sample.pc Sample.upstream Sample.t0 Sample.t0
                           Sample.fs_corrupt Sample.req)) = Some 500.
Proof.
  destruct (@corrupt_entry_is_permanent RefCodec.codec Sample.pc Sample.fs_corrupt
              Sample.key (Sample.plain_file []) (errorString "EOF"))
    as (Hsweep & Hreq & Hkey).
  - vm_compute. reflexivity.
  - reflexivity.
  - reflexivity.
  - split; [apply Hsweep|]. split; [apply Hreq|].
    apply (Hkey Sample.upstream Sample.t0 Sample.t0 Sample.req).
    + discriminate.
    + unfold Sample.key. reflexivity.
Defined.

Lemma cleanup_routine_removes_what_expired_witness :
  entries (fst (startCleanupRoutine Sample.pc Scenes.ticks Sample.fs_mixed))
    !! "fresh.gz" = None
  /\ entries (fst (startCleanupRoutine Sample.pc Scenes.ticks Sample.fs_mixed))
       !! "junk.gz"
     = Some (File (Sample.plain_file (bytes_of_string "not gzip"))).
Proof.
  rewrite !(@cleanup_routine_removes_what_expired RefCodec.codec Sample.pc
              Scenes.ticks Sample.fs_mixed eq_refl).
  split; vm_compute; reflexivity.
Defined.

Lemma cleanup_routine_logs_listing_failure_witness :
  startCleanupRoutine Sample.pc Scenes.ticks Scenes.fs_unlistable
  = (Scenes.fs_unlistable,
     map (fun _ => "Cache cleanup error: failed to read cache directory: open "
                   +:+ cacheDir Sample.pc +:+ ": permission denied") Scenes.ticks).
Proof.
  apply (@cleanup_routine_logs_listing_failure RefCodec.codec). reflexivity.
Defined.

Lemma variant_set_get_roundtrip_witness :
  v0.get Scenes.pc0 Scenes.fs_variant Sample.key
  = {| g_data := Sample.payload; g_found := true; g_err := None |}.
Proof.
  refine (proj1 (@variant_set_get_roundtrip RefCodec.codec RefCodec_laws Scenes.pc0
                   Sample.fs_empty Scenes.fs_variant Sample.key Sample.payload _)).
  vm_compute. reflexivity.
Defined.

Lemma variant_entry_under_current_cache_witness :
  proxyHandler Sample.pc Sample.upstream Sample.t0 Sample.t0 Scenes.fs_variant
    Sample.req
  = {| h_w := http.Error ("cache error: " +:+ "unexpected EOF")
                http.StatusInternalServerError http.NewResponseWriter;
       h_fs := Scenes.fs_variant; h_log := []; h_sent := [] |}.
Proof.
  refine (proj2 (@variant_entry_under_current_cache RefCodec.codec RefCodec_laws
                   Sample.pc Sample.fs_empty Scenes.fs_variant Sample.key
                   Sample.payload _)
            "unexpected EOF" Sample.upstream Sample.t0 Sample.t0 Sample.req _ _ _).
  - vm_compute. reflexivity.
  - reflexivity.
  - discriminate.
  - unfold Sample.key. reflexivity.
Defined.
